(** * A shallow embedding of the UI automation agent

  The development follows the layout of the Python sources:

  - [Py]       : what the embedding needs of Python itself (exceptions as
                 values, JSON-like values, truthiness, [str.split]);
  - [Logger]   : [src/utils/logger.py], the [ActionLogger];
  - [Regex]    : the one regular expression of [src/services/llm_service.py];
  - [LLM]      : [src/services/llm_service.py], the task interpreter;
  - [Config]   : [src/core/config.py];
  - [World]    : the calls the program makes to Playwright, the clock and
                 the provider pages, and the state they are made in;
  - [Browser]  : [src/automation/browser_manager.py];
  - [Provider] : [src/providers/base_provider.py];
  - [Agent]    : [src/core/agent.py], the orchestrator;
  - [Scenario] : concrete worlds and inputs.

  The properties follow the definitions, module by module.  *)

From Stdlib Require Import ZArith List String Ascii Bool Lia.
From stdpp Require Import base option list strings gmap pretty.

Set Warnings "-register-all".
Set Default Proof Using "Type".

Local Open Scope string_scope.
Local Open Scope Z_scope.
Local Open Scope list_scope.

(** ** Python values and control effects *)

Module Py.

(** The result of running a piece of Python that may raise: either it
    returns, or an [Exception] propagates; the string is [str(e)]. *)
Inductive outcome (A : Type) : Type :=
| Returned (a : A)
| Raised (msg : string).
Arguments Returned {A} a.
Arguments Raised {A} msg.

Definition returned {A} (o : outcome A) : bool :=
  match o with Returned _ => true | Raised _ => false end.

(** Stateful Python: a computation over a mutable state [S] that returns
    or raises.  The state is kept when an exception propagates. *)
Definition M (S A : Type) : Type := S -> outcome A * S.

Definition ret {S A} (a : A) : M S A := fun s => (Returned a, s).
Definition raise {S A} (msg : string) : M S A := fun s => (Raised msg, s).
Definition bind {S A B} (m : M S A) (k : A -> M S B) : M S B :=
  fun s => match m s with
           | (Returned a, s') => k a s'
           | (Raised e, s') => (Raised e, s')
           end.
Definition get {S} : M S S := fun s => (Returned s, s).
Definition modify {S} (f : S -> S) : M S unit := fun s => (Returned tt, f s).
Definition lift {S A} (o : outcome A) : M S A := fun s => (o, s).

(** The outcome of [m], in hand: what a [try] statement with several
    [except] clauses looks at. *)
Definition attempt {S A} (m : M S A) : M S (outcome A) :=
  fun s => match m s with (r, s') => (Returned r, s') end.

(** [try: body except Exception as e: handler(e)] *)
Definition try_except {S A} (body : M S A) (handler : string -> M S A) : M S A :=
  fun s => match body s with
           | (Returned a, s') => (Returned a, s')
           | (Raised e, s') => handler e s'
           end.

(** [try: body finally: final]: [final] runs on every exit of [body]; the
    result of [body] stands unless [final] itself raises. *)
Definition try_finally {S A} (body : M S A) (final : M S unit) : M S A :=
  fun s => match body s with
           | (r, s') => match final s' with
                        | (Returned _, s'') => (r, s'')
                        | (Raised e, s'') => (Raised e, s'')
                        end
           end.

(** A computation that returns from every state. *)
Definition total {S A} (m : M S A) : Prop :=
  forall s, exists a s', m s = (Returned a, s').

(** Values as [json.loads] produces them; the numbers are the integers. *)
Inductive value : Type :=
| VNone
| VBool (b : bool)
| VInt (n : Z)
| VStr (s : string)
| VList (l : list value)
| VDict (d : list (string * value)).

(** Python truthiness, [bool(v)]. *)
Definition truthy (v : value) : bool :=
  match v with
  | VNone => false
  | VBool b => b
  | VInt n => negb (n =? 0)
  | VStr s => negb (String.eqb s "")
  | VList l => match l with [] => false | _ => true end
  | VDict d => match d with [] => false | _ => true end
  end.

(** *** Text

    A [str] is a [string] whose characters are the code points below
    U+0100; the functions below work on its list of characters. *)

Definition chars (s : string) : list ascii := list_ascii_of_string s.
Definition text (l : list ascii) : string := string_of_list_ascii l.

Definition code (c : ascii) : nat := nat_of_ascii c.
Definition between (lo hi : nat) (c : ascii) : bool :=
  (lo <=? code c)%nat && (code c <=? hi)%nat.
Definition is_char (n : nat) (c : ascii) : bool := (code c =? n)%nat.

Definition is_upper (c : ascii) : bool := between 65 90 c.
Definition is_lower (c : ascii) : bool := between 97 122 c.
Definition is_digit (c : ascii) : bool := between 48 57 c.

(** [str.isspace] on one character: TAB..CR, FS..US, space, NEL, NBSP. *)
Definition is_space (c : ascii) : bool :=
  between 9 13 c || between 28 32 c || is_char 133 c || is_char 160 c.

(** What [\w] matches in a [str] pattern: [_] and the alphanumerics of the
    Unicode database, here for the code points below U+0100. *)
Definition is_word (c : ascii) : bool :=
  is_upper c || is_lower c || is_digit c || is_char 95 c
  || is_char 170 c || is_char 178 c || is_char 179 c || is_char 181 c
  || is_char 185 c || is_char 186 c || between 188 190 c
  || between 192 214 c || between 216 246 c || between 248 255 c.

(** [s.split()]: the maximal runs of non-space characters. [cur] is the
    run being read, latest character first. *)
Fixpoint split_go (cur : list ascii) (s : list ascii) : list (list ascii) :=
  match s with
  | [] => match cur with [] => [] | _ => [rev cur] end
  | c :: s' =>
      if is_space c
      then match cur with
           | [] => split_go [] s'
           | _ => rev cur :: split_go [] s'
           end
      else split_go (c :: cur) s'
  end.

Definition split (s : list ascii) : list (list ascii) := split_go [] s.

(** [sep.join(words)] *)
Fixpoint join (sep : list ascii) (words : list (list ascii)) : list ascii :=
  match words with
  | [] => []
  | [w] => w
  | w :: ws => w ++ sep ++ join sep ws
  end.

(** [s.lower()], on the letters A..Z. *)
Definition lower_char (c : ascii) : ascii :=
  if is_upper c then ascii_of_nat (code c + 32) else c.
Definition lower (s : list ascii) : list ascii := map lower_char s.

Fixpoint starts_with (p s : list ascii) : bool :=
  match p, s with
  | [], _ => true
  | a :: p', b :: s' => Ascii.eqb a b && starts_with p' s'
  | _ :: _, [] => false
  end.

(** [sub in s] *)
Fixpoint contains (sub s : list ascii) : bool :=
  starts_with sub s ||
  match s with
  | [] => false
  | _ :: s' => contains sub s'
  end.

(** [s.replace(old, new)] for a non-empty [old]: occurrences are replaced
    from the left and do not overlap. [skip] is the number of characters
    of the last occurrence still to be passed over. *)
Fixpoint replace_go (old new s : list ascii) (skip : nat) : list ascii :=
  match s with
  | [] => []
  | c :: s' =>
      match skip with
      | S k => replace_go old new s' k
      | O =>
          if starts_with old s
          then new ++ replace_go old new s' (pred (length old))
          else c :: replace_go old new s' 0
      end
  end.

Definition replace (old new s : list ascii) : list ascii := replace_go old new s 0.

(** Dicts keep insertion order: [d[k] = v] replaces in place or appends. *)
Fixpoint dict_get (k : string) (d : list (string * value)) : option value :=
  match d with
  | [] => None
  | (k', v) :: d' => if String.eqb k k' then Some v else dict_get k d'
  end.

Fixpoint dict_set (k : string) (v : value) (d : list (string * value)) : list (string * value) :=
  match d with
  | [] => [(k, v)]
  | (k', v') :: d' => if String.eqb k k' then (k, v) :: d' else (k', v') :: dict_set k v d'
  end.

Definition dict_has (k : string) (d : list (string * value)) : bool :=
  match dict_get k d with Some _ => true | None => false end.

(** [v == s] for a string literal [s]. *)
Definition is_str (v : value) (s : string) : bool :=
  match v with
  | VStr x => String.eqb x s
  | _ => false
  end.

(** [type(v).__name__], for the text of a [TypeError] or [AttributeError]. *)
Definition type_name (v : value) : string :=
  match v with
  | VNone => "NoneType"
  | VBool _ => "bool"
  | VInt _ => "int"
  | VStr _ => "str"
  | VList _ => "list"
  | VDict _ => "dict"
  end.

(** [repr] of a [str]: apostrophes around it, or double quotes when the
    string holds an apostrophe and no double quote; the quote in use and
    the backslash are escaped, and so is what [str.isprintable] rejects. *)
Definition hex_digit (n : nat) : ascii :=
  nth n (chars "0123456789abcdef") "0"%char.

Definition hex_escape (c : ascii) : list ascii :=
  [ascii_of_nat 92; "x"%char; hex_digit (code c / 16); hex_digit (code c mod 16)].

Definition is_printable (c : ascii) : bool :=
  between 32 126 c || (between 161 255 c && negb (is_char 173 c)).

Definition escape (quote c : ascii) : list ascii :=
  if Ascii.eqb c quote || is_char 92 c then [ascii_of_nat 92; c]
  else if is_char 9 c then [ascii_of_nat 92; "t"%char]
  else if is_char 10 c then [ascii_of_nat 92; "n"%char]
  else if is_char 13 c then [ascii_of_nat 92; "r"%char]
  else if is_printable c then [c]
  else hex_escape c.

Definition repr_str (s : string) : string :=
  let cs := chars s in
  let quote :=
    if existsb (is_char 39) cs && negb (existsb (is_char 34) cs)
    then ascii_of_nat 34 else ascii_of_nat 39 in
  text (quote :: flat_map (escape quote) cs ++ [quote]).

(** [repr(v)] and [str(v)], as an f-string renders a value. *)
Fixpoint repr (v : value) : string :=
  match v with
  | VNone => "None"
  | VBool b => if b then "True" else "False"
  | VInt n => pretty n
  | VStr s => repr_str s
  | VList l =>
      "[" +:+ (fix items (l : list value) : string :=
                 match l with
                 | [] => ""
                 | x :: l' =>
                     match l' with
                     | [] => repr x
                     | _ => repr x +:+ ", " +:+ items l'
                     end
                 end) l +:+ "]"
  | VDict d =>
      "{" +:+ (fix items (d : list (string * value)) : string :=
                 match d with
                 | [] => ""
                 | (k, x) :: d' =>
                     match d' with
                     | [] => repr_str k +:+ ": " +:+ repr x
                     | _ => repr_str k +:+ ": " +:+ repr x +:+ ", " +:+ items d'
                     end
                 end) d +:+ "}"
  end.

Definition str (v : value) : string :=
  match v with
  | VStr s => s
  | _ => repr v
  end.

(** [v.get(k, default)]: only a dict has the method. *)
Definition method_get (v : value) (k : string) (default : value) : outcome value :=
  match v with
  | VDict d => Returned (match dict_get k d with Some x => x | None => default end)
  | _ => Raised ("'" +:+ type_name v +:+ "' object has no attribute 'get'")
  end.

(** Division rounded to the nearest integer, a tie to the even one. *)
Definition div_even (n d : Z) : Z :=
  let q := n / d in
  let r := n mod d in
  if 2 * r <? d then q
  else if d <? 2 * r then q + 1
  else if Z.even q then q else q + 1.

(** The float nearest to [a / b], for positive [a] and [b]: a mantissa
    [m] of 53 bits and a shift [s], the float being [m / 2^s]. *)
Definition nearest_float (a b : Z) : Z * Z :=
  let scaled (s : Z) := if 0 <=? s then (a * 2 ^ s, b) else (a, b * 2 ^ (- s)) in
  let s0 := 52 + Z.log2 b - Z.log2 a in
  let s := if fst (scaled s0) / snd (scaled s0) <? 2 ^ 52 then s0 + 1 else s0 in
  (div_even (fst (scaled s)) (snd (scaled s)), s).

(** [f"{x:.2f}"] for the float [x] nearest to [ms / 1000]: the hundredths
    nearest to the float itself, a tie to the even one. *)
Definition format_2f (ms : Z) : string :=
  let hundredths :=
    if ms =? 0 then 0
    else
      let (m, s) := nearest_float (Z.abs ms) 1000 in
      if 0 <=? s then div_even (100 * m) (2 ^ s) else 100 * m * 2 ^ (- s) in
  let frac := hundredths mod 100 in
  (if ms <? 0 then "-" else "") +:+
  pretty (hundredths / 100) +:+ "." +:+ (if frac <? 10 then "0" else "") +:+ pretty frac.

(** *** Paths

    [str(Path(directory) / name)] on a POSIX system: empty components
    and [.] are dropped, and a name that starts with a slash replaces
    the directory. *)
Fixpoint split_on (sep : ascii) (cur : list ascii) (s : list ascii) : list (list ascii) :=
  match s with
  | [] => [rev cur]
  | c :: s' => if Ascii.eqb c sep then rev cur :: split_on sep [] s'
               else split_on sep (c :: cur) s'
  end.

Fixpoint leading (sep : ascii) (s : list ascii) : nat :=
  match s with
  | c :: s' => if Ascii.eqb c sep then S (leading sep s') else 0
  | [] => 0
  end.

(** The root and the components of a path. *)
Definition path_parts (p : string) : list ascii * list (list ascii) :=
  let s := chars p in
  let n := leading "/"%char s in
  let root := if (n =? 2)%nat then chars "//" else if (1 <=? n)%nat then chars "/" else [] in
  let named (part : list ascii) :=
    negb (match part with [] => true | _ => false end)
    && negb (match part with ["."%char] => true | _ => false end) in
  (root, List.filter named (split_on "/"%char [] s)).

Definition path_str (root : list ascii) (parts : list (list ascii)) : string :=
  match root, parts with
  | [], [] => "."
  | _, _ => text (root ++ join (chars "/") parts)
  end.

Definition path_join (directory name : string) : string :=
  let (droot, dparts) := path_parts directory in
  let (nroot, nparts) := path_parts name in
  match nroot with
  | [] => path_str droot (dparts ++ nparts)
  | _ => path_str nroot nparts
  end.

(** A name of one component: not empty, not a dot, without a slash. *)
Definition plain_name (s : string) : bool :=
  negb (String.eqb s "") && negb (String.eqb s ".")
  && forallb (fun c => negb (Ascii.eqb c "/"%char)) (chars s).

End Py.
Export Py.

Declare Scope py_scope.
Delimit Scope py_scope with py.
Notation "'let*' x := c 'in' k" := (Py.bind c (fun x => k))
  (at level 10, x name, c at level 100, k at level 200) : py_scope.
Notation "c ;;; k" := (Py.bind c (fun _ => k))
  (at level 100, k at level 200, right associativity) : py_scope.
Local Open Scope py_scope.

(** ** [src/utils/logger.py] *)

Module Logger.

(** A line handed to the [logging] module: level and message. *)
Inductive level := INFO | WARNING | ERROR.
Definition log_line : Type := level * string.

(** The dict stored by [log_action]. *)
Record ActionRecord := mkAction {
  action : string;
  success : bool;
  details : option string;
  timestamp : string
}.

(** [message = f"{status} {action}"], then [" - {details}"] when
    [details] is truthy. *)
Definition action_message (act : string) (ok : bool) (det : option string) : string :=
  let status := if ok then "✅" else "❌" in
  let message := status +:+ " " +:+ act in
  match det with
  | Some d => if String.eqb d "" then message else message +:+ " - " +:+ d
  | None => message
  end.

Definition step_message (step : string) (description : option string) : string :=
  let message := "🔹 " +:+ step in
  match description with
  | Some d => if String.eqb d "" then message else message +:+ ": " +:+ d
  | None => message
  end.

Definition warning_message (message : string) : string := "⚠️  " +:+ message.

Definition error_message (message : string) (exception : option string) : string :=
  let error_msg := "❌ " +:+ message in
  match exception with
  | Some e => error_msg +:+ " - " +:+ e
  | None => error_msg
  end.

Definition success_message (message : string) : string := "✅ " +:+ message.

(** *** The logger on a heap of Python objects

    [self.actions] is a reference to a list object, and a list holds
    references to the dicts appended to it: [list.copy] is shallow. *)

Definition loc := positive.

Inductive obj :=
| OList (items : list loc)
| ODict (d : ActionRecord).

Record store := mkStore {
  objs : gmap loc obj;
  sink : list log_line     (* what [self.logger] has been given *)
}.

Record ActionLogger := { actions : loc }.

Definition alloc (o : obj) : M store loc := fun st =>
  let l := fresh (dom (objs st)) in
  (Returned l, mkStore (<[l := o]> (objs st)) (sink st)).

Definition emit (lv : level) (msg : string) : M store unit :=
  modify (fun st => mkStore (objs st) (sink st ++ [(lv, msg)])).

(** The items of the list object at [l] ([[]] when [l] is no list). *)
Definition items_at (l : loc) (st : store) : list loc :=
  match objs st !! l with
  | Some (OList xs) => xs
  | _ => []
  end.

Definition update_list (l : loc) (f : list loc -> list loc) : M store unit :=
  modify (fun st =>
    mkStore (alter (fun o => match o with OList xs => OList (f xs) | _ => o end) l (objs st))
            (sink st)).

(** [__init__]: [self.actions = []]. *)
Definition init : M store ActionLogger :=
  let* l := alloc (OList []) in
  ret {| actions := l |}.

(** [log_action]; [now] is what [datetime.now().isoformat()] returned. *)
Definition log_action (self : ActionLogger) (act : string) (ok : bool)
    (det : option string) (now : string) : M store unit :=
  emit INFO (action_message act ok det);;;
  let* d := alloc (ODict (mkAction act ok det now)) in
  update_list (actions self) (fun xs => xs ++ [d]).

(** [get_actions]: [return self.actions.copy()], a new list object with
    the same items. *)
Definition get_actions (self : ActionLogger) : M store loc :=
  let* st := get in
  alloc (OList (items_at (actions self) st)).

(** [clear_actions]: [self.actions.clear()]. *)
Definition clear_actions (self : ActionLogger) : M store unit :=
  update_list (actions self) (fun _ => []).

(** What a holder of a list reference can do to the list object.  An
    index out of range raises [IndexError] and leaves the list as it is. *)
Inductive list_mut :=
| Append (x : loc)
| Extend (xs : list loc)
| Insert (i : nat) (x : loc)
| SetItem (i : nat) (x : loc)
| DelItem (i : nat)
| Pop
| Clear
| Reverse.

Definition apply_mut (m : list_mut) (xs : list loc) : list loc :=
  match m with
  | Append x => xs ++ [x]
  | Extend ys => xs ++ ys
  | Insert i x => take i xs ++ x :: drop i xs
  | SetItem i x => <[i := x]> xs
  | DelItem i => delete i xs
  | Pop => removelast xs
  | Clear => []
  | Reverse => reverse xs
  end.

Definition mutate (l : loc) (m : list_mut) : M store unit :=
  update_list l (apply_mut m).

Fixpoint mutate_all (l : loc) (ms : list list_mut) : M store unit :=
  match ms with
  | [] => ret tt
  | m :: ms' => mutate l m;;; mutate_all l ms'
  end.

(** A write into a record dict, as in [record["success"] = False]. *)
Definition update_record (d : loc) (f : ActionRecord -> ActionRecord) : M store unit :=
  modify (fun st =>
    mkStore (alter (fun o => match o with ODict r => ODict (f r) | _ => o end) d (objs st))
            (sink st)).

(** The record dict at [d]. *)
Definition record_at (d : loc) (st : store) : option ActionRecord :=
  match objs st !! d with
  | Some (ODict r) => Some r
  | _ => None
  end.

End Logger.

(** ** The regular expression of [src/services/llm_service.py]

    [re] is a backtracking matcher.  The one pattern of the program is a
    sequence of word boundaries, literal characters and greedy repetitions
    of a character class, so that is the pattern language embedded here. *)

Module Regex.

Inductive atom :=
| Boundary                                    (* [\b] *)
| Lit (c : ascii)                             (* an escaped or plain character *)
| Many (cls : ascii -> bool) (least : nat).   (* [[cls]{least,}], [+] is [{1,}] *)

Definition pattern := list atom.

(** [\b]: exactly one of the characters on the two sides is a word
    character; the outside of the string is not. *)
Definition word_before (prev : option ascii) : bool :=
  match prev with Some c => is_word c | None => false end.
Definition word_after (s : list ascii) : bool :=
  match s with c :: _ => is_word c | [] => false end.
Definition at_boundary (prev : option ascii) (s : list ascii) : bool :=
  xorb (word_before prev) (word_after s).

(** A greedy repetition: take as many characters of the class as there
    are, then give them back one at a time until the rest of the pattern
    ([cont]) matches.  [n] counts the characters taken so far. *)
Fixpoint match_many (cls : ascii -> bool) (least : nat)
    (cont : option ascii -> list ascii -> option (list ascii))
    (n : nat) (prev : option ascii) (s : list ascii) : option (list ascii) :=
  let stop := if (least <=? n)%nat then cont prev s else None in
  match s with
  | c :: s' =>
      if cls c
      then match match_many cls least cont (S n) (Some c) s' with
           | Some rest => Some rest
           | None => stop
           end
      else stop
  | [] => stop
  end.

(** Match [p] at the start of [s], [prev] being the character before it;
    the result is what is left of [s] after the match. *)
Fixpoint match_here (p : pattern) (prev : option ascii) (s : list ascii)
    : option (list ascii) :=
  match p with
  | [] => Some s
  | Boundary :: p' => if at_boundary prev s then match_here p' prev s else None
  | Lit c :: p' =>
      match s with
      | c' :: s' => if Ascii.eqb c c' then match_here p' (Some c') s' else None
      | [] => None
      end
  | Many cls least :: p' => match_many cls least (match_here p') 0 prev s
  end.

(** [re.findall]: scan from the left; a match is reported and the scan
    resumes after it.  [skip] is the number of characters of the last
    match still to be passed over. *)
Fixpoint findall_go (p : pattern) (prev : option ascii) (s : list ascii) (skip : nat)
    : list (list ascii) :=
  match skip with
  | S k =>
      match s with
      | c :: s' => findall_go p (Some c) s' k
      | [] => []
      end
  | O =>
      match match_here p prev s with
      | Some rest =>
          let n := (length s - length rest)%nat in
          take n s ::
            match s with
            | c :: s' => findall_go p (Some c) s' (pred n)
            | [] => []
            end
      | None =>
          match s with
          | c :: s' => findall_go p (Some c) s' 0
          | [] => []
          end
      end
  end.

Definition findall (p : pattern) (s : string) : list string :=
  map text (findall_go p None (chars s) 0).

(** [[A-Za-z0-9._%+-]] *)
Definition local_class (c : ascii) : bool :=
  is_upper c || is_lower c || is_digit c
  || is_char 46 c || is_char 95 c || is_char 37 c || is_char 43 c || is_char 45 c.

(** [[A-Za-z0-9.-]] *)
Definition domain_class (c : ascii) : bool :=
  is_upper c || is_lower c || is_digit c || is_char 46 c || is_char 45 c.

(** [[A-Z|a-z]]: the bar is a member of the class. *)
Definition tld_class (c : ascii) : bool :=
  is_upper c || is_char 124 c || is_lower c.

(** [\b[A-Za-z0-9._%+-]+@[A-Za-z0-9.-]+\.[A-Z|a-z]{2,}\b] *)
Definition EMAIL : pattern :=
  [ Boundary; Many local_class 1; Lit "@"%char; Many domain_class 1;
    Lit "."%char; Many tld_class 2; Boundary ].

(** The character before the position reached by reading [m], when
    [prev] was the character before [m]. *)
Definition after (prev : option ascii) (m : list ascii) : option ascii :=
  match last m with
  | Some c => Some c
  | None => prev
  end.

(** What a match of [EMAIL] looks like: a local part, an at sign, a
    domain, a dot and at least two more characters, each part drawn from
    its class. *)
Definition email_shaped (m : list ascii) : Prop :=
  exists loc dom tld,
    m = loc ++ "@"%char :: dom ++ "."%char :: tld /\
    loc <> [] /\ Forall (fun c => local_class c = true) loc /\
    dom <> [] /\ Forall (fun c => domain_class c = true) dom /\
    (2 <= length tld)%nat /\ Forall (fun c => tld_class c = true) tld.

(** A left-to-right scan of [s] for the pattern [p]: [Scan p prev s ms]
    says that [ms] are the matches of [p] in [s], each found at the first
    position after the one before it where the pattern matches. *)
Inductive Scan (p : pattern) : option ascii -> list ascii -> list (list ascii) -> Prop :=
| scan_end prev :
    match_here p prev [] = None ->
    Scan p prev [] []
| scan_skip prev c s ms :
    match_here p prev (c :: s) = None ->
    Scan p (Some c) s ms ->
    Scan p prev (c :: s) ms
| scan_hit prev m rest ms :
    m <> [] ->
    match_here p prev (m ++ rest) = Some rest ->
    Scan p (after prev m) rest ms ->
    Scan p prev (m ++ rest) (m :: ms).

(** An address as one writes it: the local part starts with a word
    character, and the last label is made of letters. *)
Definition letter (c : ascii) : bool := is_upper c || is_lower c.

Definition plain_address (m : list ascii) : Prop :=
  exists loc dom tld,
    m = loc ++ "@"%char :: dom ++ "."%char :: tld /\
    word_after loc = true /\ Forall (fun c => local_class c = true) loc /\
    dom <> [] /\ Forall (fun c => domain_class c = true) dom /\
    (2 <= length tld)%nat /\ Forall (fun c => letter c = true) tld.

End Regex.

(** ** [src/services/llm_service.py] *)

Module LLM.
Import Logger.

Definition log (lv : level) (msg : string) : M (list log_line) unit :=
  modify (fun sink => sink ++ [(lv, msg)]).

(** [_generate_subject] *)
Definition _generate_subject (content : string) : string :=
  let words := take 5 (split (chars content)) in
  let subject := join (chars " ") words in
  if (50 <? length subject)%nat
  then text (take 47 subject ++ chars "...")
  else text subject.

Definition defaults : list (string * value) :=
  [ ("task_type", VStr "email");
    ("action", VStr "send");
    ("recipients", VList []);
    ("subject", VStr "");
    ("content", VStr "");
    ("attachments", VList []);
    ("provider_preference", VStr "auto");
    ("urgency", VStr "medium");
    ("additional_context", VStr "") ].

(** [for key, default_value in defaults.items(): if key not in task_info:
    task_info[key] = default_value], on a dict. *)
Definition fill_defaults (d : list (string * value)) : list (string * value) :=
  fold_left (fun d kv => if dict_has (fst kv) d then d else dict_set (fst kv) (snd kv) d)
            defaults d.

(** The block "Clean recipients": a string is replaced by the addresses
    found in it. *)
Definition clean_recipients (d : list (string * value)) : list (string * value) :=
  match dict_get "recipients" d with
  | Some (VStr s) => dict_set "recipients" (VList (map VStr (Regex.findall Regex.EMAIL s))) d
  | _ => d
  end.

(** [_validate_task_info].  What [json.loads] returned need not be a dict:
    on anything else the membership test, the item assignment or the
    string subscript raises [TypeError].  [_generate_subject] calls
    [content.split()], which only a [str] has. *)
Definition _validate_task_info (task_info : value) : outcome value :=
  match task_info with
  | VDict d =>
      let d := fill_defaults d in
      let d := clean_recipients d in
      match dict_get "subject" d, dict_get "content" d with
      | Some subject, Some content =>
          if negb (truthy subject) && truthy content
          then match content with
               | VStr c => Returned (VDict (dict_set "subject" (VStr (_generate_subject c)) d))
               | _ => Raised ("'" +:+ type_name content +:+ "' object has no attribute 'split'")
               end
          else Returned (VDict d)
      | None, _ => Raised "'subject'"
      | _, None => Raised "'content'"
      end
  | VList _ => Raised "list indices must be integers or slices, not str"
  | VStr s =>
      if forallb (fun kv => contains (chars (fst kv)) (chars s)) defaults
      then Raised "string indices must be integers, not 'str'"
      else Raised "'str' object does not support item assignment"
  | _ => Raised ("argument of type '" +:+ type_name task_info +:+ "' is not iterable")
  end.

(** The dict that [_fallback_parsing] returns. *)
Definition fallback_record (instruction : string) : value :=
  let emails := Regex.findall Regex.EMAIL instruction in
  VDict
    [ ("task_type", VStr "email");
      ("action", VStr "send");
      ("recipients", VList (map VStr emails));
      ("subject", VStr "Message from automation system");
      ("content", VStr instruction);
      ("attachments", VList []);
      ("provider_preference", VStr "auto");
      ("urgency", VStr "medium");
      ("additional_context", VStr "") ].

(** [_fallback_parsing] *)
Definition _fallback_parsing (instruction : string) : M (list log_line) value :=
  log WARNING "Using fallback parsing for instruction";;;
  ret (fallback_record instruction).

(** [result['task_type']] *)
Definition subscript (v : value) (k : string) : outcome value :=
  match v with
  | VDict d => match dict_get k d with
               | Some x => Returned x
               | None => Raised ("'" +:+ k +:+ "'")
               end
  | _ => Raised "indices must be integers"
  end.

Section Interpreter.

(** The language model and the JSON reader are the outside of the
    interpreter: the prompt goes out, text comes back or the call raises;
    [json.loads] returns a value or raises [JSONDecodeError].  The source
    has a canned answer, [_get_mock_response], in the place of the model
    call; the embedding keeps the place open as [model]. *)
Variable model : string -> outcome string.
Variable json_loads : string -> outcome value.
(** The f-string of [interpret_instruction], around the instruction. *)
Variable prompt_of : string -> string.

(** [_call_llm] *)
Definition _call_llm (prompt : string) : M (list log_line) string :=
  try_except
    (log WARNING "Using mock LLM response for testing";;;
     lift (model prompt))
    (fun e =>
       log ERROR ("LLM API call failed: " +:+ e);;;
       raise e).

(** [interpret_instruction]: [json.loads] alone raises
    [JSONDecodeError]; whatever else raises in the [try] block goes to
    the second [except] clause. *)
Definition interpret_instruction (instruction : string) : M (list log_line) value :=
  let prompt := prompt_of instruction in
  let* response := attempt (_call_llm prompt) in
  match response with
  | Raised e =>
      log ERROR ("LLM interpretation failed: " +:+ e);;;
      _fallback_parsing instruction
  | Returned response =>
      match json_loads response with
      | Raised e =>
          log ERROR ("Failed to parse LLM response as JSON: " +:+ e);;;
          _fallback_parsing instruction
      | Returned result =>
          try_except
            (let* result := lift (_validate_task_info result) in
             let* task_type := lift (subscript result "task_type") in
             log INFO ("Interpreted instruction: " +:+ str task_type +:+ " task");;;
             ret result)
            (fun e =>
               log ERROR ("LLM interpretation failed: " +:+ e);;;
               _fallback_parsing instruction)
      end
  end.

(** The runs in which the fallback parser is used: the model call
    raised, its answer was no JSON, or the JSON value could not be
    validated. *)
Definition interpretation_fails (instruction : string) : bool :=
  match model (prompt_of instruction) with
  | Raised _ => true
  | Returned response =>
      match json_loads response with
      | Raised _ => true
      | Returned result => negb (returned (_validate_task_info result))
      end
  end.

End Interpreter.

(** A text with a word in it: some character is not white space. *)
Definition has_word (s : string) : bool :=
  existsb (fun c => negb (is_space c)) (chars s).

(** The number of at signs in a text. *)
Definition at_signs (s : list ascii) : nat := count_occ ascii_dec s "@"%char.

(** The fields of a task record, as the callers read them. *)
Definition recipients_of (task : value) : option value :=
  match task with VDict d => dict_get "recipients" d | _ => None end.
Definition subject_of (task : value) : option value :=
  match task with VDict d => dict_get "subject" d | _ => None end.
Definition content_of (task : value) : option value :=
  match task with VDict d => dict_get "content" d | _ => None end.

End LLM.

(** ** [src/core/config.py] *)

Module Config.

Record Config := mkConfig {
  openai_api_key : string;
  headless : bool;
  timeout : Z;
  retry_attempts : Z;
  gmail_email : option string;
  gmail_password : option string;
  outlook_email : option string;
  outlook_password : option string;
  screenshot_on_error : bool;
  save_html_on_error : bool;
  max_wait_time : Z
}.

(** Truthiness of an [Optional[str]] field. *)
Definition given (o : option string) : bool :=
  match o with
  | Some s => negb (String.eqb s "")
  | None => false
  end.

(** [get_available_providers] *)
Definition get_available_providers (self : Config) : list string :=
  let providers := [] in
  let providers :=
    if given (gmail_email self) && given (gmail_password self)
    then providers ++ ["gmail"] else providers in
  let providers :=
    if given (outlook_email self) && given (outlook_password self)
    then providers ++ ["outlook"] else providers in
  providers.

(** [is_provider_configured] *)
Definition is_provider_configured (self : Config) (provider : string) : bool :=
  bool_decide (provider ∈ get_available_providers self).

Record Credentials := mkCredentials {
  email : option string;
  password : option string
}.

(** [get_provider_credentials] *)
Definition get_provider_credentials (self : Config) (provider : string) : outcome Credentials :=
  if String.eqb provider "gmail"
  then Returned (mkCredentials (gmail_email self) (gmail_password self))
  else if String.eqb provider "outlook"
  then Returned (mkCredentials (outlook_email self) (outlook_password self))
  else Raised ("Unknown provider: " +:+ provider).

(** [validate] *)
Definition validate (self : Config) : outcome bool :=
  if String.eqb (openai_api_key self) ""
  then Raised "OpenAI API key is required"
  else
    let gmail_configured := given (gmail_email self) && given (gmail_password self) in
    let outlook_configured := given (outlook_email self) && given (outlook_password self) in
    if negb gmail_configured && negb outlook_configured
    then Raised "At least one email provider must be configured"
    else Returned true.

End Config.

(** ** The outside world

    Everything the program asks of Playwright, the file system, the clock
    and the provider pages is a [call]; the world answers each call or
    makes it raise, and changes as it does so.  Calls are recorded in the
    order in which they are made. *)

Module World.
Import Logger.

Inductive call :=
(* the Playwright page of a started [BrowserManager] *)
| PageGoto (url : string)
| PageWaitForSelector (selector : string) (timeout_ms : Z)
| PageClick (selector : string)
| PageFill (selector text : string)
| PageContent
| PageScreenshot (path : string)
| WriteFile (path content : string)
(* a page method called with an argument that is no [str]; Playwright
   decides what becomes of it *)
| PageCall (method : string) (arguments : list value)
(* the life cycle of a [BrowserManager], as the agent sees it *)
| BrowserNew
| BrowserStart
| BrowserStop
(* the two abstract methods of a provider adapter *)
| Login (provider : string) (credentials : Config.Credentials)
| SendEmail (provider : string) (task_info : value).

Definition result (c : call) : Type :=
  match c with
  | PageContent => string
  | Login _ _ => bool
  | SendEmail _ _ => list (string * value)
  | _ => unit
  end.

(** What is kept of a call: the call, and the text of the exception when
    it raised. *)
Inductive event :=
| Call (c : call) (error : option string)
| Sleep (ms : Z).

Definition error_of {A} (r : outcome A) : option string :=
  match r with
  | Returned _ => None
  | Raised e => Some e
  end.

(** A world answers calls and tells the time: [now] is
    [datetime.now().isoformat()], [time_time] is [time.time()] in
    milliseconds. *)
Class Handler (W : Type) := {
  respond : forall c : call, W -> outcome (result c) * W;
  now : W -> string * W;
  time_time : W -> Z * W
}.

(** The program state: the world, what was asked of it, what went to
    [logging], the list of an [ActionLogger], and the fields of [self]. *)
Record env (W S : Type) := mkEnv {
  world : W;
  trace : list event;
  sink : list log_line;
  actions : list ActionRecord;
  self : S
}.
Arguments mkEnv {W S}.
Arguments world {W S}.
Arguments trace {W S}.
Arguments sink {W S}.
Arguments actions {W S}.
Arguments self {W S}.

Section Ops.
Context {W : Type} `{Handler W} {S : Type}.

Definition ext (c : call) : M (env W S) (result c) := fun st =>
  let (r, w) := respond c (world st) in
  (r, mkEnv w (trace st ++ [Call c (error_of r)]) (sink st) (actions st) (self st)).

Definition sleep (ms : Z) : M (env W S) unit :=
  modify (fun st => mkEnv (world st) (trace st ++ [Sleep ms]) (sink st) (actions st) (self st)).

Definition clock : M (env W S) string := fun st =>
  let (t, w) := now (world st) in
  (Returned t, mkEnv w (trace st) (sink st) (actions st) (self st)).

Definition time : M (env W S) Z := fun st =>
  let (t, w) := time_time (world st) in
  (Returned t, mkEnv w (trace st) (sink st) (actions st) (self st)).

Definition emit (lv : level) (msg : string) : M (env W S) unit :=
  modify (fun st => mkEnv (world st) (trace st) (sink st ++ [(lv, msg)]) (actions st) (self st)).

Definition get_self : M (env W S) S := fun st => (Returned (self st), st).
Definition set_self (s : S) : M (env W S) unit :=
  modify (fun st => mkEnv (world st) (trace st) (sink st) (actions st) s).

(** The methods of [ActionLogger], on the list it owns. *)
Definition log_action (act : string) (ok : bool) (det : option string) : M (env W S) unit :=
  emit INFO (action_message act ok det);;;
  let* t := clock in
  modify (fun st => mkEnv (world st) (trace st) (sink st)
                          (actions st ++ [mkAction act ok det t]) (self st)).

Definition log_step (step : string) (description : option string) : M (env W S) unit :=
  emit INFO (step_message step description).

Definition log_warning (message : string) : M (env W S) unit :=
  emit WARNING (warning_message message).

Definition log_error (message : string) (exception : option string) : M (env W S) unit :=
  emit ERROR (error_message message exception).

Definition log_success (message : string) : M (env W S) unit :=
  emit INFO (success_message message).

Definition get_actions : M (env W S) (list ActionRecord) :=
  fun st => (Returned (actions st), st).

(** The state after a line has gone to the log, and the state after
    [log_action]. *)
Definition logged (lv : level) (msg : string) (st : env W S) : env W S :=
  mkEnv (world st) (trace st) (sink st ++ [(lv, msg)]) (actions st) (self st).

Definition acted (act : string) (ok : bool) (det : option string) (st : env W S) : env W S :=
  mkEnv (snd (now (world st))) (trace st)
        (sink st ++ [(INFO, action_message act ok det)])
        (actions st ++ [mkAction act ok det (fst (now (world st)))]) (self st).

(** Run a computation over the [logging] sink alone. *)
Definition with_sink {A} (m : M (list log_line) A) : M (env W S) A := fun st =>
  let (r, k) := m (sink st) in
  (r, mkEnv (world st) (trace st) k (actions st) (self st)).

End Ops.

(** The calls among the events. *)
Definition calls (tr : list event) : list call :=
  omap (fun e => match e with Call c _ => Some c | Sleep _ => None end) tr.

End World.

(** ** [src/automation/browser_manager.py]

    The embedding is of a manager that has been started: [self.page] is
    the open page, and the page methods are [World] calls. *)

Module Browser.
Import Logger World.

Record BrowserManager := mkBrowserManager {
  config : Config.Config;
  screenshots_dir : string
}.

(** An entry of [fallback_actions]: [{action, target}]. *)
Record FallbackAction := mkFallback {
  fa_action : option string;
  fa_target : string
}.

(** One entry of an action plan in the wire format, a dict read with
    [action.get(key, default)]: an absent key is [None] here, and a key
    that is there has a value of the type that the format gives it.  The
    module [Plans] below has the entries as the JSON they are. *)
Record Action := mkStep {
  a_step : option Z;
  a_action : option string;
  a_target : option string;
  a_value : option string;
  a_description : option string;
  a_fallback_actions : option (list FallbackAction)
}.

(** The dict appended to [results["actions"]]. *)
Record ActionResult := mkActionResult {
  ar_step : Z;
  ar_action : string;
  ar_target : string;
  ar_description : string;
  ar_success : bool
}.

(** The [results] dict of [execute_action_plan]. *)
Record PlanResult := mkPlanResult {
  pr_success : bool;
  pr_actions : list ActionResult;
  pr_errors : list string;
  pr_screenshots : list string
}.

Section Methods.
Context {W : Type} `{Handler W}.

Abbreviation state := (env W BrowserManager).

(** [navigate] *)
Definition navigate (url : string) : M state bool :=
  try_except
    (log_step ("Navigating to " +:+ url) None;;;
     ext (PageGoto url);;;
     log_action ("Navigated to " +:+ url) true None;;;
     ret true)
    (fun e =>
       log_action ("Navigate to " +:+ url) false (Some e);;;
       ret false).

(** The loop of [click_element] over [enumerate(selectors_to_try)], from
    index [i] on; [n] is [len(selectors_to_try)].  An iteration either
    returns from the method ([Some]) or goes on to the next selector. *)
Fixpoint click_loop (n i : nat) (sels : list string) : M state bool :=
  match sels with
  | [] => ret false
  | sel :: rest =>
      let* r :=
        try_except
          (log_step ("Attempting to click element: " +:+ sel) None;;;
           ext (PageWaitForSelector sel 5000);;;
           ext (PageClick sel);;;
           log_action ("Clicked element: " +:+ sel) true None;;;
           ret (Some true))
          (fun e =>
             if (i =? n - 1)%nat
             then log_action ("Click element: " +:+ sel) false (Some e);;;
                  ret (Some false)
             else emit WARNING ("Failed to click " +:+ sel +:+ ", trying fallback: " +:+ e);;;
                  ret None) in
      match r with
      | Some b => ret b
      | None => click_loop n (S i) rest
      end
  end.

(** [click_element]; [fallback_selectors] defaults to [None]. *)
Definition click_element (selector : string) (fallback_selectors : option (list string))
    : M state bool :=
  let selectors_to_try := [selector] ++ default [] fallback_selectors in
  click_loop (length selectors_to_try) 0 selectors_to_try.

Fixpoint type_loop (text : string) (n i : nat) (sels : list string) : M state bool :=
  match sels with
  | [] => ret false
  | sel :: rest =>
      let* r :=
        try_except
          (log_step ("Attempting to type in element: " +:+ sel) None;;;
           ext (PageWaitForSelector sel 5000);;;
           ext (PageFill sel text);;;
           log_action ("Typed text in element: " +:+ sel) true None;;;
           ret (Some true))
          (fun e =>
             if (i =? n - 1)%nat
             then log_action ("Type text in element: " +:+ sel) false (Some e);;;
                  ret (Some false)
             else emit WARNING ("Failed to type in " +:+ sel +:+ ", trying fallback: " +:+ e);;;
                  ret None) in
      match r with
      | Some b => ret b
      | None => type_loop text n (S i) rest
      end
  end.

(** [type_text] *)
Definition type_text (selector text : string) (fallback_selectors : option (list string))
    : M state bool :=
  let selectors_to_try := [selector] ++ default [] fallback_selectors in
  type_loop text (length selectors_to_try) 0 selectors_to_try.

(** [wait_for_element]; [timeout or self.config.max_wait_time] takes the
    configured time when [timeout] is [None] or [0]. *)
Definition wait_for_element (selector : string) (timeout : option Z) : M state bool :=
  try_except
    (let* me := get_self in
     let seconds :=
       match timeout with
       | Some t => if t =? 0 then Config.max_wait_time (config me) else t
       | None => Config.max_wait_time (config me)
       end in
     let timeout_ms := seconds * 1000 in
     ext (PageWaitForSelector selector timeout_ms);;;
     log_action ("Waited for element: " +:+ selector) true None;;;
     ret true)
    (fun e =>
       log_action ("Wait for element: " +:+ selector) false (Some e);;;
       ret false).

(** [get_page_content] *)
Definition get_page_content : M state string :=
  try_except
    (ext PageContent)
    (fun e =>
       emit ERROR ("Failed to get page content: " +:+ e);;;
       ret "").

(** [take_screenshot]: [None] stands for Python's [None]; the path is
    [self.screenshots_dir / filename]. *)
Definition take_screenshot (filename : option string) : M state (option string) :=
  try_except
    (let* filename :=
       match filename with
       | Some f => ret f
       | None =>
           let* t := time in
           ret ("screenshot_" +:+ pretty (t / 1000) +:+ ".png")
       end in
     let* me := get_self in
     let filepath := path_join (screenshots_dir me) filename in
     ext (PageScreenshot filepath);;;
     log_action ("Took screenshot: " +:+ filename) true None;;;
     ret (Some filepath))
    (fun e =>
       log_action "Take screenshot" false (Some e);;;
       ret None).

(** [save_page_html] *)
Definition save_page_html (filename : option string) : M state (option string) :=
  try_except
    (let* filename :=
       match filename with
       | Some f => ret f
       | None =>
           let* t := time in
           ret ("page_" +:+ pretty (t / 1000) +:+ ".html")
       end in
     let* me := get_self in
     let filepath := path_join (screenshots_dir me) filename in
     let* content := ext PageContent in
     ext (WriteFile filepath content);;;
     log_action ("Saved HTML: " +:+ filename) true None;;;
     ret (Some filepath))
    (fun e =>
       log_action "Save HTML" false (Some e);;;
       ret None).

(** What [click_element] and [type_text] ask of the page for one
    candidate selector. *)
Definition click_attempt (sel : string) : M state unit :=
  ext (PageWaitForSelector sel 5000);;;
  ext (PageClick sel).

Definition type_attempt (sel text : string) : M state unit :=
  ext (PageWaitForSelector sel 5000);;;
  ext (PageFill sel text).

(** A selector on which the page always raises, and one on which a click
    always goes through. *)
Definition refuses (sel : string) : Prop :=
  forall st : state, returned (fst (click_attempt sel st)) = false.

Definition accepts (sel : string) : Prop :=
  forall st : state, returned (fst (click_attempt sel st)) = true.

(** The branch of [execute_action_plan] on [action_type]; [success]
    starts as [False] and stays so when no branch is taken. *)
Definition dispatch (action_type target value : string) (fallback_actions : list FallbackAction)
    : M state bool :=
  if String.eqb action_type "navigate" then navigate target
  else if String.eqb action_type "click" then
    let fallback_selectors := map fa_target fallback_actions in
    click_element target (Some fallback_selectors)
  else if String.eqb action_type "type" then
    let fallback_selectors := map fa_target fallback_actions in
    type_text target value (Some fallback_selectors)
  else if String.eqb action_type "wait" then wait_for_element target None
  else if String.eqb action_type "verify" then wait_for_element target (Some 5)
  else ret false.

(** What is done when a step has failed. *)
Definition on_failure (step : Z) (description : string) (results : PlanResult)
    : M state PlanResult :=
  let results :=
    mkPlanResult false (pr_actions results)
      (pr_errors results ++ ["Step " +:+ pretty step +:+ " failed: " +:+ description])
      (pr_screenshots results) in
  let* me := get_self in
  let* results :=
    if Config.screenshot_on_error (config me)
    then let* screenshot_path := take_screenshot (Some ("error_step_" +:+ pretty step +:+ ".png")) in
         match screenshot_path with
         | Some path =>
             ret (mkPlanResult (pr_success results) (pr_actions results) (pr_errors results)
                               (pr_screenshots results ++ [path]))
         | None => ret results
         end
    else ret results in
  if Config.save_html_on_error (config me)
  then let* html_path := save_page_html (Some ("error_step_" +:+ pretty step +:+ ".html")) in
       match html_path with
       | Some path =>
           ret (mkPlanResult (pr_success results) (pr_actions results) (pr_errors results)
                             (pr_screenshots results ++ [path]))
       | None => ret results
       end
  else ret results.

(** One iteration of the loop of [execute_action_plan], on an entry in
    the wire format: nothing raises there, and the [except] clause is
    not reached ([Plans.run_step] has the entries on which it is). *)
Definition run_step (action : Action) (results : PlanResult) : M state PlanResult :=
  let step := default 0 (a_step action) in
  let action_type := default "" (a_action action) in
  let target := default "" (a_target action) in
  let value := default "" (a_value action) in
  let description := default "" (a_description action) in
  let fallback_actions := default [] (a_fallback_actions action) in
  try_except
    (log_step ("Step " +:+ pretty step +:+ ": " +:+ description) None;;;
     let* success := dispatch action_type target value fallback_actions in
     let action_result := mkActionResult step action_type target description success in
     let results :=
       mkPlanResult (pr_success results) (pr_actions results ++ [action_result])
                    (pr_errors results) (pr_screenshots results) in
     let* results :=
       if negb success then on_failure step description results else ret results in
     sleep 500;;;
     ret results)
    (fun e =>
       let results :=
         mkPlanResult false (pr_actions results)
           (pr_errors results ++ ["Step " +:+ pretty step +:+ " exception: " +:+ e])
           (pr_screenshots results) in
       log_error ("Action execution failed at step " +:+ pretty step) (Some e);;;
       ret results).

(** [Ran plan st ars]: from the state [st] the steps of [plan] have been
    dispatched one after the other, each in the state left by the step
    before it, and [ars] are their records. *)
Inductive Ran : list Action -> state -> list ActionResult -> Prop :=
| ran_nil st : Ran [] st []
| ran_cons a plan st ar ars st_d r r' st' :
    dispatch (default "" (a_action a)) (default "" (a_target a)) (default "" (a_value a))
             (default [] (a_fallback_actions a))
             (logged INFO
                (step_message ("Step " +:+ pretty (default 0 (a_step a)) +:+ ": "
                               +:+ default "" (a_description a)) None) st)
    = (Returned (ar_success ar), st_d) ->
    run_step a r st = (Returned r', st') ->
    Ran plan st' ars ->
    Ran (a :: plan) st (ar :: ars).

Fixpoint plan_loop (actions : list Action) (results : PlanResult) : M state PlanResult :=
  match actions with
  | [] => ret results
  | action :: rest =>
      let* results := run_step action results in
      plan_loop rest results
  end.

(** [execute_action_plan] *)
Definition execute_action_plan (actions : list Action) : M state PlanResult :=
  plan_loop actions (mkPlanResult true [] [] []).

End Methods.

(** The candidates that were put to the page, in the order of the calls:
    every attempt of [click_element] and [type_text] starts by waiting
    for its selector. *)
Definition attempted (tr : list event) : list string :=
  omap (fun ev => match ev with
                  | Call (PageWaitForSelector sel _) _ => Some sel
                  | _ => None
                  end) tr.

(** The selectors on which a click, or a fill, went through. *)
Definition succeeded (tr : list event) : list string :=
  omap (fun ev => match ev with
                  | Call (PageClick sel) None => Some sel
                  | Call (PageFill sel _) None => Some sel
                  | _ => None
                  end) tr.

(** The action types that [execute_action_plan] knows. *)
Definition known_action (action_type : string) : bool :=
  String.eqb action_type "navigate" || String.eqb action_type "click"
  || String.eqb action_type "type" || String.eqb action_type "wait"
  || String.eqb action_type "verify".

(** The entry of [results["errors"]] for a failed step. *)
Definition failure_message (ar : ActionResult) : string :=
  "Step " +:+ pretty (ar_step ar) +:+ " failed: " +:+ ar_description ar.

(** [ar] is the record of the plan entry [a]. *)
Definition records (a : Action) (ar : ActionResult) : Prop :=
  ar_step ar = default 0 (a_step a) /\
  ar_action ar = default "" (a_action a) /\
  ar_target ar = default "" (a_target a) /\
  ar_description ar = default "" (a_description a) /\
  (known_action (default "" (a_action a)) = false -> ar_success ar = false).

(** A computation that leaves a view [h] of the trace and of [self] as it
    found it. *)
Definition keeps {W X A} (h : list event -> BrowserManager -> X)
    (m : M (env W BrowserManager) A) : Prop :=
  forall st, h (trace (snd (m st))) (self (snd (m st))) = h (trace st) (self st).

(** A primitive reports to the action log: it returns, and has appended
    one record, a success exactly when the value returned is truthy, with
    the text of an exception exactly when it is not. *)
Definition reports {W A} (truth : A -> bool) (m : M (env W BrowserManager) A) : Prop :=
  forall st, exists a st' ar,
    m st = (Returned a, st') /\
    actions st' = actions st ++ [ar] /\
    success ar = truth a /\
    (details ar = None <-> truth a = true).

(** Truthiness of the path, or [None], that a capture returns. *)
Definition has_path (o : option string) : bool :=
  match o with Some _ => true | None => false end.

(** The pauses among the events, and the calls that capture the page. *)
Definition pace (tr : list event) : list Z :=
  omap (fun ev => match ev with Sleep ms => Some ms | _ => None end) tr.

Definition is_capture (c : call) : bool :=
  match c with
  | PageContent | PageScreenshot _ | WriteFile _ _ => true
  | _ => false
  end.

Definition captures (tr : list event) : list call :=
  List.filter is_capture (calls tr).

(** The files that a failed step [step] may leave, by the two switches of
    the configuration: the screenshot, then the page. *)
Definition capture_files (me : BrowserManager) (step : Z) : list string :=
  (if Config.screenshot_on_error (config me)
   then [path_join (screenshots_dir me) ("error_step_" +:+ pretty step +:+ ".png")] else [])
  ++ (if Config.save_html_on_error (config me)
      then [path_join (screenshots_dir me) ("error_step_" +:+ pretty step +:+ ".html")] else []).

(** [Played script evs ok]: the events [evs] are the calls of [script],
    in order and each without an exception, up to the first one that
    raised; [ok] tells that none did, so that the script was played to
    its end. *)
Inductive Played : list call -> list event -> bool -> Prop :=
| played_end : Played [] [] true
| played_call c script evs ok :
    Played script evs ok -> Played (c :: script) (Call c None :: evs) ok
| played_raise c script e : Played (c :: script) [Call c (Some e)] false.

(** A [Dict[str, str]]: [d.get(k)] is [str_get k d]; [d[k]] raises
    [KeyError] on a missing key. *)
Fixpoint str_get (k : string) (d : list (string * string)) : option string :=
  match d with
  | [] => None
  | (k', v) :: d' => if String.eqb k k' then Some v else str_get k d'
  end.

Definition str_item (d : list (string * string)) (k : string) : outcome string :=
  match str_get k d with
  | Some v => Returned v
  | None => Raised ("'" +:+ k +:+ "'")
  end.

(** Truthiness of what [selectors.get] returns. *)
Definition present (o : option string) : bool :=
  match o with
  | Some s => negb (String.eqb s "")
  | None => false
  end.

Section Service.
Context {W : Type} `{Handler W}.

(** [login_to_service]; a selector that [selectors.get] did not find is
    [None], and passes no further than the test [all([...])]. *)
Definition login_to_service (service_url : string)
    (credentials selectors : list (string * string)) : M (env W BrowserManager) bool :=
  try_except
    (log_step ("Logging into service at " +:+ service_url) None;;;
     let* navigated := navigate service_url in
     if negb navigated then ret false else
     let email_selector := str_get "email_field" selectors in
     let password_selector := str_get "password_field" selectors in
     let submit_selector := str_get "submit_button" selectors in
     if negb (forallb present [email_selector; password_selector; submit_selector])
     then log_error "Missing required login selectors" None;;;
          ret false
     else
     let* email := lift (str_item credentials "email") in
     let* typed := type_text (default "" email_selector) email None in
     if negb typed then ret false else
     let* password := lift (str_item credentials "password") in
     let* typed := type_text (default "" password_selector) password None in
     if negb typed then ret false else
     let* clicked := click_element (default "" submit_selector) None in
     if negb clicked then ret false else
     sleep 3000;;;
     log_success "Login completed successfully";;;
     ret true)
    (fun e =>
       log_error "Login failed" (Some e);;;
       ret false).

(** [get_action_log] *)
Definition get_action_log : M (env W BrowserManager) (list ActionRecord) :=
  get_actions.

End Service.

End Browser.

(** ** [src/automation/browser_manager.py]: plans as the JSON they are

    [execute_action_plan] takes what [json.loads] made of the answer of
    the model: the entries of a plan are values, and so are their
    fields.  The primitives are here on values too; on strings they are
    those of [Browser]. *)

Module Plans.
Import Logger World Browser.

(** The dict appended to [results["actions"]]. *)
Record StepRecord := mkStepRecord {
  sr_step : value;
  sr_action : value;
  sr_target : value;
  sr_description : value;
  sr_success : bool
}.

(** The [results] dict of [execute_action_plan]. *)
Record PlanReport := mkPlanReport {
  pp_success : bool;
  pp_actions : list StepRecord;
  pp_errors : list string;
  pp_screenshots : list string
}.

(** What the first six lines of the loop body read from an entry. *)
Record Fields := mkFields {
  f_step : value;
  f_action_type : value;
  f_target : value;
  f_value : value;
  f_description : value;
  f_fallback_actions : value
}.

(** [action.get(key, default)] for the six keys; only a dict has the
    method, and the first call raises on anything else. *)
Definition read_entry (action : value) : outcome Fields :=
  match method_get action "step" (VInt 0),
        method_get action "action" (VStr ""),
        method_get action "target" (VStr ""),
        method_get action "value" (VStr ""),
        method_get action "description" (VStr ""),
        method_get action "fallback_actions" (VList []) with
  | Returned step, Returned action_type, Returned target, Returned value,
    Returned description, Returned fallback_actions =>
      Returned (mkFields step action_type target value description fallback_actions)
  | Raised e, _, _, _, _, _ => Raised e
  | _, Raised e, _, _, _, _ => Raised e
  | _, _, Raised e, _, _, _ => Raised e
  | _, _, _, Raised e, _, _ => Raised e
  | _, _, _, _, Raised e, _ => Raised e
  | _, _, _, _, _, Raised e => Raised e
  end.

(** [[fa.get("target") for fa in items]] *)
Fixpoint targets (items : list value) : outcome (list value) :=
  match items with
  | [] => Returned []
  | fa :: rest =>
      match method_get fa "target" VNone with
      | Returned t =>
          match targets rest with
          | Returned ts => Returned (t :: ts)
          | Raised e => Raised e
          end
      | Raised e => Raised e
      end
  end.

(** [[fa.get("target") for fa in fallback_actions]]: iterating a dict
    gives its keys and iterating a string its characters, all of them
    strings; [None], a number and a boolean cannot be iterated. *)
Definition fallback_targets (fallback_actions : value) : outcome (list value) :=
  match fallback_actions with
  | VList items => targets items
  | VDict d => targets (map (fun kv => VStr (fst kv)) d)
  | VStr s => targets (map (fun c => VStr (text [c])) (chars s))
  | v => Raised ("'" +:+ type_name v +:+ "' object is not iterable")
  end.

Section Methods.
Context {W : Type} `{Handler W}.

Abbreviation state := (env W BrowserManager).

(** The methods of the page, on values. *)
Definition page_goto (url : value) : M state unit :=
  match url with
  | VStr s => ext (PageGoto s)
  | _ => ext (PageCall "goto" [url])
  end.

Definition page_wait_for_selector (selector : value) (timeout_ms : Z) : M state unit :=
  match selector with
  | VStr s => ext (PageWaitForSelector s timeout_ms)
  | _ => ext (PageCall "wait_for_selector" [selector; VInt timeout_ms])
  end.

Definition page_click (selector : value) : M state unit :=
  match selector with
  | VStr s => ext (PageClick s)
  | _ => ext (PageCall "click" [selector])
  end.

Definition page_fill (selector text : value) : M state unit :=
  match selector, text with
  | VStr s, VStr t => ext (PageFill s t)
  | _, _ => ext (PageCall "fill" [selector; text])
  end.

(** [navigate] *)
Definition navigate (url : value) : M state bool :=
  try_except
    (log_step ("Navigating to " +:+ str url) None;;;
     page_goto url;;;
     log_action ("Navigated to " +:+ str url) true None;;;
     ret true)
    (fun e =>
       log_action ("Navigate to " +:+ str url) false (Some e);;;
       ret false).

(** The loop of [click_element]. *)
Fixpoint click_loop (n i : nat) (sels : list value) : M state bool :=
  match sels with
  | [] => ret false
  | sel :: rest =>
      let* r :=
        try_except
          (log_step ("Attempting to click element: " +:+ str sel) None;;;
           page_wait_for_selector sel 5000;;;
           page_click sel;;;
           log_action ("Clicked element: " +:+ str sel) true None;;;
           ret (Some true))
          (fun e =>
             if (i =? n - 1)%nat
             then log_action ("Click element: " +:+ str sel) false (Some e);;;
                  ret (Some false)
             else emit WARNING ("Failed to click " +:+ str sel +:+ ", trying fallback: " +:+ e);;;
                  ret None) in
      match r with
      | Some b => ret b
      | None => click_loop n (S i) rest
      end
  end.

(** [click_element], with the list that [execute_action_plan] hands it. *)
Definition click_element (selector : value) (fallback_selectors : list value) : M state bool :=
  let selectors_to_try := [selector] ++ fallback_selectors in
  click_loop (length selectors_to_try) 0 selectors_to_try.

Fixpoint type_loop (text : value) (n i : nat) (sels : list value) : M state bool :=
  match sels with
  | [] => ret false
  | sel :: rest =>
      let* r :=
        try_except
          (log_step ("Attempting to type in element: " +:+ str sel) None;;;
           page_wait_for_selector sel 5000;;;
           page_fill sel text;;;
           log_action ("Typed text in element: " +:+ str sel) true None;;;
           ret (Some true))
          (fun e =>
             if (i =? n - 1)%nat
             then log_action ("Type text in element: " +:+ str sel) false (Some e);;;
                  ret (Some false)
             else emit WARNING ("Failed to type in " +:+ str sel +:+ ", trying fallback: " +:+ e);;;
                  ret None) in
      match r with
      | Some b => ret b
      | None => type_loop text n (S i) rest
      end
  end.

(** [type_text] *)
Definition type_text (selector text : value) (fallback_selectors : list value) : M state bool :=
  let selectors_to_try := [selector] ++ fallback_selectors in
  type_loop text (length selectors_to_try) 0 selectors_to_try.

(** [wait_for_element] *)
Definition wait_for_element (selector : value) (timeout : option Z) : M state bool :=
  try_except
    (let* me := get_self in
     let seconds :=
       match timeout with
       | Some t => if t =? 0 then Config.max_wait_time (config me) else t
       | None => Config.max_wait_time (config me)
       end in
     let timeout_ms := seconds * 1000 in
     page_wait_for_selector selector timeout_ms;;;
     log_action ("Waited for element: " +:+ str selector) true None;;;
     ret true)
    (fun e =>
       log_action ("Wait for element: " +:+ str selector) false (Some e);;;
       ret false).

(** The branch of [execute_action_plan] on [action_type]. *)
Definition dispatch (action_type target value fallback_actions : value) : M state bool :=
  if is_str action_type "navigate" then navigate target
  else if is_str action_type "click" then
    let* fallback_selectors := lift (fallback_targets fallback_actions) in
    click_element target fallback_selectors
  else if is_str action_type "type" then
    let* fallback_selectors := lift (fallback_targets fallback_actions) in
    type_text target value fallback_selectors
  else if is_str action_type "wait" then wait_for_element target None
  else if is_str action_type "verify" then wait_for_element target (Some 5)
  else ret false.

(** [if path: results["screenshots"].append(path)] *)
Definition add_capture (path : option string) (results : PlanReport) : PlanReport :=
  match path with
  | Some p =>
      if String.eqb p "" then results
      else mkPlanReport (pp_success results) (pp_actions results) (pp_errors results)
                        (pp_screenshots results ++ [p])
  | None => results
  end.

(** What is done when a step has failed. *)
Definition on_failure (step description : value) (results : PlanReport) : M state PlanReport :=
  let results :=
    mkPlanReport false (pp_actions results)
      (pp_errors results ++ ["Step " +:+ str step +:+ " failed: " +:+ str description])
      (pp_screenshots results) in
  let* me := get_self in
  let* results :=
    if Config.screenshot_on_error (config me)
    then let* screenshot_path :=
           Browser.take_screenshot (Some ("error_step_" +:+ str step +:+ ".png")) in
         ret (add_capture screenshot_path results)
    else ret results in
  if Config.save_html_on_error (config me)
  then let* html_path :=
         Browser.save_page_html (Some ("error_step_" +:+ str step +:+ ".html")) in
       ret (add_capture html_path results)
  else ret results.

(** The [except] clause of the loop body.  [step] is the variable of
    that name, unbound ([None]) until an entry has been read: reading it
    then raises [UnboundLocalError] out of [execute_action_plan] (the
    text is that of Python 3.11). *)
Definition on_exception (step : option value) (e : string) (results : PlanReport)
    : M state PlanReport :=
  match step with
  | None => raise "cannot access local variable 'step' where it is not associated with a value"
  | Some step =>
      let results :=
        mkPlanReport false (pp_actions results)
          (pp_errors results ++ ["Step " +:+ str step +:+ " exception: " +:+ e])
          (pp_screenshots results) in
      log_error ("Action execution failed at step " +:+ str step) (Some e);;;
      ret results
  end.

(** The lines of the [try] block from [log_step] to the dispatch. *)
Definition begin_step (f : Fields) : M state bool :=
  log_step ("Step " +:+ str (f_step f) +:+ ": " +:+ str (f_description f)) None;;;
  dispatch (f_action_type f) (f_target f) (f_value f) (f_fallback_actions f).

(** One iteration of the loop of [execute_action_plan]; [step] goes in
    and out as the loop carries it. *)
Definition run_step (action : value) (step : option value) (results : PlanReport)
    : M state (option value * PlanReport) :=
  match read_entry action with
  | Raised e =>
      let* results := on_exception step e results in
      ret (step, results)
  | Returned f =>
      let step := f_step f in
      let* results :=
        try_except
          (let* success := begin_step f in
           let action_result :=
             mkStepRecord step (f_action_type f) (f_target f) (f_description f) success in
           let results :=
             mkPlanReport (pp_success results) (pp_actions results ++ [action_result])
                          (pp_errors results) (pp_screenshots results) in
           let* results :=
             if negb success then on_failure step (f_description f) results else ret results in
           sleep 500;;;
           ret results)
          (fun e => on_exception (Some step) e results) in
      ret (Some step, results)
  end.

Fixpoint plan_loop (actions : list value) (step : option value) (results : PlanReport)
    : M state PlanReport :=
  match actions with
  | [] => ret results
  | action :: rest =>
      let* next := run_step action step results in
      plan_loop rest (fst next) (snd next)
  end.

(** [execute_action_plan] *)
Definition execute_action_plan (actions : list value) : M state PlanReport :=
  plan_loop actions None (mkPlanReport true [] [] []).

End Methods.

(** Reading a run of a plan. *)
Definition is_dict (v : value) : bool :=
  match v with VDict _ => true | _ => false end.

(** [action.get(key, default)] *)
Definition field (action : value) (key : string) (default : value) : value :=
  match action with
  | VDict d => match dict_get key d with Some x => x | None => default end
  | _ => default
  end.

Definition fields_of (action : value) : Fields :=
  mkFields (field action "step" (VInt 0)) (field action "action" (VStr ""))
           (field action "target" (VStr "")) (field action "value" (VStr ""))
           (field action "description" (VStr "")) (field action "fallback_actions" (VList [])).

(** A step went through: it was dispatched and returned true. *)
Definition went_through (o : outcome bool) : bool :=
  match o with Returned true => true | _ => false end.

(** The record that a step leaves, if it leaves one, and its line among
    the errors, if it has one. *)
Definition step_record (action : value) (o : outcome bool) : option StepRecord :=
  match o with
  | Returned success =>
      Some (mkStepRecord (field action "step" (VInt 0)) (field action "action" (VStr ""))
                         (field action "target" (VStr ""))
                         (field action "description" (VStr "")) success)
  | Raised _ => None
  end.

Definition step_error (action : value) (o : outcome bool) : option string :=
  match o with
  | Returned true => None
  | Returned false =>
      Some ("Step " +:+ str (field action "step" (VInt 0)) +:+ " failed: "
            +:+ str (field action "description" (VStr "")))
  | Raised e =>
      Some ("Step " +:+ str (field action "step" (VInt 0)) +:+ " exception: " +:+ e)
  end.

(** An event that captures the page. *)
Definition captures_page (ev : event) : bool :=
  match ev with
  | Call c _ => is_capture c
  | Sleep _ => false
  end.

(** The state after the pause that ends a step, and a state reached by
    captures of the page alone: calls that capture it, lines in the log
    and records of the action log. *)
Definition paused {W} (st : env W BrowserManager) : env W BrowserManager :=
  mkEnv (world st) (trace st ++ [Sleep 500]) (sink st) (actions st) (self st).

Definition captured {W} (st st' : env W BrowserManager) : Prop :=
  exists caps,
    trace st' = trace st ++ caps /\
    forallb captures_page caps = true /\
    self st' = self st /\
    sink st `prefix_of` sink st' /\
    actions st `prefix_of` actions st'.

(** From the end of the dispatch of a step to the start of the next
    step.  A step that went through is followed by its pause; one that
    failed, by its captures and then the pause; one that raised, by a
    line in the log and nothing else. *)
Definition step_end {W} (action : value) (o : outcome bool)
    (st_d st1 : env W BrowserManager) : Prop :=
  match o with
  | Returned true => st1 = paused st_d
  | Returned false => exists st_c, captured st_d st_c /\ st1 = paused st_c
  | Raised e =>
      st1 = logged ERROR
              (error_message ("Action execution failed at step "
                              +:+ str (field action "step" (VInt 0))) (Some e)) st_d
  end.

(** [Visited plan st outs st']: from [st] every entry of [plan] has been
    taken up, in order, each in the state left by the one before; [outs]
    are the outcomes of the dispatches and [st'] is the state after the
    last entry. *)
Inductive Visited {W} `{Handler W}
    : list value -> env W BrowserManager -> list (outcome bool) -> env W BrowserManager -> Prop :=
| visited_nil st : Visited [] st [] st
| visited_cons action plan st o st_d st1 outs st' :
    begin_step (fields_of action) st = (o, st_d) ->
    step_end action o st_d st1 ->
    Visited plan st1 outs st' ->
    Visited (action :: plan) st (o :: outs) st'.

(** A plan in the wire format, as the JSON it is. *)
Definition some_field {A} (key : string) (make : A -> value) (o : option A)
    : list (string * value) :=
  match o with
  | Some x => [(key, make x)]
  | None => []
  end.

Definition fallback_of (fa : FallbackAction) : value :=
  VDict (some_field "action" VStr (fa_action fa) ++ [("target", VStr (fa_target fa))]).

Definition entry_of (a : Action) : value :=
  VDict (some_field "step" VInt (a_step a)
         ++ some_field "action" VStr (a_action a)
         ++ some_field "target" VStr (a_target a)
         ++ some_field "value" VStr (a_value a)
         ++ some_field "description" VStr (a_description a)
         ++ some_field "fallback_actions" (fun fas => VList (map fallback_of fas))
                       (a_fallback_actions a)).

Definition record_of (ar : ActionResult) : StepRecord :=
  mkStepRecord (VInt (ar_step ar)) (VStr (ar_action ar)) (VStr (ar_target ar))
               (VStr (ar_description ar)) (ar_success ar).

Definition report_of (r : PlanResult) : PlanReport :=
  mkPlanReport (pr_success r) (map record_of (pr_actions r)) (pr_errors r) (pr_screenshots r).

End Plans.

(** ** [src/automation/browser_manager.py]: [start] and [stop] *)

Module Session.
Import Logger.

(** The objects that Playwright hands out. *)
Definition handle := nat.

(** The calls of [start] and [stop], each on the object it is made on. *)
Inductive op :=
| PlaywrightStart
| ChromiumLaunch (playwright : handle) (headless : bool)
| NewContext (browser : handle)
| NewPage (context : handle)
| SetDefaultTimeout (page : handle) (ms : Z)
| SetDefaultNavigationTimeout (page : handle) (ms : Z)
| PageClose (page : handle)
| ContextClose (context : handle)
| BrowserClose (browser : handle)
| PlaywrightStop (playwright : handle).

Definition answer (o : op) : Type :=
  match o with
  | PlaywrightStart | ChromiumLaunch _ _ | NewContext _ | NewPage _ => handle
  | _ => unit
  end.

(** Playwright, from outside: every call returns or raises. *)
Class Driver (W : Type) := drive : forall o : op, W -> outcome (answer o) * W.

(** The fields of a [BrowserManager] that [start] sets; [None] until
    then. *)
Record BrowserManager := mkManager {
  config : Config.Config;
  playwright : option handle;
  browser : option handle;
  context : option handle;
  page : option handle
}.

(** [BrowserManager.__init__], the fields kept here. *)
Definition init (cfg : Config.Config) : BrowserManager :=
  mkManager cfg None None None None.

Record state (W : Type) := mkState {
  world : W;
  ops : list (op * option string);
  sink : list log_line;
  self : BrowserManager
}.
Arguments mkState {W}.
Arguments world {W}.
Arguments ops {W}.
Arguments sink {W}.
Arguments self {W}.

Section Methods.
Context {W : Type} `{Driver W}.

Definition call (o : op) : M (state W) (answer o) := fun st =>
  let (r, w) := drive o (world st) in
  (r, mkState w (ops st ++ [(o, World.error_of r)]) (sink st) (self st)).

Definition emit (lv : level) (msg : string) : M (state W) unit :=
  modify (fun st => mkState (world st) (ops st) (sink st ++ [(lv, msg)]) (self st)).

Definition get_self : M (state W) BrowserManager := fun st => (Returned (self st), st).

Definition set_self (f : BrowserManager -> BrowserManager) : M (state W) unit :=
  modify (fun st => mkState (world st) (ops st) (sink st) (f (self st))).

(** [start] *)
Definition start : M (state W) unit :=
  try_except
    (emit INFO (step_message "Starting browser session" None);;;
     let* pw := call PlaywrightStart in
     set_self (fun me => mkManager (config me) (Some pw) (browser me) (context me) (page me));;;
     let* me := get_self in
     let* br := call (ChromiumLaunch pw (Config.headless (config me))) in
     set_self (fun me => mkManager (config me) (playwright me) (Some br) (context me) (page me));;;
     let* cx := call (NewContext br) in
     set_self (fun me => mkManager (config me) (playwright me) (browser me) (Some cx) (page me));;;
     let* pg := call (NewPage cx) in
     set_self (fun me => mkManager (config me) (playwright me) (browser me) (context me) (Some pg));;;
     let* me := get_self in
     call (SetDefaultTimeout pg (Config.timeout (config me) * 1000));;;
     call (SetDefaultNavigationTimeout pg (Config.timeout (config me) * 1000));;;
     emit INFO (success_message "Browser session started successfully"))
    (fun e =>
       emit ERROR (error_message "Failed to start browser session" (Some e));;;
       raise e).

(** [if self.x: await self.x.close()] *)
Definition close_if (field : option handle) (close : handle -> op) : M (state W) unit :=
  match field with
  | Some h => call (close h) ;;; ret tt
  | None => ret tt
  end.

(** [stop] *)
Definition stop : M (state W) unit :=
  try_except
    (let* me := get_self in
     close_if (page me) PageClose;;;
     let* me := get_self in
     close_if (context me) ContextClose;;;
     let* me := get_self in
     close_if (browser me) BrowserClose;;;
     let* me := get_self in
     close_if (playwright me) PlaywrightStop;;;
     emit INFO (success_message "Browser session stopped"))
    (fun e => emit ERROR ("Error stopping browser: " +:+ e)).

End Methods.

(** [Played script evs ok]: the events are the calls of [script], in
    order and each without an exception, up to the first that raised. *)
Inductive Played : list op -> list (op * option string) -> bool -> Prop :=
| played_end : Played [] [] true
| played_call o script evs ok :
    Played script evs ok -> Played (o :: script) ((o, None) :: evs) ok
| played_raise o script e : Played (o :: script) [(o, Some e)] false.

(** What [stop] has to close, for the fields as they are. *)
Definition closing (me : BrowserManager) : list op :=
  match page me with Some h => [PageClose h] | None => [] end
  ++ match context me with Some h => [ContextClose h] | None => [] end
  ++ match browser me with Some h => [BrowserClose h] | None => [] end
  ++ match playwright me with Some h => [PlaywrightStop h] | None => [] end.

(** The objects that the calls of [evs] have made: one for each of the
    four making calls that returned. *)
Definition made (evs : list (op * option string)) : nat :=
  length (List.filter (fun ev => match ev with
                                 | (PlaywrightStart, None) | (ChromiumLaunch _ _, None)
                                 | (NewContext _, None) | (NewPage _, None) => true
                                 | _ => false
                                 end) evs).

(** The fields after [start] has made the objects [hs], in the order in
    which it makes them: Playwright, the browser, the context, the page. *)
Definition adopt (hs : list handle) (me : BrowserManager) : BrowserManager :=
  match hs with
  | [] => me
  | [pw] => mkManager (config me) (Some pw) (browser me) (context me) (page me)
  | [pw; br] => mkManager (config me) (Some pw) (Some br) (context me) (page me)
  | [pw; br; cx] => mkManager (config me) (Some pw) (Some br) (Some cx) (page me)
  | pw :: br :: cx :: pg :: _ => mkManager (config me) (Some pw) (Some br) (Some cx) (Some pg)
  end.

(** The closing calls for the objects [hs], the last made first. *)
Definition closes_for (hs : list handle) : list op :=
  rev (zip_with (fun close h => close h)
                [PlaywrightStop; BrowserClose; ContextClose; PageClose] hs).

(** The calls of a [start] that goes through, with the objects made. *)
Definition starting (cfg : Config.Config) (pw br cx pg : handle) : list op :=
  [ PlaywrightStart;
    ChromiumLaunch pw (Config.headless cfg);
    NewContext br;
    NewPage cx;
    SetDefaultTimeout pg (Config.timeout cfg * 1000);
    SetDefaultNavigationTimeout pg (Config.timeout cfg * 1000) ].

End Session.

(** ** [src/providers/base_provider.py] *)

Module Provider.
Import Logger World.

(** The classes that derive from [ProviderAdapter]. *)
Inductive ProviderKind := GmailAdapter | OutlookAdapter.

Record ProviderAdapter := mkAdapter {
  kind : ProviderKind;
  config : Config.Config
}.

(** [self.__class__.__name__] *)
Definition class_name (self : ProviderAdapter) : string :=
  match kind self with
  | GmailAdapter => "GmailAdapter"
  | OutlookAdapter => "OutlookAdapter"
  end.

(** [get_provider_name] *)
Definition get_provider_name (self : ProviderAdapter) : string :=
  text (replace (chars "adapter") (chars "") (lower (chars (class_name self)))).

(** The credentials that [get_provider_credentials] has for the adapter. *)
Definition credentials_of (self : ProviderAdapter) : Config.Credentials :=
  match kind self with
  | GmailAdapter =>
      Config.mkCredentials (Config.gmail_email (config self)) (Config.gmail_password (config self))
  | OutlookAdapter =>
      Config.mkCredentials (Config.outlook_email (config self))
                           (Config.outlook_password (config self))
  end.

Definition login_failed (provider_name : string) : list (string * value) :=
  [ ("success", VBool false); ("error", VStr "Login failed"); ("provider", VStr provider_name) ].

Section Methods.
Context {W : Type} `{Handler W} {S : Type}.

(** [execute_task]; [login] and [send_email] are the abstract methods, the
    world runs them. *)
Definition execute_task (self : ProviderAdapter) (task_info : value)
    : M (env W S) (list (string * value)) :=
  try_except
    (emit INFO ("Starting task execution for " +:+ class_name self);;;
     let provider_name := get_provider_name self in
     let* credentials := lift (Config.get_provider_credentials (config self) provider_name) in
     let* login_success := ext (Login provider_name credentials) in
     if negb login_success
     then ret (login_failed provider_name)
     else
       let* result := ext (SendEmail provider_name task_info) in
       let result := dict_set "provider" (VStr provider_name) result in
       ret result)
    (fun e =>
       emit ERROR ("Task execution failed: " +:+ e);;;
       ret [ ("success", VBool false); ("error", VStr e);
             ("provider", VStr (get_provider_name self)) ]).

End Methods.

(** The items of [", ".join(items)], from index [i] on: [join] raises
    [TypeError] on the first item that is no [str]. *)
Fixpoint str_items (i : nat) (items : list value) : outcome (list string) :=
  match items with
  | [] => Returned []
  | VStr s :: rest =>
      match str_items (S i) rest with
      | Returned ss => Returned (s :: ss)
      | Raised e => Raised e
      end
  | v :: _ =>
      Raised ("sequence item " +:+ pretty (Z.of_nat i) +:+ ": expected str instance, "
              +:+ type_name v +:+ " found")
  end.

(** [_format_recipients]; a dict is iterated by its keys. *)
Definition _format_recipients (recipients : value) : outcome string :=
  match recipients with
  | VStr s => Returned s
  | VList items =>
      match str_items 0 items with
      | Returned ss => Returned (text (join (chars ", ") (map chars ss)))
      | Raised e => Raised e
      end
  | VDict d => Returned (text (join (chars ", ") (map (fun kv => chars (fst kv)) d)))
  | _ => Raised "can only join an iterable"
  end.

Section Helpers.
Context {W : Type} `{Handler W} {S : Type}.

(** The loop of [_validate_task_info] over [required_fields]. *)
Fixpoint required_loop (task_info : value) (fields : list string) : M (env W S) (option bool) :=
  match fields with
  | [] => ret None
  | field :: rest =>
      let* v := lift (method_get task_info field VNone) in
      if negb (truthy v)
      then emit ERROR ("Missing required field: " +:+ field);;;
           ret (Some false)
      else required_loop task_info rest
  end.

(** [_validate_task_info] of the base class. *)
Definition _validate_task_info (task_info : value) : M (env W S) bool :=
  let required_fields := ["recipients"; "content"] in
  let* r := required_loop task_info required_fields in
  match r with
  | Some b => ret b
  | None =>
      let* v := lift (method_get task_info "recipients" VNone) in
      if negb (truthy v)
      then emit ERROR "No recipients specified";;;
           ret false
      else ret true
  end.

(** The loop of [_retry_action] over [range(max_retries)], from [attempt]
    on; [left] is the number of attempts still to make.  The pause is
    [2 ** attempt] seconds. *)
Fixpoint retry_loop (action_func : M (env W S) value) (max_retries : Z)
    (attempt : Z) (left : nat) : M (env W S) bool :=
  match left with
  | O => ret false
  | Datatypes.S left' =>
      let* done :=
        try_except
          (let* result := action_func in
           ret (truthy result))
          (fun e =>
             emit WARNING ("Action attempt " +:+ pretty (attempt + 1) +:+ " failed: " +:+ e);;;
             ret false) in
      if done then ret true
      else
        (if attempt <? max_retries - 1
         then sleep (2 ^ attempt * 1000)
         else ret tt);;;
        retry_loop action_func max_retries (attempt + 1) left'
  end.

(** [_retry_action]; [max_retries or self.config.retry_attempts] takes
    the configured number when [max_retries] is [None] or [0]. *)
Definition _retry_action (self : ProviderAdapter) (action_func : M (env W S) value)
    (max_retries : option Z) : M (env W S) bool :=
  let max_retries :=
    match max_retries with
    | Some n => if n =? 0 then Config.retry_attempts (config self) else n
    | None => Config.retry_attempts (config self)
    end in
  retry_loop action_func max_retries 0 (Z.to_nat max_retries).

End Helpers.

(** An attempt that ends the retrying: the action returned a truthy
    value. *)
Definition hit (o : outcome value) : bool :=
  match o with
  | Returned v => truthy v
  | Raised _ => false
  end.

(** What [_retry_action] itself does between two attempts: it writes to
    the log and pauses, and leaves the rest as it is. *)
Definition between_attempts {W S} (st st' : env W S) : Prop :=
  world st' = world st /\ actions st' = actions st /\ self st' = self st /\
  exists pauses, trace st' = trace st ++ map Sleep pauses.

(** [Tried action outs st st']: from [st] the action was run once for
    every entry of [outs], with that outcome, each run in the state left
    by the one before and by what [_retry_action] did after it. *)
Inductive Tried {W S} (action_func : M (env W S) value)
    : list (outcome value) -> env W S -> env W S -> Prop :=
| tried_none st : Tried action_func [] st st
| tried_more st o st1 st2 outs st' :
    action_func st = (o, st1) ->
    between_attempts st1 st2 ->
    Tried action_func outs st2 st' ->
    Tried action_func (o :: outs) st st'.

(** The first [k] pauses of a retry, in milliseconds: 1, 2, 4, ...
    seconds. *)
Definition backoff (k : nat) : list Z :=
  map (fun j => 2 ^ Z.of_nat j * 1000) (seq 0 k).

(** [max_retries or self.config.retry_attempts], as a number of
    attempts. *)
Definition attempts_of (self : ProviderAdapter) (max_retries : option Z) : nat :=
  Z.to_nat (match max_retries with
            | Some n => if n =? 0 then Config.retry_attempts (config self) else n
            | None => Config.retry_attempts (config self)
            end).

End Provider.

(** ** [src/core/agent.py] *)

Module Agent.
Import Logger World.

Record GenericUIAgent := mkAgent {
  config : Config.Config;
  browser_manager : bool;          (* [self.browser_manager] is not [None] *)
  providers : gmap string Provider.ProviderAdapter
}.

(** An entry of the action log as the dict it is. *)
Definition record_value (a : ActionRecord) : value :=
  VDict [ ("action", VStr (action a));
          ("success", VBool (success a));
          ("details", match details a with Some d => VStr d | None => VNone end);
          ("timestamp", VStr (timestamp a)) ].

Section Methods.
Context {W : Type} `{Handler W}.

(** The model and the JSON reader of the [LLMService]. *)
Variable model : string -> outcome string.
Variable json_loads : string -> outcome value.
Variable prompt_of : string -> string.

Abbreviation state := (env W GenericUIAgent).

Definition set_browser_manager (b : bool) : M state unit :=
  let* me := get_self in
  set_self (mkAgent (config me) b (providers me)).

(** [__init__]: the configuration is validated, and the exception of
    [validate] is raised again. *)
Definition init (config : Config.Config) : outcome GenericUIAgent :=
  match Config.validate config with
  | Returned _ => Returned (mkAgent config false ∅)
  | Raised e => Raised e
  end.

(** [_create_error_result] *)
Definition _create_error_result (error_message : string) : M state (list (string * value)) :=
  let* acts := get_actions in
  ret [ ("success", VBool false);
        ("error", VStr error_message);
        ("duration", VInt 0);
        ("actions", VList (map record_value acts));
        ("warnings", VList [VStr error_message]) ].

(** [_interpret_instruction] *)
Definition _interpret_instruction (instruction : string) : M state (option value) :=
  try_except
    (log_step "Interpreting instruction" None;;;
     let* task_info :=
       with_sink (LLM.interpret_instruction model json_loads prompt_of instruction) in
     let* task_type := lift (method_get task_info "task_type" VNone) in
     log_action "Instruction interpreted" true (Some ("Task type: " +:+ str task_type));;;
     ret (Some task_info))
    (fun e =>
       log_error "Instruction interpretation failed" (Some e);;;
       ret None).

(** The end of [_select_provider], from [if selected:] on. *)
Definition selected_or_none (selected : option string) : M state (option string) :=
  match selected with
  | Some sel =>
      if negb (String.eqb sel "")
      then log_action "Provider selected" true (Some ("Selected: " +:+ sel));;;
           ret (Some sel)
      else log_error "No suitable provider found" None;;;
           ret None
  | None =>
      log_error "No suitable provider found" None;;;
      ret None
  end.

(** [_select_provider] *)
Definition _select_provider (task_info : value) : M state (option string) :=
  try_except
    (log_step "Selecting provider" None;;;
     let* preference := lift (method_get task_info "provider_preference" (VStr "auto")) in
     let* me := get_self in
     if is_str preference "auto" then
       let available_providers := Config.get_available_providers (config me) in
       match available_providers with
       | [] =>
           log_error "No providers configured" None;;;
           ret None
       | first :: _ =>
           let selected :=
             if bool_decide ("gmail" ∈ available_providers) then "gmail" else first in
           selected_or_none (Some selected)
       end
     else if is_str preference "gmail" || is_str preference "outlook" then
       let preference := str preference in
       if Config.is_provider_configured (config me) preference
       then selected_or_none (Some preference)
       else
         log_warning ("Preferred provider '" +:+ preference +:+ "' not configured");;;
         let available_providers := Config.get_available_providers (config me) in
         selected_or_none (head available_providers)
     else
       log_error ("Unknown provider preference: " +:+ str preference) None;;;
       ret None)
    (fun e =>
       log_error "Provider selection failed" (Some e);;;
       ret None).

(** [_initialize_browser] *)
Definition _initialize_browser : M state unit :=
  try_except
    (log_step "Initializing browser" None;;;
     ext BrowserNew;;;
     set_browser_manager true;;;
     ext BrowserStart;;;
     log_action "Browser initialized" true None)
    (fun e =>
       log_error "Browser initialization failed" (Some e);;;
       raise e).

(** [_get_provider_adapter] *)
Definition _get_provider_adapter (provider_name : string)
    : M state (option Provider.ProviderAdapter) :=
  let* me := get_self in
  match providers me !! provider_name with
  | Some adapter => ret (Some adapter)
  | None =>
      try_except
        (if String.eqb provider_name "gmail" then
           let adapter := Provider.mkAdapter Provider.GmailAdapter (config me) in
           set_self (mkAgent (config me) (browser_manager me)
                             (<[provider_name := adapter]> (providers me)));;;
           ret (Some adapter)
         else if String.eqb provider_name "outlook" then
           let adapter := Provider.mkAdapter Provider.OutlookAdapter (config me) in
           set_self (mkAgent (config me) (browser_manager me)
                             (<[provider_name := adapter]> (providers me)));;;
           ret (Some adapter)
         else
           log_error ("Unknown provider: " +:+ provider_name) None;;;
           ret None)
        (fun e =>
           log_error ("Failed to create " +:+ provider_name +:+ " adapter") (Some e);;;
           ret None)
  end.

(** [_execute_task] *)
Definition _execute_task (provider_name : string) (task_info : value)
    : M state (list (string * value)) :=
  try_except
    (log_step ("Executing task with " +:+ provider_name) None;;;
     let* provider := _get_provider_adapter provider_name in
     match provider with
     | None =>
         _create_error_result ("Failed to create provider adapter for " +:+ provider_name)
     | Some provider =>
         let* result := Provider.execute_task provider task_info in
         (if truthy (default VNone (dict_get "success" result))
          then log_success ("Task completed successfully with " +:+ provider_name)
          else log_error ("Task failed with " +:+ provider_name +:+ ": "
                          +:+ str (default VNone (dict_get "error" result))) None);;;
         ret result
     end)
    (fun e =>
       log_error "Task execution failed" (Some e);;;
       _create_error_result e).

(** [_cleanup_browser] *)
Definition _cleanup_browser : M state unit :=
  try_except
    (let* me := get_self in
     if browser_manager me
     then ext BrowserStop;;;
          set_browser_manager false;;;
          log_action "Browser cleanup completed" true None
     else ret tt)
    (fun e => emit ERROR ("Browser cleanup failed: " +:+ e)).

(** The [try] block of [execute]. *)
Definition execute_try (instruction : string) (start_time : Z)
    : M state (list (string * value)) :=
  log_step "Starting instruction execution" (Some instruction);;;
  let* task_info := _interpret_instruction instruction in
  match task_info with
  | None => _create_error_result "Failed to interpret instruction"
  | Some task_info =>
      if negb (truthy task_info)
      then _create_error_result "Failed to interpret instruction"
      else
        let* provider := _select_provider task_info in
        match provider with
        | None => _create_error_result "No suitable provider available"
        | Some provider =>
            _initialize_browser;;;
            let* result := _execute_task provider task_info in
            let* t := time in
            let duration := t - start_time in
            let result := dict_set "duration" (VInt duration) result in
            let* task_type := lift (method_get task_info "task_type" (VStr "unknown")) in
            let result := dict_set "task_type" task_type result in
            let* acts := get_actions in
            let result := dict_set "actions" (VList (map record_value acts)) result in
            log_success ("Task completed in " +:+ format_2f duration +:+ " seconds");;;
            ret result
        end
  end.

(** The [except Exception as e] block of [execute]. *)
Definition execute_except (start_time : Z) (e : string) : M state (list (string * value)) :=
  let* t := time in
  let duration := t - start_time in
  log_error "Task execution failed" (Some e);;;
  let* acts := get_actions in
  ret [ ("success", VBool false);
        ("error", VStr e);
        ("duration", VInt duration);
        ("actions", VList (map record_value acts));
        ("warnings", VList [VStr "Task execution failed with exception"]) ].

(** [execute]: the [finally] block is [_cleanup_browser]. *)
Definition execute (instruction : string) : M state (list (string * value)) :=
  let* start_time := time in
  try_finally
    (try_except (execute_try instruction start_time) (execute_except start_time))
    _cleanup_browser.

End Methods.

(** Reading a run of the agent off the events. *)
Definition is_stop (ev : event) : bool :=
  match ev with Call BrowserStop _ => true | _ => false end.

Definition is_start (ev : event) : bool :=
  match ev with Call BrowserStart _ => true | _ => false end.

(** The number of times [BrowserManager.stop] was called. *)
Definition stops (tr : list event) : nat := length (List.filter is_stop tr).

(** The number of times [BrowserManager.start] was called. *)
Definition starts (tr : list event) : nat := length (List.filter is_start tr).

(** A browser manager was constructed: [BrowserManager(self.config)]
    returned. *)
Definition constructed (tr : list event) : bool :=
  existsb (fun ev => match ev with Call BrowserNew None => true | _ => false end) tr.

(** The warnings of the agent among the lines of the log. *)
Definition warnings (lines : list log_line) : list string :=
  omap (fun l => match l with (WARNING, msg) => Some msg | _ => None end) lines.

(** How a piece of the agent may move the state: it calls [stop] not at
    all, it calls [start] only on a browser manager it has constructed,
    and it leaves [self.browser_manager] as it was, or set if it has
    constructed a browser manager. *)
Definition tidy_step {W} (st st' : env W GenericUIAgent) : Prop :=
  exists new,
    trace st' = trace st ++ new /\
    stops new = 0%nat /\
    (constructed new = false -> starts new = 0%nat) /\
    browser_manager (self st')
      = (if constructed new then true else browser_manager (self st)).

Definition tidy {W A} (m : M (env W GenericUIAgent) A) : Prop :=
  forall st r st', m st = (r, st') -> tidy_step st st'.

(** A computation that only adds to the action log. *)
Definition grows {W S A} (m : M (env W S) A) : Prop :=
  forall st r st', m st = (r, st') -> actions st `prefix_of` actions st'.

(** A result accounts for the run: it has a duration, and its actions are
    the action log as it is when the result is returned. *)
Definition accounts {W} (m : M (env W GenericUIAgent) (list (string * value))) : Prop :=
  forall st result st', m st = (Returned result, st') ->
    dict_has "duration" result = true /\
    dict_get "actions" result = Some (VList (map record_value (actions st'))).

End Agent.

(** ** Scenarios

    Concrete loggers, worlds and inputs on which the program is run. *)

Module Scenario.
Import Logger World.

(** A logger with one action logged, and the store it lives in. *)
Definition sample_run : outcome Logger.ActionLogger * Logger.store :=
  (let* lg := Logger.init in
   Logger.log_action lg "Browser initialized" true None "2024-01-01T00:00:00";;;
   ret lg) (Logger.mkStore ∅ []).

Definition sample_logger : Logger.ActionLogger := {| Logger.actions := 1%positive |}.

(** A world whose answers are fixed in advance: the page raises on the
    selectors and addresses listed in [broken], and the life cycle of the
    browser and the provider methods answer as the fields say.  The clock
    advances by one at every reading. *)
Record Sim := mkSim {
  broken : list string;
  new_answer : outcome unit;
  start_answer : outcome unit;
  stop_answer : outcome unit;
  login_answer : outcome bool;
  send_answer : outcome (list (string * value));
  ticks : Z
}.

Definition page_answer (w : Sim) (target : string) : outcome unit :=
  if existsb (String.eqb target) (broken w)
  then Raised "Timeout 5000ms exceeded."
  else Returned tt.

Definition sim_respond (c : call) : Sim -> outcome (result c) * Sim :=
  match c as c0 return Sim -> outcome (result c0) * Sim with
  | PageGoto url => fun w => (page_answer w url, w)
  | PageWaitForSelector sel _ => fun w => (page_answer w sel, w)
  | PageClick sel => fun w => (page_answer w sel, w)
  | PageFill sel _ => fun w => (page_answer w sel, w)
  | PageContent => fun w => (Returned "<html></html>", w)
  | PageScreenshot _ => fun w => (Returned tt, w)
  | WriteFile _ _ => fun w => (Returned tt, w)
  | PageCall method _ => fun w => (Raised (method +:+ ": expected string"), w)
  | BrowserNew => fun w => (new_answer w, w)
  | BrowserStart => fun w => (start_answer w, w)
  | BrowserStop => fun w => (stop_answer w, w)
  | Login _ _ => fun w => (login_answer w, w)
  | SendEmail _ _ => fun w => (send_answer w, w)
  end.

Definition tick (w : Sim) : Sim :=
  mkSim (broken w) (new_answer w) (start_answer w) (stop_answer w)
        (login_answer w) (send_answer w) (ticks w + 1).

#[export] Instance sim_handler : Handler Sim := {
  respond := sim_respond;
  now := fun w => ("T" +:+ pretty (ticks w), tick w);
  time_time := fun w => (ticks w * 1000, tick w)
}.

(** A world in which everything works, but for the page targets in
    [bad]. *)
Definition page_world (bad : list string) : Sim :=
  mkSim bad (Returned tt) (Returned tt) (Returned tt) (Returned true)
        (Returned [("success", VBool true); ("message", VStr "Email sent successfully")]) 0.

Definition plain_config : Config.Config :=
  Config.mkConfig "key" true 30 3 (Some "me@gmail.com") (Some "secret")
                  None None false false 10.

(** A started browser manager in the world [w]. *)
Definition browser_in (w : Sim) : env Sim Browser.BrowserManager :=
  mkEnv w [] [] [] (Browser.mkBrowserManager plain_config "screenshots").

(** A world that keeps no memory but the clock: the page raises on the
    targets in [bad], always. *)
Definition stubborn (bad : list string) : Handler Z := {|
  respond := fun c w => (fst (sim_respond c (page_world bad)), w);
  now := fun w => ("T" +:+ pretty w, w + 1);
  time_time := fun w => (w * 1000, w + 1)
|}.

Definition stubborn_browser : env Z Browser.BrowserManager :=
  mkEnv 0 [] [] [] (Browser.mkBrowserManager plain_config "screenshots").

(** A model call that raises, and one that answers with a content and no
    subject. *)
Definition model_down (prompt : string) : outcome string := Raised "Connection error.".
Definition model_up (prompt : string) : outcome string := Returned "{...}".
Definition no_json (response : string) : outcome value :=
  Raised "Expecting value: line 1 column 1 (char 0)".
Definition content_only (content : string) (response : string) : outcome value :=
  Returned (VDict [("content", VStr content)]).
Definition bare_prompt (instruction : string) : string := instruction.

Definition sample_instruction : string :=
  "send email to alice@example.com and bob@example.org saying hello".

(** A plan of five steps; the third clicks on [#missing]. *)
Definition plan_step (n : Z) (kind target : string) : Browser.Action :=
  Browser.mkStep (Some n) (Some kind) (Some target) None
                 (Some (kind +:+ " " +:+ target)) None.

Definition five_steps : list Browser.Action :=
  [ plan_step 1 "navigate" "https://gmail.com";
    plan_step 2 "click" "#compose";
    plan_step 3 "click" "#missing";
    plan_step 4 "type" "#to";
    plan_step 5 "click" "#send" ].

(** The same plan as JSON, and the plan in which the third step comes
    with [null] for its fallbacks. *)
Definition json_steps : list value := map Plans.entry_of five_steps.

Definition null_fallbacks : list value :=
  [ Plans.entry_of (plan_step 1 "navigate" "https://gmail.com");
    Plans.entry_of (plan_step 2 "click" "#compose");
    VDict [("step", VInt 3); ("action", VStr "click"); ("target", VStr "#compose");
           ("description", VStr "click again"); ("fallback_actions", VNone)];
    Plans.entry_of (plan_step 4 "type" "#to");
    Plans.entry_of (plan_step 5 "click" "#send") ].


(** An adapter state: a world in which [login] returns false. *)
Definition login_refused : env Sim unit :=
  mkEnv (mkSim [] (Returned tt) (Returned tt) (Returned tt) (Returned false)
               (Returned [("success", VBool true)]) 0) [] [] [] tt.

Definition gmail_adapter : Provider.ProviderAdapter :=
  Provider.mkAdapter Provider.GmailAdapter plain_config.


Definition no_provider_config : Config.Config :=
  Config.mkConfig "key" true 30 3 None None None None false false 10.

Definition agent_in (cfg : Config.Config) (w : Sim) : env Sim Agent.GenericUIAgent :=
  mkEnv w [] [] [] (Agent.mkAgent cfg false ∅).

(** The selectors and the credentials of a login form. *)
Definition form_selectors : list (string * string) :=
  [("email_field", "#email"); ("password_field", "#password"); ("submit_button", "#submit")].

Definition form_credentials : list (string * string) :=
  [("email", "me@example.com"); ("password", "secret")].

(** A Playwright that numbers the objects it makes, and raises on the
    calls in [bad]. *)
Definition session_respond (bad : Session.op -> bool) (o : Session.op) (w : nat)
    : outcome (Session.answer o) * nat :=
  if bad o then (Raised "Target closed", w)
  else match o as o0 return outcome (Session.answer o0) * nat with
       | Session.PlaywrightStart => (Returned w, S w)
       | Session.ChromiumLaunch _ _ => (Returned w, S w)
       | Session.NewContext _ => (Returned w, S w)
       | Session.NewPage _ => (Returned w, S w)
       | Session.SetDefaultTimeout _ _ => (Returned tt, w)
       | Session.SetDefaultNavigationTimeout _ _ => (Returned tt, w)
       | Session.PageClose _ => (Returned tt, w)
       | Session.ContextClose _ => (Returned tt, w)
       | Session.BrowserClose _ => (Returned tt, w)
       | Session.PlaywrightStop _ => (Returned tt, w)
       end.

Definition flaky (bad : Session.op -> bool) : Session.Driver nat := session_respond bad.

(** A Playwright in which no context can be made. *)
Definition no_context (o : Session.op) : bool :=
  match o with Session.NewContext _ => true | _ => false end.

Definition new_session : Session.state nat :=
  Session.mkState 0%nat [] [] (Session.init plain_config).

End Scenario.

(** * Properties *)

(** ** The action logger *)

Module LoggerFacts.
Import Logger.

Lemma fresh_loc_unused (st : store) : objs st !! fresh (dom (objs st)) = None.
Proof. apply not_elem_of_dom, is_fresh. Qed.

Lemma alloc_spec (o : obj) (st : store) :
  alloc o st = (Returned (fresh (dom (objs st))),
                mkStore (<[fresh (dom (objs st)) := o]> (objs st)) (sink st)).
Proof. reflexivity. Qed.

Lemma items_at_update_same l f st xs :
  objs st !! l = Some (OList xs) ->
  items_at l (snd (update_list l f st)) = f xs.
Proof.
  intros Hl. unfold items_at, update_list, modify. simpl.
  rewrite lookup_alter_eq, Hl. reflexivity.
Qed.

Lemma objs_update_other l l' f st :
  l <> l' -> objs (snd (update_list l f st)) !! l' = objs st !! l'.
Proof.
  intros Hne. unfold update_list, modify. simpl.
  by rewrite lookup_alter_ne.
Qed.

Lemma items_at_ext l st st' :
  objs st' !! l = objs st !! l -> items_at l st' = items_at l st.
Proof. unfold items_at. by intros ->. Qed.

(** Mutating one list object leaves every other object as it was. *)
Lemma mutate_all_other c ms : forall st l,
  c <> l ->
  exists st', mutate_all c ms st = (Returned tt, st') /\ objs st' !! l = objs st !! l.
Proof.
  induction ms as [|m ms IH]; intros st l Hne; simpl.
  - eexists. split; [reflexivity|done].
  - unfold bind. unfold mutate at 1.
    destruct (update_list c (apply_mut m) st) as [r st1] eqn:E.
    unfold update_list, modify in E. injection E as <- <-.
    destruct (IH (mkStore (alter (fun o => match o with
                                           | OList xs => OList (apply_mut m xs)
                                           | _ => o end) c (objs st)) (sink st)) l Hne)
      as (st' & Hrun & Hobj).
    exists st'. split; [exact Hrun|].
    rewrite Hobj. simpl. by rewrite lookup_alter_ne.
Qed.

(** [get_actions] allocates: the list it returns is a new object with the
    items of the logger's list. *)
Lemma get_actions_allocates (self : ActionLogger) (st : store) (xs : list loc) :
  objs st !! actions self = Some (OList xs) ->
  exists c st1,
    get_actions self st = (Returned c, st1) /\
    c <> actions self /\
    match objs st1 !! c with Some (OList ys) => ys | _ => [] end = xs /\
    (objs st1 !! actions self = Some (OList xs) /\
     objs st1 !! c = Some (OList xs) /\
     forall l, l <> c -> objs st1 !! l = objs st !! l).
Proof.
  intros Hself.
  set (c := fresh (dom (objs st))).
  assert (Hc : objs st !! c = None) by apply fresh_loc_unused.
  assert (Hne : c <> actions self) by (intros E; rewrite E in Hc; congruence).
  exists c, (mkStore (<[c := OList xs]> (objs st)) (sink st)).
  split.
  { unfold get_actions, bind, get. rewrite alloc_spec.
    unfold items_at. rewrite Hself. reflexivity. }
  split; [exact Hne|]. cbn [objs]. rewrite lookup_insert_eq.
  split; [reflexivity|]. split; [by rewrite lookup_insert_ne|].
  split; [reflexivity|]. intros l Hl. by rewrite lookup_insert_ne.
Qed.

(** C9. [get_actions] hands out a new list object holding the items of the
    logger's list.  Whatever list operations are then applied to the
    returned list, the logger's own list, and every other object, stays
    as it was; and an action logged afterwards is appended to the
    logger's list only, the returned list keeps the items it had. *)
Theorem get_actions_returns_a_copy (self : ActionLogger) (st : store) (xs : list loc) :
  objs st !! actions self = Some (OList xs) ->
  exists c st1,
    get_actions self st = (Returned c, st1) /\
    c <> actions self /\
    items_at c st1 = xs /\
    items_at (actions self) st1 = xs /\
    (forall ms, exists st2,
        mutate_all c ms st1 = (Returned tt, st2) /\
        objs st2 !! actions self = Some (OList xs) /\
        forall l, l <> c -> objs st2 !! l = objs st1 !! l) /\
    (forall act ok det now, exists st2 d,
        log_action self act ok det now st1 = (Returned tt, st2) /\
        items_at (actions self) st2 = xs ++ [d] /\
        objs st2 !! d = Some (ODict (mkAction act ok det now)) /\
        items_at c st2 = xs).
Proof.
  intros Hself.
  set (c := fresh (dom (objs st))).
  assert (Hc : objs st !! c = None) by apply fresh_loc_unused.
  assert (Hne : c <> actions self) by (intros E; rewrite E in Hc; congruence).
  set (st1 := mkStore (<[c := OList xs]> (objs st)) (sink st)).
  assert (Hget : get_actions self st = (Returned c, st1)).
  { unfold get_actions, bind, get. rewrite alloc_spec.
    unfold items_at. rewrite Hself. reflexivity. }
  assert (Hself1 : objs st1 !! actions self = Some (OList xs)).
  { simpl. by rewrite lookup_insert_ne. }
  assert (Hc1 : objs st1 !! c = Some (OList xs)).
  { simpl. by rewrite lookup_insert_eq. }
  exists c, st1. repeat split; try done.
  - unfold items_at. by rewrite Hc1.
  - unfold items_at. by rewrite Hself1.
  - intros ms.
    destruct (mutate_all_other c ms st1 (actions self) Hne) as (st2 & Hrun & Hobj).
    exists st2. repeat split; [exact Hrun | by rewrite Hobj |].
    intros l Hl.
    destruct (mutate_all_other c ms st1 l (not_eq_sym Hl)) as (st2' & Hrun' & Hobj').
    rewrite Hrun in Hrun'. by injection Hrun' as <-.
  - intros act ok det now.
    set (d := fresh (dom (objs st1))).
    assert (Hd : objs st1 !! d = None) by apply fresh_loc_unused.
    assert (Hda : d <> actions self) by (intros E; rewrite E in Hd; congruence).
    assert (Hdc : d <> c) by (intros E; rewrite E in Hd; congruence).
    eexists _, d. split; [reflexivity|].
    simpl. unfold items_at. simpl.
    change (<[c:=OList xs]> (objs st)) with (objs st1). fold d.
    repeat split.
    + rewrite lookup_alter_eq, lookup_insert_ne, Hself1 by done. reflexivity.
    + rewrite lookup_alter_ne, lookup_insert_eq by done. reflexivity.
    + rewrite lookup_alter_ne, lookup_insert_ne, Hc1 by done. reflexivity.
Qed.

Lemma get_actions_returns_a_copy_witness :
  objs (snd Scenario.sample_run) !! actions Scenario.sample_logger = Some (OList [2%positive]) /\
  exists c st1,
    get_actions Scenario.sample_logger (snd Scenario.sample_run) = (Returned c, st1) /\
    c <> actions Scenario.sample_logger /\
    items_at c st1 = [2%positive].
Proof.
  assert (Hobj : objs (snd Scenario.sample_run) !! actions Scenario.sample_logger
                 = Some (OList [2%positive])) by (vm_compute; reflexivity).
  split; [exact Hobj|].
  destruct (get_actions_returns_a_copy Scenario.sample_logger (snd Scenario.sample_run)
              [2%positive] Hobj)
    as (c & st1 & Hget & Hne & Hc & _).
  exists c, st1. auto.
Defined.

End LoggerFacts.

(** ** The regular expression *)

Module RegexFacts.
Import Regex.

Lemma after_nil prev : after prev [] = prev.
Proof. reflexivity. Qed.

Lemma after_cons prev c m : after prev (c :: m) = after (Some c) m.
Proof.
  unfold after. destruct m as [|d m]; [reflexivity|].
  rewrite last_cons. destruct (last (d :: m)) eqn:E; [reflexivity|].
  by apply last_None in E.
Qed.

Lemma after_app prev m1 m2 : after prev (m1 ++ m2) = after (after prev m1) m2.
Proof.
  revert prev. induction m1 as [|c m1 IH]; intros prev; [reflexivity|].
  simpl. rewrite !after_cons. apply IH.
Qed.

(** A greedy repetition that succeeds has taken characters of its class,
    at least as many as asked, and the rest of the pattern matched what
    follows them. *)
Lemma match_many_sound cls least cont : forall s n prev rest,
  match_many cls least cont n prev s = Some rest ->
  exists taken s',
    s = taken ++ s' /\
    Forall (fun c => cls c = true) taken /\
    (least <= n + length taken)%nat /\
    cont (after prev taken) s' = Some rest.
Proof.
  assert (Hstop : forall s n prev rest,
    (if (least <=? n)%nat then cont prev s else None) = Some rest ->
    exists taken s', s = taken ++ s' /\ Forall (fun c => cls c = true) taken /\
      (least <= n + length taken)%nat /\ cont (after prev taken) s' = Some rest).
  { intros s n prev rest Hs. destruct (least <=? n)%nat eqn:E; [|discriminate].
    apply Nat.leb_le in E. exists [], s. simpl. repeat split; auto. lia. }
  induction s as [|c s IH]; intros n prev rest Hm; simpl in Hm.
  - by apply Hstop.
  - destruct (cls c) eqn:Hc; [|by apply Hstop].
    destruct (match_many cls least cont (S n) (Some c) s) as [r|] eqn:Hrec.
    + injection Hm as <-.
      destruct (IH _ _ _ Hrec) as (taken & s' & -> & Hall & Hlen & Hcont).
      exists (c :: taken), s'. repeat split.
      * by constructor.
      * simpl. lia.
      * by rewrite after_cons.
    + by apply Hstop.
Qed.

(** A match consumes a prefix of the input. *)
Lemma match_here_prefix p : forall prev s rest,
  match_here p prev s = Some rest -> exists m, s = m ++ rest.
Proof.
  induction p as [|a p IH]; intros prev s rest Hm; simpl in Hm.
  - injection Hm as <-. by exists [].
  - destruct a as [|c|cls least].
    + destruct (at_boundary prev s); [|discriminate]. eauto.
    + destruct s as [|c' s]; [discriminate|].
      destruct (Ascii.eqb c c'); [|discriminate].
      destruct (IH _ _ _ Hm) as (m & ->). by exists (c' :: m).
    + destruct (match_many_sound _ _ _ _ _ _ _ Hm) as (taken & s' & -> & _ & _ & Hc).
      destruct (IH _ _ _ Hc) as (m & ->).
      exists (taken ++ m). by rewrite app_assoc.
Qed.

Lemma eqb_true_eq (a b : ascii) : Ascii.eqb a b = true -> a = b.
Proof. apply Ascii.eqb_eq. Qed.

(** What [EMAIL] matches is shaped like an address, and sits between two
    word boundaries. *)
Lemma match_email_shape prev s rest :
  match_here EMAIL prev s = Some rest ->
  exists m, s = m ++ rest /\ email_shaped m /\
            at_boundary prev s = true /\ at_boundary (after prev m) rest = true.
Proof.
  unfold EMAIL. intros Hm. cbn [match_here] in Hm.
  destruct (at_boundary prev s) eqn:Hb1; [|discriminate].
  destruct (match_many_sound _ _ _ _ _ _ _ Hm) as (loc & s1 & -> & Hloc & Hlen1 & H1).
  cbn [match_here] in H1.
  destruct s1 as [|c1 s1]; [discriminate|].
  destruct (Ascii.eqb "@" c1) eqn:Hat; [|discriminate].
  apply eqb_true_eq in Hat. subst c1.
  destruct (match_many_sound _ _ _ _ _ _ _ H1) as (dom & s2 & -> & Hdom & Hlen2 & H2).
  cbn [match_here] in H2.
  destruct s2 as [|c2 s2]; [discriminate|].
  destruct (Ascii.eqb "." c2) eqn:Hdot; [|discriminate].
  apply eqb_true_eq in Hdot. subst c2.
  destruct (match_many_sound _ _ _ _ _ _ _ H2) as (tld & s3 & -> & Htld & Hlen3 & H3).
  cbn [match_here] in H3.
  destruct (at_boundary (after (Some "."%char) tld) s3) eqn:Hb2; [|discriminate].
  injection H3 as <-.
  exists (loc ++ "@"%char :: dom ++ "."%char :: tld). repeat split.
  - by rewrite <- !app_assoc; simpl; rewrite <- !app_assoc.
  - exists loc, dom, tld. repeat split; auto.
    + intros ->. simpl in Hlen1. lia.
    + intros ->. simpl in Hlen2. lia.
  - rewrite after_app, after_cons, after_app, after_cons. exact Hb2.
Qed.

Lemma email_shaped_nonempty m : email_shaped m -> m <> [].
Proof. intros (loc & dom & tld & -> & Hl & _) E. by destruct loc. Qed.

(** Passing over the characters of a match. *)
Lemma findall_go_skip p : forall pre prev s,
  findall_go p prev (pre ++ s) (length pre) = findall_go p (after prev pre) s 0.
Proof.
  induction pre as [|c pre IH]; intros prev s; [reflexivity|].
  simpl. rewrite IH. by rewrite after_cons.
Qed.

(** [findall_go] is the left-to-right scan, for a pattern that only
    matches non-empty text. *)
Lemma findall_go_scan p :
  (forall prev s, match_here p prev s <> Some s) ->
  forall s prev, Scan p prev s (findall_go p prev s 0).
Proof.
  intros Hne s.
  induction s as [s IH] using (induction_ltof1 _ (@length ascii)); unfold ltof in IH.
  intros prev. destruct s as [|c s].
  - simpl. destruct (match_here p prev []) as [rest|] eqn:Hm.
    + destruct (match_here_prefix _ _ _ _ Hm) as (m & Hs).
      symmetry in Hs. apply app_eq_nil in Hs as [-> ->]. by destruct (Hne prev []).
    + by constructor.
  - cbn [findall_go].
    destruct (match_here p prev (c :: s)) as [rest|] eqn:Hm.
    + destruct (match_here_prefix _ _ _ _ Hm) as (m & Hs).
      destruct m as [|c' m].
      { simpl in Hs. subst rest. by destruct (Hne prev (c :: s)). }
      simpl in Hs. injection Hs as <- ->.
      replace (length (c :: m ++ rest) - length rest)%nat with (S (length m))
        by (simpl; rewrite length_app; lia).
      replace (take (S (length m)) (c :: m ++ rest)) with (c :: m)
        by (simpl; by rewrite take_app_length).
      simpl pred. rewrite findall_go_skip.
      rewrite <- after_cons with (prev := prev).
      apply (scan_hit p prev (c :: m) rest); [done | exact Hm |].
      apply IH. simpl. rewrite length_app. lia.
    + apply scan_skip; [exact Hm|]. apply IH. simpl. lia.
Qed.

Lemma email_match_nonempty prev s : match_here EMAIL prev s <> Some s.
Proof.
  intros Hm. destruct (match_email_shape _ _ _ Hm) as (m & Hs & Hsh & _).
  apply email_shaped_nonempty in Hsh.
  assert (length s = length (m ++ s)) as Hl by (by rewrite <- Hs).
  rewrite length_app in Hl. destruct m; [done|simpl in Hl; lia].
Qed.

Lemma scan_email_shaped prev s ms :
  Scan EMAIL prev s ms -> Forall email_shaped ms.
Proof.
  induction 1 as [| |prev m rest ms Hne Hm Hscan IH]; auto.
  constructor; [|exact IH].
  destruct (match_email_shape _ _ _ Hm) as (m' & Hs & Hsh & _).
  apply app_inv_tail in Hs. by subst m'.
Qed.

(** The matches of a scan lie in the text in the order of the list,
    one after the other. *)
Lemma scan_in_order p prev s ms :
  Scan p prev s ms ->
  exists gaps tail,
    length gaps = length ms /\
    s = concat (zip_with app gaps ms) ++ tail.
Proof.
  induction 1 as [prev Hm|prev c s ms Hm Hscan IH|prev m rest ms Hne Hm Hscan IH].
  - by exists [], [].
  - destruct IH as (gaps & tail & Hlen & ->).
    destruct gaps as [|g gaps], ms as [|m ms]; try discriminate.
    + exists [], (c :: tail). done.
    + exists ((c :: g) :: gaps), tail. done.
  - destruct IH as (gaps & tail & Hlen & ->).
    exists ([] :: gaps), tail. split; [simpl; lia|].
    simpl. by rewrite <- app_assoc.
Qed.

(** A greedy repetition succeeds as soon as some number of characters of
    the class, the least or more, can be followed by a match of the rest
    of the pattern. *)
Lemma match_many_complete cls least cont : forall taken n prev s' r,
  Forall (fun c => cls c = true) taken ->
  (least <= n + length taken)%nat ->
  cont (after prev taken) s' = Some r ->
  exists r', match_many cls least cont n prev (taken ++ s') = Some r'.
Proof.
  induction taken as [|c taken IH]; intros n prev s' r Hall Hlen Hcont.
  - simpl in Hlen. assert ((least <=? n)%nat = true) as Hle by (apply Nat.leb_le; lia).
    rewrite after_nil in Hcont. destruct s' as [|c s'']; simpl; rewrite Hle.
    + eauto.
    + destruct (cls c); [|eauto].
      destruct (match_many cls least cont (S n) (Some c) s''); eauto.
  - apply Forall_cons in Hall as [Hc Hall].
    rewrite after_cons in Hcont.
    destruct (IH (S n) (Some c) s' r Hall) as (r' & Hr'); [simpl in Hlen; lia|exact Hcont|].
    simpl. rewrite Hc, Hr'. eauto.
Qed.

(** Where a text shaped like an address stands between two word
    boundaries, the pattern matches. *)
Lemma match_email_complete prev m rest :
  email_shaped m ->
  at_boundary prev (m ++ rest) = true ->
  at_boundary (after prev m) rest = true ->
  exists r, match_here EMAIL prev (m ++ rest) = Some r.
Proof.
  intros (loc & dom & tld & -> & Hloc & Hlocs & Hdom & Hdoms & Htld & Htlds) Hb1 Hb2.
  rewrite after_app, after_cons, after_app, after_cons in Hb2.
  assert (Hy : exists r, match_here [Many tld_class 2; Boundary]
                           (Some "."%char) (tld ++ rest) = Some r).
  { cbn [match_here].
    apply (match_many_complete _ _ _ tld 0 (Some "."%char) rest rest);
      [exact Htlds | simpl; lia |].
    cbn [match_here]. by rewrite Hb2. }
  destruct Hy as (r3 & Hy).
  assert (Hx : exists r, match_here [Many domain_class 1; Lit "."%char;
                                     Many tld_class 2; Boundary]
                           (Some "@"%char) (dom ++ "."%char :: tld ++ rest) = Some r).
  { cbn [match_here].
    apply (match_many_complete _ _ _ dom 0 (Some "@"%char) ("."%char :: tld ++ rest) r3);
      [exact Hdoms | destruct dom; [done|simpl; lia] |].
    cbn [match_here]. rewrite Ascii.eqb_refl. exact Hy. }
  destruct Hx as (r2 & Hx).
  unfold EMAIL. cbn [match_here]. rewrite Hb1.
  rewrite <- !app_assoc. cbn [app]. rewrite <- !app_assoc. cbn [app].
  apply (match_many_complete _ _ _ loc 0 prev
           ("@"%char :: dom ++ "."%char :: tld ++ rest) r2);
    [exact Hlocs | destruct loc; [done|simpl; lia] |].
  cbn [match_here]. rewrite Ascii.eqb_refl. exact Hx.
Qed.

(** A scan misses nothing: a text shaped like an address that stands in
    [s] between two word boundaries begins within one of the matches
    reported. *)
Lemma scan_no_miss prev s ms :
  Scan EMAIL prev s ms ->
  forall pre m rest,
    s = pre ++ m ++ rest ->
    email_shaped m ->
    at_boundary (after prev pre) (m ++ rest) = true ->
    at_boundary (after prev (pre ++ m)) rest = true ->
    exists before hit behind,
      s = before ++ hit ++ behind /\ hit ∈ ms /\
      (length before <= length pre < length before + length hit)%nat.
Proof.
  induction 1 as [prev Hm|prev c s ms Hm Hscan IH|prev m0 rest0 ms Hne Hm Hscan IH];
    intros pre m rest Hs Hsh Hb1 Hb2.
  - symmetry in Hs. apply app_eq_nil in Hs as [_ Hs]. apply app_eq_nil in Hs as [-> _].
    by apply email_shaped_nonempty in Hsh.
  - destruct pre as [|c' pre].
    + exfalso. simpl in Hs. rewrite after_nil in Hb1. rewrite app_nil_l in Hb2.
      destruct (match_email_complete prev m rest Hsh Hb1 Hb2) as (r & Hr).
      rewrite <- Hs in Hr. congruence.
    + simpl in Hs. injection Hs as <- ->.
      rewrite after_cons in Hb1. change ((c :: pre) ++ m) with (c :: pre ++ m) in Hb2.
      rewrite after_cons in Hb2.
      destruct (IH pre m rest eq_refl Hsh Hb1 Hb2) as (before & hit & behind & Hs & Hin & Hlen).
      exists (c :: before), hit, behind. rewrite Hs. split; [reflexivity|].
      split; [exact Hin|]. simpl. lia.
  - destruct (decide (length pre < length m0)%nat) as [Hlt|Hge].
    + exists [], m0, rest0. split; [reflexivity|]. split; [left|]. simpl. lia.
    + assert (Hpre : exists pre', pre = m0 ++ pre' /\ rest0 = pre' ++ m ++ rest).
      { exists (drop (length m0) pre).
        assert (Htake : take (length m0) pre = m0).
        { apply (f_equal (take (length m0))) in Hs.
          rewrite take_app_length in Hs. rewrite take_app_le in Hs by lia. by symmetry. }
        assert (Hp : pre = m0 ++ drop (length m0) pre).
        { rewrite <- Htake at 1. by rewrite take_drop. }
        split; [exact Hp|].
        rewrite Hp in Hs at 1. rewrite <- app_assoc in Hs. by apply app_inv_head in Hs. }
      destruct Hpre as (pre' & -> & ->).
      rewrite after_app in Hb1. rewrite <- app_assoc, after_app in Hb2.
      destruct (IH pre' m rest eq_refl Hsh Hb1 Hb2) as (before & hit & behind & Hs' & Hin & Hlen).
      exists (m0 ++ before), hit, behind. rewrite Hs', <- app_assoc.
      split; [reflexivity|]. split; [by right|]. rewrite !length_app. lia.
Qed.

End RegexFacts.

(** ** The task interpreter *)

Module LLMFacts.
Import Logger Regex RegexFacts LLM.

Lemma text_chars s : text (chars s) = s.
Proof. apply string_of_list_ascii_of_string. Qed.

Lemma chars_text l : chars (text l) = l.
Proof. apply list_ascii_of_string_of_list_ascii. Qed.

Lemma text_nonempty l : l <> [] -> text l <> "".
Proof. destruct l; [done|]. discriminate. Qed.

Lemma dict_get_set_same k v d : dict_get k (dict_set k v d) = Some v.
Proof.
  induction d as [|[k' v'] d IH]; simpl.
  - by rewrite String.eqb_refl.
  - destruct (String.eqb k k') eqn:E; simpl; rewrite ?String.eqb_refl, ?E; auto.
Qed.

Lemma dict_get_set_other k k' v d :
  k <> k' -> dict_get k' (dict_set k v d) = dict_get k' d.
Proof.
  intros Hne. induction d as [|[k0 v0] d IH]; simpl.
  - apply String.eqb_neq in Hne. rewrite String.eqb_sym in Hne. by rewrite Hne.
  - destruct (String.eqb k k0) eqn:E; simpl.
    + apply String.eqb_eq in E. subst k0.
      assert (String.eqb k' k = false) as -> by (apply String.eqb_neq; congruence).
      reflexivity.
    + destruct (String.eqb k' k0); auto.
Qed.

(** After the loop over the defaults a key has the value it had, or else
    its default. *)
Lemma dict_get_fold_defaults k : forall ds d,
  dict_get k (fold_left (fun d kv => if dict_has (fst kv) d then d
                                     else dict_set (fst kv) (snd kv) d) ds d)
  = match dict_get k d with
    | Some v => Some v
    | None => dict_get k ds
    end.
Proof.
  induction ds as [|[k0 v0] ds IH]; intros d; simpl.
  - by destruct (dict_get k d).
  - rewrite IH. unfold dict_has.
    destruct (dict_get k0 d) as [x|] eqn:E0.
    + destruct (dict_get k d) eqn:E; [reflexivity|].
      destruct (String.eqb k k0) eqn:Ek; [|reflexivity].
      apply String.eqb_eq in Ek. congruence.
    + destruct (String.eqb k k0) eqn:Ek.
      * apply String.eqb_eq in Ek. subst k0.
        rewrite dict_get_set_same, E0. reflexivity.
      * apply String.eqb_neq in Ek.
        rewrite dict_get_set_other by congruence. reflexivity.
Qed.

Lemma dict_get_fill_defaults k d :
  dict_get k (fill_defaults d)
  = match dict_get k d with
    | Some v => Some v
    | None => dict_get k defaults
    end.
Proof. apply dict_get_fold_defaults. Qed.

(** [split] yields words: none of them is empty, and there is one as soon
    as a character is not white space. *)
Lemma split_go_words : forall s cur,
  Forall (fun w => w <> []) (split_go cur s) /\
  (cur <> [] \/ existsb (fun c => negb (is_space c)) s = true -> split_go cur s <> []).
Proof.
  induction s as [|c s IH]; intros cur; simpl.
  - destruct cur as [|a cur]; split; auto.
    + intros [H|H]; [done|discriminate].
    + constructor; [|constructor]. intros E.
      apply (f_equal (@length ascii)) in E. rewrite length_rev in E. discriminate.
  - destruct (is_space c) eqn:Hsp; simpl.
    + destruct cur as [|a cur].
      * destruct (IH []) as [H1 H2]. split; [exact H1|].
        intros [H|H]; [done|]. apply H2. by right.
      * destruct (IH []) as [H1 H2]. split; [|done].
        constructor; [|exact H1]. intros E.
        apply (f_equal (@length ascii)) in E. rewrite length_rev in E. discriminate.
    + destruct (IH (c :: cur)) as [H1 H2]. split; [exact H1|].
      intros _. apply H2. by left.
Qed.

Lemma join_nonempty sep w ws : w <> [] -> join sep (w :: ws) <> [].
Proof.
  intros Hw. destruct w as [|a w]; [done|].
  simpl. destruct ws; discriminate.
Qed.

(** A content with a word in it gets a subject that is not empty. *)
Lemma generate_subject_nonempty content :
  has_word content = true -> _generate_subject content <> "".
Proof.
  intros Hw. unfold _generate_subject, split.
  destruct (split_go_words (chars content) []) as [Hall Hne].
  specialize (Hne (or_intror Hw)).
  destruct (split_go [] (chars content)) as [|w ws] eqn:E; [done|].
  apply Forall_cons in Hall as [Hw1 _].
  change (take 5 (w :: ws)) with (w :: take 4 ws).
  pose proof (join_nonempty (chars " ") w (take 4 ws) Hw1) as Hj.
  destruct (50 <? length (join (chars " ") (w :: take 4 ws)))%nat eqn:Hlen.
  - apply text_nonempty. apply Nat.ltb_lt in Hlen.
    intros E'. apply app_eq_nil in E' as [_ E']. discriminate.
  - by apply text_nonempty.
Qed.

Lemma dict_get_clean_recipients k d :
  k <> "recipients" -> dict_get k (clean_recipients d) = dict_get k d.
Proof.
  intros Hk. unfold clean_recipients.
  destruct (dict_get "recipients" d) as [[]|]; auto.
  apply dict_get_set_other. congruence.
Qed.

(** After the defaults and the cleaning, a key other than the recipients
    has the value it came with, or its default. *)
Lemma dict_get_prepared k d :
  k <> "recipients" ->
  dict_get k (clean_recipients (fill_defaults d))
  = match dict_get k d with
    | Some v => Some v
    | None => dict_get k defaults
    end.
Proof.
  intros Hk. rewrite dict_get_clean_recipients by exact Hk.
  apply dict_get_fill_defaults.
Qed.

Lemma subject_not_recipients : "subject" <> "recipients".
Proof. discriminate. Qed.

Lemma content_not_recipients : "content" <> "recipients".
Proof. discriminate. Qed.

Lemma subject_not_content : "subject" <> "content".
Proof. discriminate. Qed.

Lemma subject_not_task_type : "subject" <> "task_type".
Proof. discriminate. Qed.

Lemma task_type_not_recipients : "task_type" <> "recipients".
Proof. discriminate. Qed.

Lemma prepared_subject d :
  dict_get "subject" (clean_recipients (fill_defaults d))
  = Some (default (VStr "") (dict_get "subject" d)).
Proof.
  rewrite (dict_get_prepared _ _ subject_not_recipients).
  destruct (dict_get "subject" d); reflexivity.
Qed.

Lemma prepared_content d :
  dict_get "content" (clean_recipients (fill_defaults d))
  = Some (default (VStr "") (dict_get "content" d)).
Proof.
  rewrite (dict_get_prepared _ _ content_not_recipients).
  destruct (dict_get "content" d); reflexivity.
Qed.

Lemma prepared_task_type d :
  exists t, dict_get "task_type" (clean_recipients (fill_defaults d)) = Some t.
Proof.
  rewrite (dict_get_prepared _ _ task_type_not_recipients).
  destruct (dict_get "task_type" d); eexists; reflexivity.
Qed.

(** [_validate_task_info] on a dict, with the two lookups done. *)
Lemma validate_dict d :
  _validate_task_info (VDict d)
  = let d2 := clean_recipients (fill_defaults d) in
    let subject := default (VStr "") (dict_get "subject" d) in
    let content := default (VStr "") (dict_get "content" d) in
    if negb (truthy subject) && truthy content
    then match content with
         | VStr c => Returned (VDict (dict_set "subject" (VStr (_generate_subject c)) d2))
         | _ => Raised ("'" +:+ type_name content +:+ "' object has no attribute 'split'")
         end
    else Returned (VDict d2).
Proof.
  unfold _validate_task_info. cbn zeta.
  rewrite prepared_subject, prepared_content. reflexivity.
Qed.

(** What [_validate_task_info] returns, when it returns: the content as
    given (or its default), the subject as given unless it is falsy and
    the content is not, and a task type. *)
Lemma validate_spec v r :
  _validate_task_info v = Returned r ->
  exists d,
    v = VDict d /\
    let subject0 := default (VStr "") (dict_get "subject" d) in
    let content0 := default (VStr "") (dict_get "content" d) in
    content_of r = Some content0 /\
    (if negb (truthy subject0) && truthy content0
     then exists c, content0 = VStr c /\ subject_of r = Some (VStr (_generate_subject c))
     else subject_of r = Some subject0) /\
    exists t, subscript r "task_type" = Returned t.
Proof.
  destruct v as [| | |s|l|d]; try discriminate.
  { unfold _validate_task_info. destruct (forallb _ _); discriminate. }
  rewrite validate_dict. cbn zeta.
  intros Hv. exists d. split; [reflexivity|].
  pose proof (prepared_subject d) as Hs.
  pose proof (prepared_content d) as Hc.
  destruct (prepared_task_type d) as (t & Ht).
  set (d2 := clean_recipients (fill_defaults d)) in *. clearbody d2.
  destruct (negb (truthy (default (VStr "") (dict_get "subject" d)))
            && truthy (default (VStr "") (dict_get "content" d))) eqn:Hback.
  - destruct (default (VStr "") (dict_get "content" d)) as [| | |c| |] eqn:Hcont;
      try discriminate.
    injection Hv as <-. unfold content_of, subject_of, subscript. repeat split.
    + rewrite dict_get_set_other by apply subject_not_content. exact Hc.
    + exists c. split; [reflexivity|]. by rewrite dict_get_set_same.
    + exists t. rewrite dict_get_set_other by apply subject_not_task_type. by rewrite Ht.
  - injection Hv as <-. unfold content_of, subject_of, subscript. repeat split; auto.
    exists t. by rewrite Ht.
Qed.

Section WithModel.
Variable model : string -> outcome string.
Variable json_loads : string -> outcome value.
Variable prompt_of : string -> string.

Abbreviation interpret := (interpret_instruction model json_loads prompt_of).
Abbreviation fails := (interpretation_fails model json_loads prompt_of).

(** The interpreter returns on every path: the fallback record after a
    failure, the validated answer of the model otherwise. *)
Lemma interpret_instruction_cases instruction sink :
  exists task sink',
    interpret instruction sink = (Returned task, sink') /\
    if fails instruction
    then task = fallback_record instruction
    else exists response v,
           model (prompt_of instruction) = Returned response /\
           json_loads response = Returned v /\
           _validate_task_info v = Returned task.
Proof.
  unfold interpret_instruction, interpretation_fails.
  unfold bind at 1, attempt, _call_llm, try_except, bind at 1, log, modify, lift.
  cbn beta iota.
  destruct (model (prompt_of instruction)) as [response|e] eqn:Hcall; cbn beta iota.
  2:{ eexists _, _. split; reflexivity. }
  destruct (json_loads response) as [v|e] eqn:Hjson.
  2:{ eexists _, _. split; reflexivity. }
  destruct (_validate_task_info v) as [r|e] eqn:Hval.
  2:{ eexists _, _. unfold try_except, bind, lift. split; reflexivity. }
  destruct (validate_spec _ _ Hval) as (d & _ & _ & _ & t & Ht).
  exists r. eexists. unfold try_except, bind, lift. rewrite Ht. simpl.
  split; [reflexivity|]. eauto.
Qed.

(** C6, as the code has it. [interpret_instruction] returns a task record
    for every instruction, whatever the model call and the JSON reader
    do.  When the model call raises, its answer is no JSON, or the answer
    cannot be validated, the record has the whole instruction as its
    content, and its recipients are the matches of the address pattern
    in the instruction: found by a left-to-right scan, each shaped like
    an address, lying in the instruction one after the other in the
    order of the list, an address being listed once for every match;
    and no address is passed over: a text shaped like an address between
    two word boundaries begins within one of the matches. *)
Theorem interpret_instruction_never_raises instruction sink :
  exists task sink',
    interpret instruction sink = (Returned task, sink') /\
    (fails instruction = true ->
     content_of task = Some (VStr instruction) /\
     exists ms,
       recipients_of task = Some (VList (map (fun m => VStr (text m)) ms)) /\
       Scan EMAIL None (chars instruction) ms /\
       Forall email_shaped ms /\
       (exists gaps tail,
          length gaps = length ms /\
          chars instruction = concat (zip_with app gaps ms) ++ tail) /\
       (forall pre m rest,
          chars instruction = pre ++ m ++ rest ->
          email_shaped m ->
          at_boundary (after None pre) (m ++ rest) = true ->
          at_boundary (after None (pre ++ m)) rest = true ->
          exists before hit behind,
            chars instruction = before ++ hit ++ behind /\ hit ∈ ms /\
            (length before <= length pre < length before + length hit)%nat)).
Proof.
  destruct (interpret_instruction_cases instruction sink) as (task & sink' & Hrun & Hcase).
  exists task, sink'. split; [exact Hrun|].
  intros Hfail. rewrite Hfail in Hcase. subst task.
  split; [reflexivity|].
  exists (findall_go EMAIL None (chars instruction) 0).
  pose proof (findall_go_scan EMAIL email_match_nonempty (chars instruction) None) as Hscan.
  split; [|split; [|split; [|split]]].
  - simpl. unfold findall. by rewrite map_map.
  - exact Hscan.
  - by apply scan_email_shaped in Hscan.
  - by apply scan_in_order in Hscan.
  - by apply scan_no_miss.
Qed.

(** C8, as the code has it. A task record that the interpreter returns
    has a subject that is not empty whenever its content has a word in
    it; and when the answer of the model has no subject, or an empty one,
    and a content with a word in it, the subject of the record is made of
    the first words of the content by [_generate_subject]. *)
Theorem subject_backfilled_from_content instruction sink task sink' :
  interpret instruction sink = (Returned task, sink') ->
  (forall c, content_of task = Some (VStr c) -> has_word c = true ->
     exists sv, subject_of task = Some sv /\ truthy sv = true) /\
  (forall response d c,
     model (prompt_of instruction) = Returned response ->
     json_loads response = Returned (VDict d) ->
     truthy (default (VStr "") (dict_get "subject" d)) = false ->
     dict_get "content" d = Some (VStr c) ->
     has_word c = true ->
     content_of task = Some (VStr c) /\
     subject_of task = Some (VStr (_generate_subject c)) /\
     _generate_subject c <> "").
Proof.
  intros Hrun.
  destruct (interpret_instruction_cases instruction sink) as (task0 & sink0 & Hrun0 & Hcase).
  rewrite Hrun in Hrun0. injection Hrun0 as <- <-.
  assert (Hword : forall c, has_word c = true -> c <> "").
  { intros c Hc ->. discriminate. }
  split.
  - intros c Hcont Hw.
    destruct (fails instruction).
    + subst task. eexists. split; reflexivity.
    + destruct Hcase as (response & v & _ & _ & Hval).
      destruct (validate_spec _ _ Hval) as (d & _ & Hc & Hs & _). cbn zeta in *.
      rewrite Hcont in Hc. injection Hc as Hc. rewrite <- Hc in Hs.
      destruct (truthy (default (VStr "") (dict_get "subject" d))) eqn:Hsub; simpl in Hs.
      * eexists. split; [exact Hs|exact Hsub].
      * assert (negb (String.eqb c "") = true) as Hne.
        { apply negb_true_iff, String.eqb_neq. by apply Hword. }
        rewrite Hne in Hs. destruct Hs as (c' & Hc' & Hs). injection Hc' as <-.
        eexists. split; [exact Hs|]. simpl.
        apply negb_true_iff, String.eqb_neq. by apply generate_subject_nonempty.
  - intros response d c Hcall Hjson Hsub Hcont Hw.
    assert (Hval : _validate_task_info (VDict d) = Returned task).
    { unfold interpretation_fails in Hcase. rewrite Hcall, Hjson in Hcase.
      destruct (_validate_task_info (VDict d)) as [r|e] eqn:Hval; simpl in Hcase.
      - destruct Hcase as (response' & v' & Hcall' & Hjson' & Hval').
        injection Hcall' as <-.
        rewrite Hjson in Hjson'. injection Hjson' as <-. congruence.
      - exfalso. revert Hval. rewrite validate_dict. cbn zeta.
        rewrite Hcont. cbn [default from_option id].
        destruct (negb (truthy (default (VStr "") (dict_get "subject" d)))
                  && truthy (VStr c)); discriminate. }
    destruct (validate_spec _ _ Hval) as (d' & Hd & Hc & Hs & _). cbn zeta in *.
    injection Hd as <-. rewrite Hcont in Hc, Hs. simpl in Hc, Hs.
    rewrite Hsub in Hs. simpl in Hs.
    assert (negb (String.eqb c "") = true) as Hne.
    { apply negb_true_iff, String.eqb_neq. by apply Hword. }
    rewrite Hne in Hs. destruct Hs as (c' & Hc' & Hs). injection Hc' as <-.
    repeat split; auto. by apply generate_subject_nonempty.
Qed.

End WithModel.

Lemma interpret_instruction_never_raises_witness :
  interpretation_fails Scenario.model_down Scenario.no_json Scenario.bare_prompt
    Scenario.sample_instruction = true /\
  exists task sink',
    interpret_instruction Scenario.model_down Scenario.no_json Scenario.bare_prompt
      Scenario.sample_instruction [] = (Returned task, sink') /\
    content_of task = Some (VStr Scenario.sample_instruction).
Proof.
  split; [reflexivity|].
  destruct (interpret_instruction_never_raises Scenario.model_down Scenario.no_json
              Scenario.bare_prompt Scenario.sample_instruction [])
    as (task & sink' & Hrun & Hfail).
  exists task, sink'. split; [exact Hrun|].
  apply Hfail. reflexivity.
Defined.

(** The claim C6 as it is written fails on an instruction that names an
    address twice: the recipients hold it twice, not once at the place
    of its first appearance. *)
Lemma repeated_address_is_listed_twice :
  exists task sink',
    interpret_instruction Scenario.model_down Scenario.no_json Scenario.bare_prompt
      "write to a@b.com, again a@b.com" [] = (Returned task, sink') /\
    recipients_of task = Some (VList [VStr "a@b.com"; VStr "a@b.com"]) /\
    ~ NoDup ["a@b.com"; "a@b.com"].
Proof.
  eexists _, _. split; [vm_compute; reflexivity|]. split; [reflexivity|].
  intros Hnd. apply NoDup_cons in Hnd as [Hin _]. apply Hin. left.
Qed.

Lemma subject_backfilled_from_content_witness :
  exists task sink',
    interpret_instruction Scenario.model_up (Scenario.content_only "hello  big world")
      Scenario.bare_prompt Scenario.sample_instruction [] = (Returned task, sink') /\
    has_word "hello  big world" = true /\
    subject_of task = Some (VStr "hello big world").
Proof.
  eexists _, _. split; [vm_compute; reflexivity|]. split; [reflexivity|].
  refine (proj1 (proj2 (proj2 (subject_backfilled_from_content
            Scenario.model_up (Scenario.content_only "hello  big world") Scenario.bare_prompt
            Scenario.sample_instruction [] _ _ _)
            "{...}" [("content", VStr "hello  big world")] "hello  big world" _ _ _ _ _))).
  all: vm_compute; reflexivity.
Defined.

(** The claim C8 as it is written fails on a content made of white space:
    the record that comes back has that content, which is not empty, and
    an empty subject. *)
Lemma blank_content_gets_empty_subject :
  exists task sink',
    interpret_instruction Scenario.model_up (Scenario.content_only " ")
      Scenario.bare_prompt Scenario.sample_instruction [] = (Returned task, sink') /\
    content_of task = Some (VStr " ") /\
    " " <> "" /\
    subject_of task = Some (VStr "").
Proof.
  eexists _, _. split; [vm_compute; reflexivity|].
  split; [reflexivity|]. split; [discriminate|reflexivity].
Qed.

End LLMFacts.

(** ** Computations that always return *)

Module TotalFacts.
Import Logger World.

Lemma total_ret {S A} (a : A) : total (@ret S A a).
Proof. intros s. by eexists _, _. Qed.

Lemma total_bind {S A B} (m : M S A) (k : A -> M S B) :
  total m -> (forall a, total (k a)) -> total (bind m k).
Proof.
  intros Hm Hk s. unfold bind.
  destruct (Hm s) as (a & s1 & ->). apply Hk.
Qed.

Lemma total_try_except {S A} (body : M S A) (handler : string -> M S A) :
  (forall e, total (handler e)) -> total (try_except body handler).
Proof.
  intros Hh s. unfold try_except.
  destruct (body s) as [[a|e] s1]; [by eexists _, _|apply Hh].
Qed.

Lemma total_modify {S} (f : S -> S) : total (modify f).
Proof. intros s. by eexists _, _. Qed.

Lemma total_get {S} : total (@get S).
Proof. intros s. by eexists _, _. Qed.

Section Env.
Context {W : Type} `{Handler W} {S : Type}.

Lemma total_emit lv msg : total (@emit W S lv msg).
Proof. apply total_modify. Qed.

Lemma total_clock : total (@clock W _ S).
Proof. intros s. unfold clock. destruct (now (world s)). by eexists _, _. Qed.

Lemma total_time : total (@time W _ S).
Proof. intros s. unfold time. destruct (time_time (world s)). by eexists _, _. Qed.

Lemma total_sleep ms : total (@sleep W S ms).
Proof. apply total_modify. Qed.

Lemma total_get_self : total (@get_self W S).
Proof. intros s. by eexists _, _. Qed.

Lemma total_set_self x : total (@set_self W S x).
Proof. apply total_modify. Qed.

Lemma total_get_actions : total (@get_actions W S).
Proof. intros s. by eexists _, _. Qed.

Lemma total_log_action act ok det : total (@log_action W _ S act ok det).
Proof.
  unfold log_action. apply total_bind; [apply total_emit|]. intros _.
  apply total_bind; [apply total_clock|]. intros t. apply total_modify.
Qed.

Lemma log_action_acted act ok det (st : env W S) :
  log_action act ok det st = (Returned tt, acted act ok det st).
Proof.
  unfold log_action, bind, emit, modify, clock, acted. simpl.
  destruct (now (world st)). reflexivity.
Qed.

Lemma total_log_step step d : total (@log_step W S step d).
Proof. apply total_emit. Qed.

Lemma total_log_warning m : total (@log_warning W S m).
Proof. apply total_emit. Qed.

Lemma total_log_error m e : total (@log_error W S m e).
Proof. apply total_emit. Qed.

Lemma total_log_success m : total (@log_success W S m).
Proof. apply total_emit. Qed.

End Env.

End TotalFacts.

Create HintDb total.

#[export] Hint Resolve TotalFacts.total_ret TotalFacts.total_bind TotalFacts.total_try_except
  TotalFacts.total_modify TotalFacts.total_get TotalFacts.total_emit TotalFacts.total_clock
  TotalFacts.total_time TotalFacts.total_sleep TotalFacts.total_get_self
  TotalFacts.total_set_self TotalFacts.total_get_actions TotalFacts.total_log_action
  TotalFacts.total_log_step TotalFacts.total_log_warning TotalFacts.total_log_error
  TotalFacts.total_log_success : total.

(** ** The browser manager *)

Module BrowserFacts.
Import Logger World Browser.

Section Facts.
Context {W : Type} `{Handler W}.

Abbreviation state := (env W BrowserManager).

Lemma log_action_run act ok det (st : state) :
  log_action act ok det st = (Returned tt, acted act ok det st).
Proof. apply TotalFacts.log_action_acted. Qed.

(** One iteration of the loop of [click_element]. *)
Lemma click_loop_step n i sel rest (st : state) :
  click_loop n i (sel :: rest) st =
  let st0 := logged INFO (step_message ("Attempting to click element: " +:+ sel) None) st in
  match click_attempt sel st0 with
  | (Returned _, st1) =>
      (Returned true, acted ("Clicked element: " +:+ sel) true None st1)
  | (Raised e, st1) =>
      if (i =? n - 1)%nat
      then (Returned false, acted ("Click element: " +:+ sel) false (Some e) st1)
      else click_loop n (S i) rest
             (logged WARNING ("Failed to click " +:+ sel +:+ ", trying fallback: " +:+ e) st1)
  end.
Proof.
  cbn [click_loop]. unfold try_except, bind.
  unfold log_step, emit, modify, click_attempt, bind, ext, logged, ret.
  cbn [world trace sink actions self].
  destruct (respond (PageWaitForSelector sel 5000) (world st)) as [[[]|e] w1];
    cbn [world trace sink actions self error_of].
  - destruct (respond (PageClick sel) w1) as [[[]|e] w2];
      cbn [world trace sink actions self error_of].
    + rewrite log_action_run. reflexivity.
    + destruct (i =? n - 1)%nat; [rewrite log_action_run|]; reflexivity.
  - destruct (i =? n - 1)%nat; [rewrite log_action_run|]; reflexivity.
Qed.

Lemma attempted_app tr1 tr2 : attempted (tr1 ++ tr2) = attempted tr1 ++ attempted tr2.
Proof. apply omap_app. Qed.

Lemma succeeded_app tr1 tr2 : succeeded (tr1 ++ tr2) = succeeded tr1 ++ succeeded tr2.
Proof. apply omap_app. Qed.

(** What one candidate leaves behind: one wait for its selector, and a
    click that went through exactly when the attempt returned. *)
Lemma click_attempt_run sel (st : state) :
  exists o st1 evs,
    click_attempt sel st = (o, st1) /\
    trace st1 = trace st ++ evs /\
    actions st1 = actions st /\
    attempted evs = [sel] /\
    match o with
    | Returned _ => succeeded evs = [sel]
    | Raised e => succeeded evs = [] /\ exists c, last evs = Some (Call c (Some e))
    end.
Proof.
  unfold click_attempt, bind, ext.
  destruct (respond (PageWaitForSelector sel 5000) (world st)) as [[[]|e] w1] eqn:Hw;
    cbn [world trace sink actions self error_of].
  - destruct (respond (PageClick sel) w1) as [[[]|e] w2] eqn:Hc;
      cbn [world trace sink actions self error_of].
    + eexists _, _, [_; _]. split; [reflexivity|].
      rewrite <- app_assoc. repeat split; reflexivity.
    + eexists _, _, [_; _]. split; [reflexivity|].
      rewrite <- app_assoc. repeat split; try reflexivity. by eexists.
  - eexists _, _, [_]. split; [reflexivity|].
    repeat split; try reflexivity. by eexists.
Qed.

(** The loop of [click_element], from any index on. *)
Lemma click_loop_spec : forall sels n i (st : state),
  sels <> [] ->
  (i + length sels = n)%nat ->
  exists b st' new k ar,
    click_loop n i sels st = (Returned b, st') /\
    trace st' = trace st ++ new /\
    (1 <= k <= length sels)%nat /\
    attempted new = take k sels /\
    actions st' = actions st ++ [ar] /\
    success ar = b /\
    (b = true ->
       exists sel, last (take k sels) = Some sel /\ succeeded new = [sel] /\
                   action ar = "Clicked element: " +:+ sel /\ details ar = None) /\
    (b = false ->
       k = length sels /\ succeeded new = [] /\
       exists sel e c, last sels = Some sel /\
                       action ar = "Click element: " +:+ sel /\ details ar = Some e /\
                       last new = Some (Call c (Some e))) /\
    ((forall sel, sel ∈ removelast sels -> refuses sel) ->
     (forall sel, last sels = Some sel -> accepts sel) ->
     b = true /\ k = length sels).
Proof.
  induction sels as [|sel rest IH]; intros n i st Hne Hlen; [done|].
  rewrite click_loop_step. cbn zeta.
  set (st0 := logged INFO _ st).
  destruct (click_attempt_run sel st0) as (o & st1 & evs & Hrun & Htr & Hact & Hatt & Hsucc).
  pose proof Hrun as Hrun'.
  rewrite Hrun. destruct o as [[]|e].
  - (* the candidate is clicked *)
    eexists true, _, evs, 1%nat, _. split; [reflexivity|].
    cbn [acted trace actions]. rewrite Htr, Hact.
    split; [reflexivity|]. split; [simpl; lia|].
    split; [by rewrite Hatt|]. split; [reflexivity|]. split; [reflexivity|].
    split; [|split].
    + intros _. exists sel. by repeat split.
    + discriminate.
    + intros Hrefuse _. split; [reflexivity|].
      destruct rest as [|sel' rest']; [reflexivity|]. exfalso.
      assert (Hin : sel ∈ removelast (sel :: sel' :: rest')) by (simpl; left).
      specialize (Hrefuse sel Hin st0). rewrite Hrun' in Hrefuse. discriminate.
  - destruct Hsucc as (Hsucc & c & Hlast).
    destruct rest as [|sel' rest'].
    + (* the last candidate has failed *)
      assert ((i =? n - 1)%nat = true) as -> by (apply Nat.eqb_eq; simpl in Hlen; lia).
      eexists false, _, evs, 1%nat, _. split; [reflexivity|].
      cbn [acted trace actions]. rewrite Htr, Hact.
      split; [reflexivity|]. split; [simpl; lia|].
      split; [by rewrite Hatt|]. split; [reflexivity|]. split; [reflexivity|].
      split; [|split].
      * discriminate.
      * intros _. split; [reflexivity|]. split; [exact Hsucc|].
        exists sel, e, c. by repeat split.
      * intros _ Haccept. exfalso.
        specialize (Haccept sel eq_refl st0). rewrite Hrun' in Haccept. discriminate.
    + (* on to the next candidate *)
      assert ((i =? n - 1)%nat = false) as -> by (apply Nat.eqb_neq; simpl in Hlen; lia).
      set (st2 := logged WARNING _ st1).
      destruct (IH n (S i) st2) as (b & st' & new & k & ar & Hloop & Htr' & Hk & Hatt' & Hact'
                                     & Hok & Htrue & Hfalse & Honly);
        [done | simpl in *; lia |].
      exists b, st', (evs ++ new), (S k), ar. split; [exact Hloop|].
      rewrite Htr', Hact'. cbn [st2 logged trace actions]. rewrite Htr, Hact.
      rewrite attempted_app, succeeded_app, Hatt, Hsucc.
      split; [by rewrite app_assoc|]. split; [simpl in *; lia|].
      split; [simpl; by rewrite Hatt'|]. split; [reflexivity|]. split; [exact Hok|].
      assert (Hstep : forall s, last (sel' :: rest') = Some s ->
                                 last (sel :: sel' :: rest') = Some s).
      { intros s Hs. rewrite last_cons, Hs. reflexivity. }
      split; [|split].
      * intros Hb. destruct (Htrue Hb) as (s & Hs & Hrest). exists s. split; [|exact Hrest].
        change (take (S k) (sel :: sel' :: rest')) with (sel :: take k (sel' :: rest')).
        rewrite last_cons, Hs. reflexivity.
      * intros Hb. destruct (Hfalse Hb) as (-> & Hs0 & s & e' & c' & Hs & Ha & Hd & Hl).
        split; [reflexivity|]. split; [exact Hs0|].
        exists s, e', c'. split; [by apply Hstep|]. split; [exact Ha|]. split; [exact Hd|].
        rewrite last_app, Hl. reflexivity.
      * intros Hrefuse Haccept.
        destruct Honly as [-> ->].
        -- intros s Hs. apply Hrefuse. simpl. by right.
        -- intros s Hs. apply Haccept. by apply Hstep.
        -- split; reflexivity.
Qed.

(** C4. [click_element] puts the primary selector and then the fallbacks
    to the page in the order of the list, and stops at the first
    candidate on which the click goes through: the candidates attempted
    are the first [k] of the list; when it returns true, the click went
    through on the last candidate attempted and on no other; it returns
    false only when all candidates were attempted and none went through.
    Either way exactly one record is appended to the action log, for the
    last attempt, carrying the text of the exception when the attempt
    failed.  When the page refuses every candidate but the last and
    accepts the last, all [N] candidates are attempted and the result is
    true. *)
Theorem click_element_tries_in_order selector fallback_selectors (st : state) :
  let sels := selector :: default [] fallback_selectors in
  exists b st' new k ar,
    click_element selector fallback_selectors st = (Returned b, st') /\
    trace st' = trace st ++ new /\
    (1 <= k <= length sels)%nat /\
    attempted new = take k sels /\
    actions st' = actions st ++ [ar] /\
    success ar = b /\
    (b = true ->
       exists sel, last (take k sels) = Some sel /\ succeeded new = [sel] /\
                   action ar = "Clicked element: " +:+ sel /\ details ar = None) /\
    (b = false ->
       k = length sels /\ succeeded new = [] /\
       exists sel e c, last sels = Some sel /\
                       action ar = "Click element: " +:+ sel /\ details ar = Some e /\
                       last new = Some (Call c (Some e))) /\
    ((forall sel, sel ∈ removelast sels -> refuses sel) ->
     (forall sel, last sels = Some sel -> accepts sel) ->
     b = true /\ k = length sels).
Proof.
  intros sels. unfold click_element.
  change ([selector] ++ default [] fallback_selectors) with sels.
  apply click_loop_spec; [done|reflexivity].
Qed.

(** The page answers by the world alone: a line in the log changes
    nothing to an attempt. *)
Lemma click_attempt_logged sel lv msg (st : state) :
  fst (click_attempt sel (logged lv msg st)) = fst (click_attempt sel st).
Proof.
  unfold click_attempt, bind, ext, logged. cbn [world trace sink actions self].
  destruct (respond (PageWaitForSelector sel 5000) (world st)) as [[[]|e] w1];
    cbn [world trace sink actions self]; [|reflexivity].
  destruct (respond (PageClick sel) w1) as [[[]|e] w2]; reflexivity.
Qed.

Lemma type_attempt_logged sel text lv msg (st : state) :
  fst (type_attempt sel text (logged lv msg st)) = fst (type_attempt sel text st).
Proof.
  unfold type_attempt, bind, ext, logged. cbn [world trace sink actions self].
  destruct (respond (PageWaitForSelector sel 5000) (world st)) as [[[]|e] w1];
    cbn [world trace sink actions self]; [|reflexivity].
  destruct (respond (PageFill sel text) w1) as [[[]|e] w2]; reflexivity.
Qed.

(** [type_text] with the primary selector alone. *)
Lemma type_single sel text (st : state) :
  exists st' new,
    type_loop text 1 0 [sel] st = (Returned (returned (fst (type_attempt sel text st))), st') /\
    trace st' = trace st ++ new /\
    attempted new = [sel].
Proof.
  cbn [type_loop]. unfold try_except, bind.
  unfold log_step, emit, modify, type_attempt, bind, ext, ret.
  cbn [world trace sink actions self].
  destruct (respond (PageWaitForSelector sel 5000) (world st)) as [[[]|e] w1];
    cbn [world trace sink actions self error_of fst returned Nat.eqb Nat.sub].
  - destruct (respond (PageFill sel text) w1) as [[[]|e] w2];
      cbn [world trace sink actions self error_of fst returned];
      rewrite log_action_run; eexists _, [_; _];
      (split; [reflexivity|]); cbn [acted trace]; rewrite <- app_assoc; split; reflexivity.
  - rewrite log_action_run. eexists _, [_].
    split; [reflexivity|]. split; reflexivity.
Qed.

(** C7. Without fallback selectors, absent or empty, [click_element] and
    [type_text] make one attempt, on the primary selector, and return
    whether that attempt went through. *)
Theorem no_fallback_is_single_attempt selector text (st : state) :
  click_element selector None st = click_element selector (Some []) st /\
  type_text selector text None st = type_text selector text (Some []) st /\
  (exists st' new,
     click_element selector None st
       = (Returned (returned (fst (click_attempt selector st))), st') /\
     trace st' = trace st ++ new /\ attempted new = [selector]) /\
  (exists st' new,
     type_text selector text None st
       = (Returned (returned (fst (type_attempt selector text st))), st') /\
     trace st' = trace st ++ new /\ attempted new = [selector]).
Proof.
  split; [reflexivity|]. split; [reflexivity|]. split.
  - unfold click_element. cbn [default from_option app length].
    rewrite click_loop_step. cbn zeta.
    set (st0 := logged INFO _ st).
    rewrite <- (click_attempt_logged selector INFO
                  (step_message ("Attempting to click element: " +:+ selector) None) st).
    fold st0.
    destruct (click_attempt_run selector st0) as (o & st1 & evs & Hrun & Htr & _ & Hatt & _).
    rewrite Hrun. destruct o as [[]|e]; cbn [fst returned Nat.eqb Nat.sub].
    + eexists _, evs. split; [reflexivity|]. cbn [acted trace]. by rewrite Htr.
    + eexists _, evs. split; [reflexivity|]. cbn [acted trace]. by rewrite Htr.
  - unfold type_text. cbn [default from_option app length].
    apply type_single.
Qed.

Lemma bind_returned {S A B} (m : M S A) (k : A -> M S B) s a s1 :
  m s = (Returned a, s1) -> bind m k s = k a s1.
Proof. intros E. unfold bind. by rewrite E. Qed.

Lemma try_except_returned {S A} (body : M S A) handler s a s1 :
  body s = (Returned a, s1) -> try_except body handler s = (Returned a, s1).
Proof. intros E. unfold try_except. by rewrite E. Qed.

(** The primitives catch what the page raises. *)
Lemma total_navigate url : total (navigate (W:=W) url).
Proof. unfold navigate. auto 10 with total. Qed.

Lemma total_click_loop n : forall sels i, total (click_loop (W:=W) n i sels).
Proof.
  induction sels as [|sel rest IH]; intros i; cbn [click_loop]; [auto with total|].
  apply TotalFacts.total_bind.
  - apply TotalFacts.total_try_except. intros e.
    destruct (i =? n - 1)%nat; auto 10 with total.
  - intros [b|]; auto with total.
Qed.

Lemma total_click_element selector fallback : total (click_element (W:=W) selector fallback).
Proof. apply total_click_loop. Qed.

Lemma total_type_loop text n : forall sels i, total (type_loop (W:=W) text n i sels).
Proof.
  induction sels as [|sel rest IH]; intros i; cbn [type_loop]; [auto with total|].
  apply TotalFacts.total_bind.
  - apply TotalFacts.total_try_except. intros e.
    destruct (i =? n - 1)%nat; auto 10 with total.
  - intros [b|]; auto with total.
Qed.

Lemma total_type_text selector text fallback :
  total (type_text (W:=W) selector text fallback).
Proof. apply total_type_loop. Qed.

Lemma total_wait_for_element selector timeout :
  total (wait_for_element (W:=W) selector timeout).
Proof. unfold wait_for_element. auto 10 with total. Qed.

Lemma total_take_screenshot filename : total (take_screenshot (W:=W) filename).
Proof. unfold take_screenshot. auto 10 with total. Qed.

Lemma total_save_page_html filename : total (save_page_html (W:=W) filename).
Proof. unfold save_page_html. auto 10 with total. Qed.

Lemma total_dispatch action_type target value fallback_actions :
  total (dispatch (W:=W) action_type target value fallback_actions).
Proof.
  unfold dispatch.
  repeat match goal with |- context [if ?b then _ else _] => destruct b end;
    auto using total_navigate, total_click_element, total_type_text,
               total_wait_for_element with total.
Qed.

(** An action type that is not known is not dispatched: the step fails
    without a call to the page. *)
Lemma dispatch_unknown action_type target value fallback_actions (st : state) :
  known_action action_type = false ->
  dispatch action_type target value fallback_actions st = (Returned false, st).
Proof.
  unfold known_action, dispatch. intros Hk.
  repeat (apply orb_false_iff in Hk as [Hk ?]).
  by repeat match goal with E : String.eqb _ _ = false |- _ => rewrite E; clear E end.
Qed.

(** A failed step marks the plan as failed and adds its message; the
    captures only add to the screenshots. *)
Lemma on_failure_spec step description results (st : state) :
  exists results' st',
    on_failure step description results st = (Returned results', st') /\
    pr_success results' = false /\
    pr_actions results' = pr_actions results /\
    pr_errors results'
      = pr_errors results ++ ["Step " +:+ pretty step +:+ " failed: " +:+ description].
Proof.
  unfold on_failure, bind, get_self, ret. cbn beta iota.
  destruct (Config.screenshot_on_error (config (self st))).
  - destruct (total_take_screenshot (Some ("error_step_" +:+ pretty step +:+ ".png")) st)
      as (path & st1 & ->).
    destruct (Config.save_html_on_error (config (self st))).
    + destruct path as [path|];
        destruct (total_save_page_html (Some ("error_step_" +:+ pretty step +:+ ".html")) st1)
          as ([html|] & st2 & ->);
        eexists _, _; (split; [reflexivity|]); by repeat split.
    + destruct path as [path|]; eexists _, _; (split; [reflexivity|]); by repeat split.
  - destruct (Config.save_html_on_error (config (self st))).
    + destruct (total_save_page_html (Some ("error_step_" +:+ pretty step +:+ ".html")) st)
        as ([html|] & st2 & ->);
        eexists _, _; (split; [reflexivity|]); by repeat split.
    + eexists _, _. split; [reflexivity|]. by repeat split.
Qed.

(** One step of a plan: it is recorded, whatever its outcome; a failure
    marks the plan and adds one message. *)
Lemma run_step_spec (a : Action) (r : PlanResult) (st : state) :
  exists r' st' ar,
    run_step a r st = (Returned r', st') /\
    pr_actions r' = pr_actions r ++ [ar] /\
    records a ar /\
    pr_success r' = pr_success r && ar_success ar /\
    pr_errors r' = pr_errors r ++ (if ar_success ar then [] else [failure_message ar]) /\
    exists st_d,
      dispatch (default "" (a_action a)) (default "" (a_target a)) (default "" (a_value a))
               (default [] (a_fallback_actions a))
               (logged INFO
                  (step_message ("Step " +:+ pretty (default 0 (a_step a)) +:+ ": "
                                 +:+ default "" (a_description a)) None) st)
      = (Returned (ar_success ar), st_d).
Proof.
  unfold run_step. cbn zeta.
  set (step := default 0 (a_step a)).
  set (action_type := default "" (a_action a)).
  set (target := default "" (a_target a)).
  set (value := default "" (a_value a)).
  set (description := default "" (a_description a)).
  set (fallback_actions := default [] (a_fallback_actions a)).
  unfold try_except, bind at 1, log_step, emit, modify. cbn beta iota.
  set (st0 := mkEnv _ _ _ _ _).
  destruct (total_dispatch action_type target value fallback_actions st0) as (b & st1 & Hd).
  rewrite (bind_returned _ _ _ _ _ Hd).
  assert (Hrec : records a (mkActionResult step action_type target description b)).
  { repeat split. cbn [ar_success]. intros Hk.
    rewrite (dispatch_unknown _ _ _ _ st0 Hk) in Hd. by injection Hd as <- _. }
  destruct b; cbn [negb].
  - unfold bind, ret, sleep, modify.
    eexists _, _, _. split; [reflexivity|]. cbn [pr_actions pr_success pr_errors ar_success].
    split; [reflexivity|]. split; [exact Hrec|].
    split; [by rewrite andb_true_r|]. split; [by rewrite app_nil_r|].
    exists st1. exact Hd.
  - destruct (on_failure_spec step description
                (mkPlanResult (pr_success r)
                   (pr_actions r ++ [mkActionResult step action_type target description false])
                   (pr_errors r) (pr_screenshots r)) st1)
      as (r' & st' & Hf & Hs & Ha & He).
    rewrite (bind_returned _ _ _ _ _ Hf).
    unfold bind, ret, sleep, modify.
    eexists _, _, _. split; [reflexivity|].
    rewrite Hs, Ha, He. cbn [pr_actions pr_success pr_errors ar_success].
    split; [reflexivity|]. split; [exact Hrec|].
    split; [by rewrite andb_false_r|]. split; [reflexivity|].
    exists st1. exact Hd.
Qed.

(** The loop of [execute_action_plan] goes through the whole plan. *)
Lemma plan_loop_spec : forall (plan : list Action) (r : PlanResult) (st : state),
  exists r' st' new,
    plan_loop plan r st = (Returned r', st') /\
    pr_actions r' = pr_actions r ++ new /\
    Forall2 records plan new /\
    Ran plan st new /\
    pr_success r' = pr_success r && forallb ar_success new /\
    pr_errors r'
      = pr_errors r ++ map failure_message (List.filter (fun ar => negb (ar_success ar)) new).
Proof.
  induction plan as [|a plan IH]; intros r st; cbn [plan_loop].
  - exists r, st, []. split; [reflexivity|]. cbn.
    rewrite !app_nil_r, andb_true_r. repeat split; constructor.
  - destruct (run_step_spec a r st)
      as (r1 & st1 & ar & Hstep & Ha & Hrec & Hs & He & st_d & Hd).
    rewrite (bind_returned _ _ _ _ _ Hstep).
    destruct (IH r1 st1) as (r' & st' & new & Hloop & Ha' & Hrec' & Hran & Hs' & He').
    exists r', st', (ar :: new). split; [exact Hloop|].
    rewrite Ha', Hs', He', Ha, Hs, He.
    split; [by rewrite <- app_assoc|]. split; [by constructor|].
    split; [by econstructor|].
    split; [cbn [forallb]; by rewrite andb_assoc|].
    rewrite <- app_assoc. f_equal. cbn [List.filter].
    destruct (ar_success ar); reflexivity.
Qed.

(** [execute_action_plan], from the loop. *)
Lemma execute_action_plan_spec (plan : list Action) (st : state) :
  exists results st',
    execute_action_plan plan st = (Returned results, st') /\
    Forall2 records plan (pr_actions results) /\
    Ran plan st (pr_actions results) /\
    pr_success results = forallb ar_success (pr_actions results) /\
    pr_errors results
      = map failure_message (List.filter (fun ar => negb (ar_success ar)) (pr_actions results)).
Proof.
  unfold execute_action_plan.
  destruct (plan_loop_spec plan (mkPlanResult true [] [] []) st)
    as (results & st' & new & Hrun & Ha & Hrec & Hran & Hs & He).
  cbn [pr_actions pr_success pr_errors app andb] in *. subst new.
  by exists results, st'.
Qed.


End Facts.

(** In the world [stubborn ["#a"; "#b"]] the page refuses [#a] and [#b]
    and accepts [#c]: the three candidates are attempted and the click
    goes through. *)
Lemma click_element_tries_in_order_witness :
  (forall sel, sel ∈ removelast ["#a"; "#b"; "#c"] ->
               refuses (H := Scenario.stubborn ["#a"; "#b"]) sel) /\
  (forall sel, last ["#a"; "#b"; "#c"] = Some sel ->
               accepts (H := Scenario.stubborn ["#a"; "#b"]) sel) /\
  exists st',
    click_element (H := Scenario.stubborn ["#a"; "#b"]) "#a" (Some ["#b"; "#c"])
      Scenario.stubborn_browser = (Returned true, st') /\
    attempted (trace st') = ["#a"; "#b"; "#c"] /\
    length (actions st') = 1%nat.
Proof.
  assert (Hrefuse : forall sel, sel ∈ removelast ["#a"; "#b"; "#c"] ->
                                refuses (H := Scenario.stubborn ["#a"; "#b"]) sel).
  { intros sel Hin st. apply list_elem_of_In in Hin as [<-|[<-|[]]]; reflexivity. }
  assert (Haccept : forall sel, last ["#a"; "#b"; "#c"] = Some sel ->
                                accepts (H := Scenario.stubborn ["#a"; "#b"]) sel).
  { intros sel [= <-] st. reflexivity. }
  split; [exact Hrefuse|]. split; [exact Haccept|].
  destruct (click_element_tries_in_order (H := Scenario.stubborn ["#a"; "#b"])
              "#a" (Some ["#b"; "#c"]) Scenario.stubborn_browser)
    as (b & st' & new & k & ar & Hrun & Htr & Hk & Hatt & Hact & _ & _ & _ & Honly).
  destruct (Honly Hrefuse Haccept) as [-> ->].
  exists st'. split; [exact Hrun|].
  rewrite Htr, Hact. split; [exact Hatt|reflexivity].
Defined.

Import Scenario.

(** The calls of the plan [five_steps] in a world where [#missing] is
    not on the page: the steps after the failed one reach the page. *)
Example five_steps_calls :
  calls (trace (snd (Browser.execute_action_plan Scenario.five_steps
                       (Scenario.browser_in (Scenario.page_world ["#missing"])))))
  = [ PageGoto "https://gmail.com";
      PageWaitForSelector "#compose" 5000; PageClick "#compose";
      PageWaitForSelector "#missing" 5000;
      PageWaitForSelector "#to" 5000; PageFill "#to" "";
      PageWaitForSelector "#send" 5000; PageClick "#send" ].
Proof. vm_compute. reflexivity. Qed.


End BrowserFacts.

(** ** The provider adapters *)

Module ProviderFacts.
Import Logger World Provider.

Lemma provider_name_cases self :
  get_provider_name self = match kind self with
                           | GmailAdapter => "gmail"
                           | OutlookAdapter => "outlook"
                           end.
Proof. destruct self as [[] c]; reflexivity. Qed.

(** The two adapters have credentials. *)
Lemma credentials_found self :
  Config.get_provider_credentials (config self) (get_provider_name self)
  = Returned (credentials_of self).
Proof.
  rewrite provider_name_cases. unfold credentials_of.
  destruct (kind self); reflexivity.
Qed.

Section Facts.
Context {W : Type} `{Handler W} {S : Type}.

(** C2. [execute_task] calls [login] before anything else.  When [login]
    returns false the result is the failure with the error "Login
    failed" and [send_email] is not called; when it returns true
    [send_email] is called next; and [send_email] is called in no other
    run.  So, for a [login] that returns, it has returned false exactly
    when the result is a failure with the error "Login failed" and
    [send_email] was not called. *)
Theorem execute_task_login_gate (adapter : ProviderAdapter) (task_info : value)
    (st : env W S) :
  let name := get_provider_name adapter in
  let login := Login name (credentials_of adapter) in
  let answer := fst (respond login (world st)) in
  exists result st' new,
    execute_task adapter task_info st = (Returned result, st') /\
    trace st' = trace st ++ new /\
    (exists tail, calls new = login :: tail) /\
    (answer = Returned false ->
       result = login_failed name /\ calls new = [login]) /\
    (answer = Returned true ->
       calls new = [login; SendEmail name task_info]) /\
    (forall provider task, SendEmail provider task ∈ calls new -> answer = Returned true) /\
    (forall b, answer = Returned b ->
       (b = false <->
        dict_get "success" result = Some (VBool false) /\
        dict_get "error" result = Some (VStr "Login failed") /\
        forall provider task, SendEmail provider task ∉ calls new)).
Proof.
  intros name login answer.
  unfold execute_task, try_except, bind, emit, modify, lift.
  rewrite credentials_found. fold name. cbn beta iota.
  unfold ext at 1. cbn [world trace sink actions self]. fold login.
  subst answer.
  destruct (respond login (world st)) as [[[|]|e] w1]; cbn [fst negb error_of].
  - (* [login] has returned true *)
    unfold ext, ret. cbn [world trace sink actions self].
    destruct (respond (SendEmail name task_info) w1) as [[result|e] w2];
      cbn [world trace sink actions self error_of];
      eexists _, _, [_; _]; (split; [reflexivity|]); rewrite <- app_assoc;
      (split; [reflexivity|]); (split; [by eexists|]);
      (split; [discriminate|]); (split; [reflexivity|]); (split; [reflexivity|]);
      intros b [= <-]; (split; [discriminate|]); intros (_ & _ & Hno);
      exfalso; apply (Hno name task_info); apply list_elem_of_In; right; left; reflexivity.
  - (* [login] has returned false *)
    unfold ret. eexists _, _, [_]. split; [reflexivity|].
    split; [reflexivity|]. split; [by eexists|].
    split; [done|]. split; [discriminate|].
    split.
    { intros provider task Hin. apply list_elem_of_In in Hin as [Hin|[]]. discriminate. }
    intros b [= <-]. split; [|reflexivity]. intros _.
    repeat split. intros provider task Hin.
    apply list_elem_of_In in Hin as [Hin|[]]. discriminate.
  - (* [login] has raised *)
    unfold ret. eexists _, _, [_]. split; [reflexivity|].
    split; [reflexivity|]. split; [by eexists|].
    split; [discriminate|]. split; [discriminate|].
    split.
    { intros provider task Hin. apply list_elem_of_In in Hin as [Hin|[]]. discriminate. }
    intros b [=].
Qed.

End Facts.

Import Scenario.

Lemma execute_task_login_gate_witness :
  fst (respond (Login "gmail" (credentials_of Scenario.gmail_adapter))
               (world Scenario.login_refused)) = Returned false /\
  exists result st',
    execute_task Scenario.gmail_adapter (VDict []) Scenario.login_refused
      = (Returned result, st') /\
    result = login_failed "gmail" /\
    calls (trace st') = [Login "gmail" (credentials_of Scenario.gmail_adapter)].
Proof.
  split; [reflexivity|].
  destruct (execute_task_login_gate Scenario.gmail_adapter (VDict []) Scenario.login_refused)
    as (result & st' & new & Hrun & Htr & _ & Hfalse & _).
  destruct (Hfalse eq_refl) as [Hres Hcalls].
  exists result, st'. split; [exact Hrun|]. split; [exact Hres|].
  rewrite Htr. exact Hcalls.
Defined.

End ProviderFacts.

(** ** The agent *)

Module AgentFacts.
Import Logger World Agent.

Lemma stops_app tr1 tr2 : stops (tr1 ++ tr2) = (stops tr1 + stops tr2)%nat.
Proof. unfold stops. by rewrite List.filter_app, length_app. Qed.

Lemma starts_app tr1 tr2 : starts (tr1 ++ tr2) = (starts tr1 + starts tr2)%nat.
Proof. unfold starts. by rewrite List.filter_app, length_app. Qed.

Lemma constructed_app tr1 tr2 :
  constructed (tr1 ++ tr2) = constructed tr1 || constructed tr2.
Proof. apply existsb_app. Qed.

Section Tidy.
Context {W : Type} `{Handler W}.

Abbreviation state := (env W GenericUIAgent).

Lemma tidy_step_refl (st : state) : tidy_step st st.
Proof. exists []. rewrite app_nil_r. by repeat split. Qed.

(** A state that differs in the world, the log and the action log only. *)
Lemma tidy_step_quiet (st st' : state) :
  trace st' = trace st -> self st' = self st -> tidy_step st st'.
Proof. intros Ht Hs. exists []. rewrite app_nil_r, Hs. by repeat split. Qed.

Lemma tidy_step_trans (st1 st2 st3 : state) :
  tidy_step st1 st2 -> tidy_step st2 st3 -> tidy_step st1 st3.
Proof.
  intros (n1 & Ht1 & Hs1 & Hc1 & Hb1) (n2 & Ht2 & Hs2 & Hc2 & Hb2).
  exists (n1 ++ n2). rewrite Ht2, Ht1, <- app_assoc.
  rewrite stops_app, starts_app, constructed_app, Hs1, Hs2, Hb2, Hb1.
  split; [reflexivity|]. split; [reflexivity|]. split.
  - intros Hc. apply orb_false_iff in Hc as [H1 H2].
    by rewrite (Hc1 H1), (Hc2 H2).
  - destruct (constructed n1), (constructed n2); reflexivity.
Qed.

Lemma tidy_ret {A} (a : A) : tidy (W := W) (ret a).
Proof. intros st r st' [= <- <-]. apply tidy_step_refl. Qed.

Lemma tidy_raise {A} e : tidy (W := W) (A := A) (raise e).
Proof. intros st r st' [= <- <-]. apply tidy_step_refl. Qed.

Lemma tidy_lift {A} (o : outcome A) : tidy (W := W) (lift o).
Proof. intros st r st' [= <- <-]. apply tidy_step_refl. Qed.

Lemma tidy_bind {A B} (m : M state A) (k : A -> M state B) :
  tidy m -> (forall a, tidy (k a)) -> tidy (bind m k).
Proof.
  intros Hm Hk st r st' Hrun. unfold bind in Hrun.
  destruct (m st) as [[a|e] s1] eqn:E.
  - eapply tidy_step_trans; [exact (Hm _ _ _ E)|exact (Hk _ _ _ _ Hrun)].
  - injection Hrun as <- <-. exact (Hm _ _ _ E).
Qed.

Lemma tidy_try_except {A} (body : M state A) handler :
  tidy body -> (forall e, tidy (handler e)) -> tidy (try_except body handler).
Proof.
  intros Hb Hh st r st' Hrun. unfold try_except in Hrun.
  destruct (body st) as [[a|e] s1] eqn:E.
  - injection Hrun as <- <-. exact (Hb _ _ _ E).
  - eapply tidy_step_trans; [exact (Hb _ _ _ E)|exact (Hh _ _ _ _ Hrun)].
Qed.

Lemma tidy_emit lv msg : tidy (W := W) (emit lv msg).
Proof. intros st r st' [= <- <-]. by apply tidy_step_quiet. Qed.

Lemma tidy_clock : tidy (W := W) clock.
Proof.
  intros st r st'. unfold clock. destruct (now (world st)).
  intros [= <- <-]. by apply tidy_step_quiet.
Qed.

Lemma tidy_time : tidy (W := W) time.
Proof.
  intros st r st'. unfold time. destruct (time_time (world st)).
  intros [= <- <-]. by apply tidy_step_quiet.
Qed.

Lemma tidy_get_self : tidy (W := W) get_self.
Proof. intros st r st' [= <- <-]. apply tidy_step_refl. Qed.

Lemma tidy_get_actions : tidy (W := W) get_actions.
Proof. intros st r st' [= <- <-]. apply tidy_step_refl. Qed.

Lemma tidy_with_sink {A} (m : M (list log_line) A) : tidy (W := W) (with_sink m).
Proof.
  intros st r st'. unfold with_sink. destruct (m (sink st)).
  intros [= <- <-]. by apply tidy_step_quiet.
Qed.

Lemma tidy_log_action act ok det : tidy (W := W) (log_action act ok det).
Proof.
  unfold log_action. apply tidy_bind; [apply tidy_emit|]. intros _.
  apply tidy_bind; [apply tidy_clock|]. intros t.
  intros st r st' [= <- <-]. by apply tidy_step_quiet.
Qed.

Lemma tidy_log_step s d : tidy (W := W) (log_step s d).
Proof. apply tidy_emit. Qed.

Lemma tidy_log_warning m : tidy (W := W) (log_warning m).
Proof. apply tidy_emit. Qed.

Lemma tidy_log_error m e : tidy (W := W) (log_error m e).
Proof. apply tidy_emit. Qed.

Lemma tidy_log_success m : tidy (W := W) (log_success m).
Proof. apply tidy_emit. Qed.

(** The provider methods are no part of the life cycle of the browser. *)
Lemma tidy_login provider credentials : tidy (W := W) (ext (Login provider credentials)).
Proof.
  intros st r st'. unfold ext. destruct (respond _ (world st)) as [o w].
  intros [= <- <-]. eexists [_]. by repeat split.
Qed.

Lemma tidy_send_email provider task : tidy (W := W) (ext (SendEmail provider task)).
Proof.
  intros st r st'. unfold ext. destruct (respond _ (world st)) as [o w].
  intros [= <- <-]. eexists [_]. by repeat split.
Qed.

End Tidy.

End AgentFacts.

Create HintDb tidy.

#[export] Hint Resolve AgentFacts.tidy_ret AgentFacts.tidy_raise AgentFacts.tidy_lift
  AgentFacts.tidy_bind AgentFacts.tidy_try_except AgentFacts.tidy_emit AgentFacts.tidy_clock
  AgentFacts.tidy_time AgentFacts.tidy_get_self AgentFacts.tidy_get_actions
  AgentFacts.tidy_with_sink AgentFacts.tidy_log_action AgentFacts.tidy_log_step
  AgentFacts.tidy_log_warning AgentFacts.tidy_log_error AgentFacts.tidy_log_success
  AgentFacts.tidy_login AgentFacts.tidy_send_email : tidy.

Ltac tidy_tac :=
  repeat first
    [ progress auto with tidy
    | apply AgentFacts.tidy_bind; [|intros]
    | apply AgentFacts.tidy_try_except; [|intros]
    | match goal with
      | |- Agent.tidy (if ?b then _ else _) => destruct b
      | |- Agent.tidy (match ?x with _ => _ end) => destruct x
      end ].

(** ** The orchestrator *)

Module ExecuteFacts.
Import Logger World Agent AgentFacts.

Section Facts.
Context {W : Type} `{Handler W}.
Variable model : string -> outcome string.
Variable json_loads : string -> outcome value.
Variable prompt_of : string -> string.

Abbreviation state := (env W GenericUIAgent).
Abbreviation run := (execute model json_loads prompt_of).

Lemma tidy_step_silent (st st' : state) :
  trace st' = trace st ->
  browser_manager (self st') = browser_manager (self st) ->
  tidy_step st st'.
Proof. intros Ht Hb. exists []. rewrite app_nil_r, Hb. by repeat split. Qed.

Lemma tidy_provider_execute_task adapter task_info :
  tidy (W := W) (Provider.execute_task adapter task_info).
Proof. unfold Provider.execute_task. tidy_tac. Qed.

Lemma tidy_create_error_result msg : tidy (W := W) (_create_error_result msg).
Proof. unfold _create_error_result. tidy_tac. Qed.

Lemma tidy_interpret instruction :
  tidy (W := W) (_interpret_instruction model json_loads prompt_of instruction).
Proof. unfold _interpret_instruction. tidy_tac. Qed.

Lemma tidy_selected_or_none selected : tidy (W := W) (selected_or_none selected).
Proof. unfold selected_or_none. tidy_tac. Qed.

Lemma tidy_select_provider task_info : tidy (W := W) (_select_provider task_info).
Proof.
  unfold _select_provider.
  apply tidy_try_except; [|intros; tidy_tac].
  apply tidy_bind; [tidy_tac|]. intros _.
  apply tidy_bind; [tidy_tac|]. intros preference.
  apply tidy_bind; [tidy_tac|]. intros me.
  destruct (is_str preference "auto").
  - destruct (Config.get_available_providers (config me)); [tidy_tac|].
    apply tidy_selected_or_none.
  - destruct (is_str preference "gmail" || is_str preference "outlook"); [|tidy_tac].
    destruct (Config.is_provider_configured (config me) (str preference)).
    + apply tidy_selected_or_none.
    + apply tidy_bind; [tidy_tac|]. intros _. apply tidy_selected_or_none.
Qed.

Lemma tidy_get_provider_adapter provider_name :
  tidy (W := W) (_get_provider_adapter provider_name).
Proof.
  intros st r st'. unfold _get_provider_adapter, bind, get_self.
  destruct (providers (self st) !! provider_name).
  { intros [= <- <-]. apply tidy_step_refl. }
  unfold try_except, bind, set_self, modify, ret, log_error, emit, modify.
  destruct (String.eqb provider_name "gmail");
    [|destruct (String.eqb provider_name "outlook")];
    intros [= <- <-]; by apply tidy_step_silent.
Qed.

Lemma tidy_execute_task provider_name task_info :
  tidy (W := W) (_execute_task provider_name task_info).
Proof.
  unfold _execute_task.
  apply tidy_try_except; [|intros; tidy_tac; apply tidy_create_error_result].
  apply tidy_bind; [tidy_tac|]. intros _.
  apply tidy_bind; [apply tidy_get_provider_adapter|]. intros [adapter|].
  - apply tidy_bind; [apply tidy_provider_execute_task|]. intros result.
    tidy_tac.
  - apply tidy_create_error_result.
Qed.

(** [_initialize_browser] constructs a browser manager and starts it; it
    sets [self.browser_manager] as soon as the constructor has
    returned. *)
Lemma tidy_initialize_browser : tidy (W := W) _initialize_browser.
Proof.
  intros st r st'.
  unfold _initialize_browser, try_except, bind, log_step, emit, modify, ext,
    set_browser_manager, bind, get_self, set_self, modify, log_error, emit, modify, raise.
  cbn [world trace sink actions self].
  destruct (respond BrowserNew (world st)) as [[[]|e] w1];
    cbn [world trace sink actions self error_of].
  - destruct (respond BrowserStart w1) as [[[]|e] w2];
      cbn [world trace sink actions self error_of].
    + rewrite TotalFacts.log_action_acted. intros [= <- <-].
      eexists [_; _]. cbn [acted trace self browser_manager].
      rewrite <- app_assoc. by repeat split.
    + intros [= <- <-]. eexists [_; _]. cbn [trace self browser_manager].
      rewrite <- app_assoc. by repeat split.
  - intros [= <- <-]. eexists [_]. cbn [trace self]. by repeat split.
Qed.

Lemma tidy_execute_try instruction start_time :
  tidy (W := W) (execute_try model json_loads prompt_of instruction start_time).
Proof.
  unfold execute_try.
  apply tidy_bind; [tidy_tac|]. intros _.
  apply tidy_bind; [apply tidy_interpret|]. intros [task_info|].
  2:{ apply tidy_create_error_result. }
  destruct (negb (truthy task_info)); [apply tidy_create_error_result|].
  apply tidy_bind; [apply tidy_select_provider|]. intros [provider|].
  2:{ apply tidy_create_error_result. }
  apply tidy_bind; [apply tidy_initialize_browser|]. intros _.
  apply tidy_bind; [apply tidy_execute_task|]. intros result.
  tidy_tac.
Qed.

Lemma tidy_execute_except start_time e : tidy (W := W) (execute_except start_time e).
Proof. unfold execute_except. tidy_tac. Qed.

Lemma total_execute_except start_time e : total (execute_except (W := W) start_time e).
Proof. unfold execute_except. auto 10 with total. Qed.

(** [_cleanup_browser] returns, and calls [stop] when, and only when,
    [self.browser_manager] is set. *)
Lemma cleanup_browser_run (st : state) :
  exists st',
    _cleanup_browser st = (Returned tt, st') /\
    if browser_manager (self st)
    then exists err, trace st' = trace st ++ [Call BrowserStop err]
    else trace st' = trace st.
Proof.
  unfold _cleanup_browser, try_except, bind, get_self.
  destruct (browser_manager (self st)).
  - unfold ext, set_browser_manager, bind, get_self, set_self, modify, emit, modify.
    cbn [world trace sink actions self].
    destruct (respond BrowserStop (world st)) as [[[]|e] w1];
      cbn [world trace sink actions self error_of].
    + rewrite TotalFacts.log_action_acted. eexists. split; [reflexivity|].
      eexists. reflexivity.
    + eexists. split; [reflexivity|]. eexists. reflexivity.
  - eexists. split; reflexivity.
Qed.

(** C1, as the code has it. A run of [execute] returns a result, and it
    calls [stop] exactly once if it has constructed a browser manager,
    whatever happened after that, and not at all otherwise; a run that
    has called [start] has constructed one, so it calls [stop]; and the
    call of [stop] is the last call of the run. *)
Theorem stop_called_once_per_session instruction (st : state) :
  browser_manager (self st) = false ->
  exists result st' new,
    run instruction st = (Returned result, st') /\
    trace st' = trace st ++ new /\
    stops new = (if constructed new then 1 else 0)%nat /\
    (0 < starts new -> stops new = 1)%nat /\
    (constructed new = true ->
     exists before err, new = before ++ [Call BrowserStop err] /\ stops before = 0%nat).
Proof.
  intros Hbm. unfold execute, bind at 1, time.
  destruct (time_time (world st)) as [t0 w0].
  set (st1 := mkEnv w0 (trace st) (sink st) (actions st) (self st)).
  unfold try_finally.
  destruct (TotalFacts.total_try_except
              (execute_try model json_loads prompt_of instruction t0)
              (execute_except t0) (total_execute_except t0) st1)
    as (result & st2 & Hg).
  rewrite Hg.
  destruct (tidy_try_except _ _ (tidy_execute_try instruction t0)
              (tidy_execute_except t0) _ _ _ Hg)
    as (n & Htr & Hs & Hc & Hb).
  destruct (cleanup_browser_run st2) as (st3 & Hclean & Htr3).
  rewrite Hclean. rewrite Hb in Htr3. cbn [st1 self trace] in *. rewrite Hbm in Htr3.
  destruct (constructed n) eqn:Hcon.
  - destruct Htr3 as (err & Htr3).
    exists result, st3, (n ++ [Call BrowserStop err]). split; [reflexivity|].
    rewrite Htr3, Htr, <- app_assoc, stops_app, constructed_app, Hs, Hcon.
    split; [reflexivity|]. split; [reflexivity|]. split; [reflexivity|].
    intros _. by exists n, err.
  - exists result, st3, n. split; [reflexivity|].
    rewrite Htr3, Htr, Hcon, Hs. split; [reflexivity|]. split; [reflexivity|].
    split; [rewrite (Hc eq_refl); lia|discriminate].
Qed.





Lemma warnings_app l1 l2 : warnings (l1 ++ l2) = warnings l1 ++ warnings l2.
Proof. apply omap_app. Qed.


(** A preference that is none of "auto", "gmail" and "outlook" selects
    nothing, whatever is configured: there is no falling back from it. *)
Lemma select_unknown_preference d (st : state) :
  is_str (default (VStr "auto") (dict_get "provider_preference" d)) "auto" = false ->
  is_str (default (VStr "auto") (dict_get "provider_preference" d)) "gmail"
  || is_str (default (VStr "auto") (dict_get "provider_preference" d)) "outlook" = false ->
  exists st' lines,
    _select_provider (VDict d) st = (Returned None, st') /\
    sink st' = sink st ++ lines /\
    warnings lines = [].
Proof.
  intros Hauto Hnamed.
  unfold _select_provider, try_except, bind at 1 2 3, log_step, emit, modify, lift, method_get,
    get_self.
  cbn [world trace sink actions self].
  change (match dict_get "provider_preference" d with
          | Some x => x
          | None => VStr "auto"
          end) with (default (VStr "auto") (dict_get "provider_preference" d)).
  rewrite Hauto, Hnamed.
  eexists _, [_; _]. unfold bind, log_error, emit, modify, ret. cbn [sink].
  rewrite <- app_assoc. split; [reflexivity|]. split; reflexivity.
Qed.






End Facts.

(** An agent cannot be made from a configuration without a provider:
    [validate] raises in [__init__]. *)
Lemma init_requires_provider (cfg : Config.Config) :
  Config.get_available_providers cfg = [] -> returned (Agent.init cfg) = false.
Proof.
  unfold Agent.init, Config.validate, Config.get_available_providers.
  destruct (String.eqb (Config.openai_api_key cfg) ""); [reflexivity|].
  destruct (Config.given (Config.gmail_email cfg) && Config.given (Config.gmail_password cfg)),
    (Config.given (Config.outlook_email cfg) && Config.given (Config.outlook_password cfg));
    cbn; (reflexivity || discriminate).
Qed.

Import Scenario.

(** A run that goes through: the browser is constructed, started, used
    and stopped, once. *)
Lemma stop_called_once_per_session_witness :
  browser_manager (self (agent_in plain_config (page_world []))) = false /\
  exists result st',
    execute model_down no_json bare_prompt sample_instruction
      (agent_in plain_config (page_world [])) = (Returned result, st') /\
    stops (trace st') = 1%nat.
Proof.
  split; [reflexivity|].
  destruct (stop_called_once_per_session model_down no_json bare_prompt sample_instruction
              (agent_in plain_config (page_world [])) eq_refl)
    as (result & st' & new & Hrun & Htr & Hstops & _).
  exists result, st'. split; [exact Hrun|].
  assert (Hcon : constructed (trace st') = true).
  { revert Hrun. vm_compute. intros [= _ <-]. reflexivity. }
  rewrite Htr in Hcon |- *. cbn [agent_in trace app] in *.
  rewrite Hstops, Hcon. reflexivity.
Defined.

(** The claim C1 as it is written fails on a run that ends before a
    browser manager exists: with no provider configured, [stop] is not
    called. *)
Lemma no_provider_run_never_stops :
  exists result st',
    execute model_down no_json bare_prompt sample_instruction
      (agent_in no_provider_config (page_world [])) = (Returned result, st') /\
    dict_get "error" result = Some (VStr "No suitable provider available") /\
    stops (trace st') = 0%nat /\
    stops (trace st') <> 1%nat.
Proof.
  eexists _, _. split; [vm_compute; reflexivity|].
  split; [reflexivity|]. split; [reflexivity|]. discriminate.
Qed.



End ExecuteFacts.

(** * Further properties *)

(** ** The action logger, further *)

Module LoggerMore.
Import Logger LoggerFacts.

(** X1. [clear_actions] empties the list of the logger and nothing else:
    a list handed out by [get_actions] before keeps its items, and every
    other object, the record dicts among them, is as it was. *)
Theorem clear_actions_spares_copies (self : ActionLogger) (st : store) (xs : list loc) :
  objs st !! actions self = Some (OList xs) ->
  exists c st1 st2,
    get_actions self st = (Returned c, st1) /\
    clear_actions self st1 = (Returned tt, st2) /\
    items_at (actions self) st2 = [] /\
    items_at c st2 = xs /\
    forall l, l <> actions self -> objs st2 !! l = objs st1 !! l.
Proof.
  intros Hself.
  destruct (get_actions_allocates self st xs Hself)
    as (c & st1 & Hget & Hne & Hc & Hs1).
  exists c, st1. eexists. split; [exact Hget|]. split; [reflexivity|].
  unfold items_at in *. cbn [objs].
  split; [|split].
  - rewrite lookup_alter_eq.
    destruct (objs st1 !! actions self) as [[]|]; try done.
  - rewrite lookup_alter_ne by done. exact Hc.
  - intros l Hl. by rewrite lookup_alter_ne.
Qed.

Lemma clear_actions_spares_copies_witness :
  exists c st1 st2,
    get_actions Scenario.sample_logger (snd Scenario.sample_run) = (Returned c, st1) /\
    clear_actions Scenario.sample_logger st1 = (Returned tt, st2) /\
    items_at (actions Scenario.sample_logger) st2 = [] /\
    length (items_at c st2) = 1%nat.
Proof.
  destruct (clear_actions_spares_copies Scenario.sample_logger (snd Scenario.sample_run)
    (items_at (actions Scenario.sample_logger) (snd Scenario.sample_run)))
    as (c & st1 & st2 & H1 & H2 & H3 & H4 & _).
  - vm_compute. reflexivity.
  - exists c, st1, st2. repeat split; try assumption. rewrite H4. reflexivity.
Defined.

(** X2. The copy of [get_actions] is shallow: it lists the very record
    dicts of the logger. A write into one of them through the copy is seen
    through the logger's own list, which still lists the same dicts. *)
Theorem get_actions_shares_records (self : ActionLogger) (st : store)
    (xs : list loc) (d : loc) (r : ActionRecord) (f : ActionRecord -> ActionRecord) :
  objs st !! actions self = Some (OList xs) ->
  d ∈ xs ->
  objs st !! d = Some (ODict r) ->
  exists c st1 st2,
    get_actions self st = (Returned c, st1) /\
    d ∈ items_at c st1 /\
    update_record d f st1 = (Returned tt, st2) /\
    items_at (actions self) st2 = xs /\
    items_at c st2 = xs /\
    record_at d st2 = Some (f r).
Proof.
  intros Hself Hin Hd.
  destruct (get_actions_allocates self st xs Hself)
    as (c & st1 & Hget & Hne & _ & Hs & Hc & Hother).
  assert (Hdc : d <> c).
  { intros ->. destruct (get_actions_allocates self st xs Hself)
      as (c' & st1' & Hget' & _). rewrite Hget in Hget'.
    injection Hget' as <- <-.
    unfold get_actions, bind, get in Hget. rewrite alloc_spec in Hget.
    injection Hget as Hc' _.
    pose proof (fresh_loc_unused st) as Hfresh.
    rewrite Hc' in Hfresh. congruence. }
  assert (Hds : d <> actions self) by (intros ->; congruence).
  exists c, st1. eexists. split; [exact Hget|].
  split; [unfold items_at; by rewrite Hc|].
  split; [reflexivity|].
  unfold items_at, record_at. cbn [objs].
  rewrite !lookup_alter_ne by done. rewrite Hs, Hc.
  split; [reflexivity|]. split; [reflexivity|].
  rewrite lookup_alter_eq, (Hother d Hdc), Hd. reflexivity.
Qed.

Lemma get_actions_shares_records_witness :
  exists c st1 st2,
    get_actions Scenario.sample_logger (snd Scenario.sample_run) = (Returned c, st1) /\
    2%positive ∈ items_at c st1 /\
    update_record 2%positive
      (fun r => mkAction (action r) false (details r) (timestamp r)) st1
      = (Returned tt, st2) /\
    items_at (actions Scenario.sample_logger) st2
      = items_at (actions Scenario.sample_logger) (snd Scenario.sample_run) /\
    items_at c st2 = items_at (actions Scenario.sample_logger) (snd Scenario.sample_run) /\
    option_map success (record_at 2%positive st2) = Some false.
Proof.
  destruct (get_actions_shares_records Scenario.sample_logger (snd Scenario.sample_run)
    (items_at (actions Scenario.sample_logger) (snd Scenario.sample_run)) 2%positive
    (default (mkAction "" true None "") (record_at 2%positive (snd Scenario.sample_run)))
    (fun r => mkAction (action r) false (details r) (timestamp r)))
    as (c & st1 & st2 & H1 & H2 & H3 & H4 & H5 & H6).
  - vm_compute. reflexivity.
  - vm_compute. apply list_elem_of_In. vm_compute. tauto.
  - vm_compute. reflexivity.
  - exists c, st1, st2. repeat split; try assumption.
    rewrite H6. reflexivity.
Defined.

End LoggerMore.

(** ** Configuration *)

Module ConfigFacts.
Import Config.

Lemma given_spec (o : option string) :
  given o = true <-> exists s, o = Some s /\ s <> "".
Proof.
  destruct o as [s|]; cbn.
  - destruct (String.eqb_spec s ""); cbn; split.
    + discriminate.
    + intros (s' & [= <-] & Hs). contradiction.
    + intros _. eauto.
    + reflexivity.
  - split; [discriminate|]. intros (s & [=] & _).
Qed.

Lemma configured_gmail (cfg : Config) :
  is_provider_configured cfg "gmail"
  = given (gmail_email cfg) && given (gmail_password cfg).
Proof.
  unfold is_provider_configured, get_available_providers.
  destruct (given (gmail_email cfg) && given (gmail_password cfg)),
    (given (outlook_email cfg) && given (outlook_password cfg)); reflexivity.
Qed.

Lemma configured_outlook (cfg : Config) :
  is_provider_configured cfg "outlook"
  = given (outlook_email cfg) && given (outlook_password cfg).
Proof.
  unfold is_provider_configured, get_available_providers.
  destruct (given (gmail_email cfg) && given (gmail_password cfg)),
    (given (outlook_email cfg) && given (outlook_password cfg)); reflexivity.
Qed.

Lemma configured_known (cfg : Config) (p : string) :
  is_provider_configured cfg p = true -> p = "gmail" \/ p = "outlook".
Proof.
  unfold is_provider_configured. intros H. apply bool_decide_eq_true in H.
  apply list_elem_of_In in H. revert H. unfold get_available_providers.
  destruct (given (gmail_email cfg) && given (gmail_password cfg)),
    (given (outlook_email cfg) && given (outlook_password cfg)); cbn; intuition.
Qed.

(** X3. [validate] returns [True] exactly when the API key is not empty and
    [get_available_providers] is not empty; otherwise it raises: it never
    returns [False]. *)
Theorem validate_iff_usable (cfg : Config) :
  (validate cfg = Returned true <->
     openai_api_key cfg <> "" /\ get_available_providers cfg <> []) /\
  validate cfg <> Returned false /\
  (openai_api_key cfg = "" -> validate cfg = Raised "OpenAI API key is required").
Proof.
  unfold validate, get_available_providers.
  destruct (String.eqb_spec (openai_api_key cfg) "") as [E|E];
    destruct (given (gmail_email cfg) && given (gmail_password cfg)),
      (given (outlook_email cfg) && given (outlook_password cfg)); cbn;
    repeat split; try discriminate; try tauto; try congruence;
    intros [? ?]; congruence.
Qed.

(** X4. A provider is configured exactly when [get_provider_credentials]
    returns for it an email and a password that are both present and not
    empty. *)
Theorem configured_iff_credentials (cfg : Config) (p : string) :
  is_provider_configured cfg p = true <->
  exists e pw,
    get_provider_credentials cfg p = Returned (mkCredentials (Some e) (Some pw)) /\
    e <> "" /\ pw <> "".
Proof.
  split.
  - intros H. destruct (configured_known cfg p H) as [-> | ->].
    + rewrite configured_gmail in H. apply andb_true_iff in H as [He Hp].
      apply given_spec in He as (e & He & Hne), Hp as (pw & Hp & Hnp).
      exists e, pw. unfold get_provider_credentials. cbn. rewrite He, Hp. auto.
    + rewrite configured_outlook in H. apply andb_true_iff in H as [He Hp].
      apply given_spec in He as (e & He & Hne), Hp as (pw & Hp & Hnp).
      exists e, pw. unfold get_provider_credentials. cbn. rewrite He, Hp. auto.
  - intros (e & pw & H & Hne & Hnp). unfold get_provider_credentials in H.
    destruct (String.eqb_spec p "gmail") as [-> | _].
    + injection H as He Hp. rewrite configured_gmail. apply andb_true_iff.
      split; apply given_spec; eauto.
    + destruct (String.eqb_spec p "outlook") as [-> | _]; [|discriminate].
      injection H as He Hp. rewrite configured_outlook. apply andb_true_iff.
      split; apply given_spec; eauto.
Qed.

(** X5. [get_provider_credentials] raises exactly for a name other than
    "gmail" and "outlook", with the name in the message; such a name is
    never a configured provider. For "gmail" and "outlook" it returns the
    stored fields whether or not they are set. *)
Theorem credentials_raise_iff_unknown (cfg : Config) (p : string) :
  ((exists msg, get_provider_credentials cfg p = Raised msg) <->
     p <> "gmail" /\ p <> "outlook") /\
  (p <> "gmail" -> p <> "outlook" ->
     get_provider_credentials cfg p = Raised ("Unknown provider: " +:+ p) /\
     is_provider_configured cfg p = false).
Proof.
  split.
  - unfold get_provider_credentials.
    destruct (String.eqb_spec p "gmail") as [-> | Hg].
    { split; [intros (? & [=])|intros [? _]; congruence]. }
    destruct (String.eqb_spec p "outlook") as [-> | Ho].
    { split; [intros (? & [=])|intros [_ ?]; congruence]. }
    split; eauto.
  - intros Hg Ho. split.
    + unfold get_provider_credentials.
      destruct (String.eqb_spec p "gmail"); [contradiction|].
      destruct (String.eqb_spec p "outlook"); [contradiction|]. reflexivity.
    + destruct (is_provider_configured cfg p) eqn:E; [|reflexivity].
      destruct (configured_known cfg p E); contradiction.
Qed.

Lemma validate_iff_usable_witness :
  validate Scenario.plain_config = Returned true /\
  validate Scenario.plain_config <> Returned false.
Proof.
  destruct (validate_iff_usable Scenario.plain_config) as (Hiff & Hnever & _).
  split; [|exact Hnever]. apply Hiff. split; discriminate.
Defined.

Lemma configured_iff_credentials_witness :
  exists e pw,
    get_provider_credentials Scenario.plain_config "gmail"
      = Returned (mkCredentials (Some e) (Some pw)) /\
    e <> "" /\ pw <> "".
Proof.
  apply (proj1 (configured_iff_credentials Scenario.plain_config "gmail")).
  reflexivity.
Defined.

Lemma credentials_raise_iff_unknown_witness :
  get_provider_credentials Scenario.plain_config "yahoo" = Raised "Unknown provider: yahoo" /\
  is_provider_configured Scenario.plain_config "yahoo" = false.
Proof.
  apply (credentials_raise_iff_unknown Scenario.plain_config "yahoo"); discriminate.
Defined.

End ConfigFacts.

(** ** The interpreter, further *)

Module LLMMore.
Import Py Regex LLM RegexFacts LLMFacts.

Lemma length_text (l : list ascii) : String.length (text l) = length l.
Proof. induction l as [|c l IH]; cbn; [reflexivity|]. f_equal. exact IH. Qed.

(** X6. A generated subject is never longer than 50 characters, and a
    text cut to fit ends in three dots. *)
Theorem generate_subject_at_most_50 (content : string) :
  (String.length (_generate_subject content) <= 50)%nat /\
  ((50 < length (join (chars " ") (take 5 (split (chars content)))))%nat ->
     String.length (_generate_subject content) = 50%nat /\
     drop 47 (chars (_generate_subject content)) = chars "...").
Proof.
  unfold _generate_subject.
  set (subject := join (chars " ") (take 5 (split (chars content)))).
  destruct (Nat.ltb_spec 50 (length subject)) as [Hlong|Hshort].
  - assert (Hlen : length (take 47 subject) = 47%nat)
      by (apply length_take_le; lia).
    rewrite length_text, chars_text, length_app, Hlen.
    split; [cbn; lia|]. intros _. split; [reflexivity|].
    rewrite <- Hlen at 1. apply drop_app_length.
  - rewrite length_text. split; [exact Hshort|]. lia.
Qed.

Lemma generate_subject_at_most_50_witness :
  String.length (_generate_subject
    "Congratulations everybody, responsibilities notwithstanding, extraordinarily well done")
  = 50%nat.
Proof.
  apply (generate_subject_at_most_50
    "Congratulations everybody, responsibilities notwithstanding, extraordinarily well done").
  vm_compute. lia.
Defined.

Lemma email_shaped_at_sign (m : list ascii) : email_shaped m -> (1 <= at_signs m)%nat.
Proof.
  intros (loc & dom & tld & -> & _). unfold at_signs.
  rewrite (count_occ_elt_eq ascii_dec loc _ eq_refl). lia.
Qed.

Lemma scan_at_signs (p : pattern) prev s ms :
  Scan p prev s ms ->
  Forall (fun m => (1 <= at_signs m)%nat) ms ->
  (length ms <= at_signs s)%nat.
Proof.
  induction 1 as [prev Hm|prev c s ms Hm Hscan IH|prev m rest ms Hne Hm Hscan IH];
    intros Hall.
  - cbn. lia.
  - specialize (IH Hall). unfold at_signs in *. cbn [count_occ].
    destruct (ascii_dec c "@"); lia.
  - inversion Hall as [|? ? H1 Hrest]; subst. specialize (IH Hrest).
    unfold at_signs in *. rewrite count_occ_app. cbn [length]. lia.
Qed.

Lemma findall_at_signs (s : string) :
  (length (findall EMAIL s) <= at_signs (chars s))%nat.
Proof.
  unfold findall. rewrite length_map.
  pose proof (findall_go_scan EMAIL email_match_nonempty (chars s) None) as Hscan.
  apply (scan_at_signs _ _ _ _ Hscan).
  eapply Forall_impl; [exact (scan_email_shaped _ _ _ Hscan)|].
  intros m Hm. by apply email_shaped_at_sign.
Qed.

Lemma findall_no_at (s : string) : "@"%char ∉ chars s -> findall EMAIL s = [].
Proof.
  intros Hno. pose proof (findall_at_signs s) as Hlen.
  assert (at_signs (chars s) = 0%nat) as E.
  { unfold at_signs. apply count_occ_not_In. by rewrite <- list_elem_of_In. }
  rewrite E in Hlen. destruct (findall EMAIL s); [reflexivity|cbn in Hlen; lia].
Qed.

(** X7. [_fallback_parsing] finds at most as many recipients as the
    instruction has at signs; an instruction without one gets the empty
    list. *)
Theorem fallback_recipients_bounded (instruction : string) :
  exists ms,
    recipients_of (fallback_record instruction) = Some (VList (map VStr ms)) /\
    (length ms <= at_signs (chars instruction))%nat /\
    ("@"%char ∉ chars instruction -> ms = []).
Proof.
  exists (findall EMAIL instruction). split; [reflexivity|].
  split; [apply findall_at_signs|apply findall_no_at].
Qed.

Lemma fallback_recipients_bounded_witness :
  exists ms,
    recipients_of (fallback_record "Send the report to the whole team") = Some (VList (map VStr ms)) /\
    ms = [].
Proof.
  destruct (fallback_recipients_bounded "Send the report to the whole team")
    as (ms & H1 & _ & H3).
  exists ms. split; [exact H1|]. apply H3.
  rewrite list_elem_of_In. vm_compute. intuition discriminate.
Defined.

Lemma dict_set_id k v d : dict_get k d = Some v -> dict_set k v d = d.
Proof.
  induction d as [|[k' v'] d IH]; cbn; [discriminate|].
  destruct (String.eqb_spec k k') as [->|Hne].
  - by intros [= ->].
  - intros H. by rewrite IH.
Qed.

Lemma dict_has_set k k' v d : dict_has k d = true -> dict_has k (dict_set k' v d) = true.
Proof.
  unfold dict_has. intros H. destruct (String.eqb_spec k' k) as [->|Hne].
  - by rewrite dict_get_set_same.
  - by rewrite dict_get_set_other.
Qed.

Lemma fold_defaults_id : forall ds d,
  (forall kv, In kv ds -> dict_has (fst kv) d = true) ->
  fold_left (fun d kv => if dict_has (fst kv) d then d
                         else dict_set (fst kv) (snd kv) d) ds d = d.
Proof.
  induction ds as [|kv ds IH]; intros d H; cbn; [reflexivity|].
  rewrite (H kv) by (left; reflexivity). apply IH. intros kv' Hin. apply H. by right.
Qed.

Lemma dict_get_in k : forall (ds : list (string * value)),
  In k (map fst ds) -> dict_get k ds <> None.
Proof.
  induction ds as [|[k' v'] ds IH]; cbn; [tauto|].
  intros [->|Hin]; [by rewrite String.eqb_refl|].
  destruct (String.eqb k k'); [discriminate|auto].
Qed.

Lemma dict_get_not_in k : forall (ds : list (string * value)),
  ~ In k (map fst ds) -> dict_get k ds = None.
Proof.
  induction ds as [|[k' v'] ds IH]; cbn; [reflexivity|].
  intros H. destruct (String.eqb_spec k k') as [->|Hne]; [tauto|]. apply IH. tauto.
Qed.

Lemma dict_has_fill_defaults k d :
  In k (map fst defaults) -> dict_has k (fill_defaults d) = true.
Proof.
  intros Hin. unfold dict_has. rewrite dict_get_fill_defaults.
  destruct (dict_get k d); [reflexivity|].
  pose proof (dict_get_in k defaults Hin). by destruct (dict_get k defaults).
Qed.

Lemma dict_has_clean_recipients k d :
  dict_has k d = true -> dict_has k (clean_recipients d) = true.
Proof.
  intros H. unfold clean_recipients.
  destruct (dict_get "recipients" d) as [[]|]; auto using dict_has_set.
Qed.

Lemma clean_recipients_not_str d s :
  dict_get "recipients" (clean_recipients d) <> Some (VStr s).
Proof.
  unfold clean_recipients.
  destruct (dict_get "recipients" d) as [[]|] eqn:E; rewrite ?E; try discriminate.
  by rewrite dict_get_set_same.
Qed.

Lemma clean_recipients_id d :
  (forall s, dict_get "recipients" d <> Some (VStr s)) -> clean_recipients d = d.
Proof.
  intros H. unfold clean_recipients.
  destruct (dict_get "recipients" d) as [[]|] eqn:E; try reflexivity.
  by destruct (H s).
Qed.

(** A dict that has the nine keys and whose recipients are no string goes
    through the defaults and the cleaning unchanged. *)
Lemma prepared_id d :
  (forall k, In k (map fst defaults) -> dict_has k d = true) ->
  (forall s, dict_get "recipients" d <> Some (VStr s)) ->
  clean_recipients (fill_defaults d) = d.
Proof.
  intros Hkeys Hrec. unfold fill_defaults. rewrite fold_defaults_id.
  - by apply clean_recipients_id.
  - intros kv Hin. apply Hkeys. by apply in_map.
Qed.

Lemma prepared_keys d k :
  In k (map fst defaults) -> dict_has k (clean_recipients (fill_defaults d)) = true.
Proof. intros Hin. by apply dict_has_clean_recipients, dict_has_fill_defaults. Qed.

(** X8. [_validate_task_info] is idempotent: validating a record that it
    returned returns the same record. *)
Theorem validate_task_info_idempotent (v r : value) :
  _validate_task_info v = Returned r ->
  _validate_task_info r = Returned r.
Proof.
  destruct v as [| | |s|l|d]; try discriminate.
  { unfold _validate_task_info. destruct (forallb _ _); discriminate. }
  rewrite validate_dict. cbn zeta.
  pose proof (prepared_subject d) as Hs.
  pose proof (prepared_content d) as Hc.
  pose proof (prepared_keys d) as Hkeys.
  pose proof (clean_recipients_not_str (fill_defaults d)) as Hrec.
  set (d2 := clean_recipients (fill_defaults d)) in *. clearbody d2.
  set (subject0 := default (VStr "") (dict_get "subject" d)) in *. clearbody subject0.
  set (content0 := default (VStr "") (dict_get "content" d)) in *. clearbody content0.
  destruct (negb (truthy subject0) && truthy content0) eqn:Hback.
  - destruct content0 as [| | |c| |]; try discriminate.
    intros [= <-]. rewrite validate_dict. cbn zeta.
    rewrite prepared_id.
    + rewrite dict_get_set_same, dict_get_set_other by apply subject_not_content.
      rewrite Hc. cbn [default from_option id].
      destruct (negb (truthy (VStr (_generate_subject c))) && truthy (VStr c));
        [|reflexivity].
      rewrite (dict_set_id "subject" (VStr (_generate_subject c))); [reflexivity|].
      apply dict_get_set_same.
    + intros k Hin. apply dict_has_set. by apply Hkeys.
    + intros s. rewrite dict_get_set_other by apply subject_not_recipients. apply Hrec.
  - intros [= <-]. rewrite validate_dict. cbn zeta.
    rewrite prepared_id by assumption.
    rewrite Hs, Hc. cbn [default from_option id]. rewrite Hback. reflexivity.
Qed.

Lemma validate_task_info_idempotent_witness :
  exists r,
    _validate_task_info (VDict [("recipients", VStr "ann@example.com, bob@example.org");
                                ("content", VStr "Minutes of the meeting")]) = Returned r /\
    _validate_task_info r = Returned r.
Proof.
  eexists. split; [vm_compute; reflexivity|].
  apply (validate_task_info_idempotent
    (VDict [("recipients", VStr "ann@example.com, bob@example.org");
            ("content", VStr "Minutes of the meeting")])).
  vm_compute. reflexivity.
Defined.

Lemma validate_keys_spec (d : list (string * value)) (r : value) :
  _validate_task_info (VDict d) = Returned r ->
  exists d',
    r = VDict d' /\
    (forall k, In k (map fst defaults) -> dict_has k d' = true) /\
    (forall k, k <> "recipients" -> k <> "subject" -> dict_has k d = true ->
       dict_get k d' = dict_get k d) /\
    (forall k, ~ In k (map fst defaults) -> dict_get k d' = dict_get k d) /\
    (forall s, dict_get "recipients" d' <> Some (VStr s)).
Proof.
  rewrite validate_dict. cbn zeta.
  pose proof (prepared_keys d) as Hkeys.
  pose proof (clean_recipients_not_str (fill_defaults d)) as Hrec.
  assert (Hkeep : forall k, k <> "recipients" -> dict_has k d = true ->
            dict_get k (clean_recipients (fill_defaults d)) = dict_get k d).
  { intros k Hk Hhas. rewrite dict_get_prepared by exact Hk.
    unfold dict_has in Hhas. by destruct (dict_get k d). }
  assert (Hout : forall k, ~ In k (map fst defaults) ->
            dict_get k (clean_recipients (fill_defaults d)) = dict_get k d).
  { intros k Hk. rewrite dict_get_prepared.
    - rewrite (dict_get_not_in k defaults Hk). by destruct (dict_get k d).
    - intros ->. apply Hk. cbn. tauto. }
  set (d2 := clean_recipients (fill_defaults d)) in *. clearbody d2.
  destruct (negb _ && _).
  - destruct (default (VStr "") (dict_get "content" d)) as [| | |c| |]; try discriminate.
    intros [= <-]. eexists. split; [reflexivity|]. repeat split.
    + intros k Hin. apply dict_has_set. by apply Hkeys.
    + intros k Hk1 Hk2 Hhas. rewrite dict_get_set_other by congruence. by apply Hkeep.
    + intros k Hk. rewrite dict_get_set_other; [by apply Hout|].
      intros <-. apply Hk. cbn. tauto.
    + intros s. rewrite dict_get_set_other by apply subject_not_recipients. apply Hrec.
  - intros [= <-]. exists d2. repeat split; auto.
Qed.

(** X9. The record that [_validate_task_info] returns has each of the nine
    keys; a key it came with keeps its value, the recipients and the
    subject apart; no key outside the nine is added; the recipients are
    never left as a string. *)
Theorem validate_task_info_keys (d : list (string * value)) (r : value) :
  _validate_task_info (VDict d) = Returned r ->
  exists d',
    r = VDict d' /\
    (forall k, In k (map fst defaults) -> dict_has k d' = true) /\
    (forall k, k <> "recipients" -> k <> "subject" -> dict_has k d = true ->
       dict_get k d' = dict_get k d) /\
    (forall k, ~ In k (map fst defaults) -> dict_get k d' = dict_get k d) /\
    (forall s, dict_get "recipients" d' <> Some (VStr s)).
Proof. apply validate_keys_spec. Qed.

Lemma validate_task_info_keys_witness :
  exists d',
    dict_has "urgency" d' = true /\
    dict_get "content" d' = Some (VStr "Minutes of the meeting") /\
    dict_get "cc" d' = None.
Proof.
  destruct (validate_task_info_keys
    [("recipients", VStr "ann@example.com"); ("content", VStr "Minutes of the meeting")]
    (VDict [("recipients", VList [VStr "ann@example.com"]);
            ("content", VStr "Minutes of the meeting");
            ("task_type", VStr "email"); ("action", VStr "send");
            ("subject", VStr "Minutes of the meeting"); ("attachments", VList []);
            ("provider_preference", VStr "auto"); ("urgency", VStr "medium");
            ("additional_context", VStr "")]))
    as (d' & _ & Hkeys & Hkeep & Hout & _).
  - vm_compute. reflexivity.
  - exists d'. split; [|split].
    + apply Hkeys. cbn. tauto.
    + rewrite Hkeep; [reflexivity|discriminate|discriminate|reflexivity].
    + rewrite Hout; [reflexivity|]. cbn. intuition discriminate.
Defined.

(** X10. [_validate_task_info] raises on a value that is no dict, and on a
    dict exactly when the subject is falsy (or missing) and the content is
    truthy but no string. *)
Theorem validate_task_info_raises_iff (v : value) :
  (exists e, _validate_task_info v = Raised e) <->
  (forall d, v <> VDict d) \/
  (exists d, v = VDict d /\
     let subject0 := default (VStr "") (dict_get "subject" d) in
     let content0 := default (VStr "") (dict_get "content" d) in
     truthy subject0 = false /\ truthy content0 = true /\
     forall c, content0 <> VStr c).
Proof.
  destruct v as [| | |s|l|d].
  1-5: split; [intros _; left; discriminate|intros _].
  1-3,5: eexists; reflexivity.
  { unfold _validate_task_info. destruct (forallb _ _); eexists; reflexivity. }
  rewrite validate_dict. cbn zeta. split.
  - intros (e & He). right. exists d. split; [reflexivity|]. cbn zeta.
    destruct (truthy (default (VStr "") (dict_get "subject" d))); [discriminate|].
    destruct (truthy (default (VStr "") (dict_get "content" d))); [|discriminate].
    cbn in He. repeat split.
    intros c Hc. rewrite Hc in He. discriminate.
  - intros [Hno|(d' & [= <-] & Hs & Hc & Hstr)]; [by destruct (Hno d)|].
    cbn zeta in *. rewrite Hs, Hc. cbn.
    destruct (default (VStr "") (dict_get "content" d)) as [| | |c| |];
      try (eexists; reflexivity).
    by destruct (Hstr c).
Qed.

Lemma validate_task_info_raises_iff_witness :
  exists e, _validate_task_info (VDict [("content", VInt 5)]) = Raised e.
Proof.
  apply (proj2 (validate_task_info_raises_iff (VDict [("content", VInt 5)]))).
  right. exists [("content", VInt 5)]. split; [reflexivity|].
  cbn. repeat split. discriminate.
Defined.

End LLMMore.

(** ** Paths *)

Module PathFacts.

(** Two names of one component are joined by a slash. *)
Lemma split_on_plain : forall s cur,
  forallb (fun c => negb (Ascii.eqb c "/"%char)) s = true ->
  split_on "/"%char cur s = [rev cur ++ s].
Proof.
  induction s as [|c s IH]; intros cur Hs; cbn [split_on].
  - by rewrite app_nil_r.
  - cbn [forallb] in Hs. apply andb_true_iff in Hs as [Hc Hs].
    apply negb_true_iff in Hc. rewrite Hc, (IH _ Hs). cbn [rev].
    by rewrite <- app_assoc.
Qed.

Lemma text_app (l k : list ascii) : text (l ++ k) = text l +:+ text k.
Proof.
  unfold text. induction l as [|c l IH]; [reflexivity|].
  cbn [app string_of_list_ascii]. rewrite IH. reflexivity.
Qed.

Lemma path_parts_plain p :
  plain_name p = true -> path_parts p = ([], [chars p]).
Proof.
  unfold plain_name. intros [[Hne Hdot]%andb_true_iff Hs]%andb_true_iff.
  apply negb_true_iff, String.eqb_neq in Hne, Hdot.
  unfold path_parts. cbv zeta. rewrite (split_on_plain _ [] Hs). cbn [rev app].
  assert (Hlead : leading "/"%char (chars p) = 0%nat).
  { destruct (chars p) as [|c s]; [reflexivity|]. cbn in *.
    apply andb_true_iff in Hs as [Hc _]. apply negb_true_iff in Hc. by rewrite Hc. }
  rewrite Hlead. cbn [Nat.eqb Nat.leb List.filter].
  assert (chars p <> []) as H1.
  { intros E. apply Hne. by rewrite <- (LLMFacts.text_chars p), E. }
  assert (chars p <> ["."%char]) as H2.
  { intros E. apply Hdot. by rewrite <- (LLMFacts.text_chars p), E. }
  destruct (chars p) as [|c [|c' s]]; [done| |];
    destruct c as [[] [] [] [] [] [] [] []]; try reflexivity; done.
Qed.

Lemma path_join_plain directory name :
  plain_name directory = true -> plain_name name = true ->
  path_join directory name = directory +:+ "/" +:+ name.
Proof.
  intros Hd Hn. unfold path_join. rewrite (path_parts_plain _ Hd), (path_parts_plain _ Hn).
  unfold path_str. cbn [app join].
  by rewrite !text_app, !LLMFacts.text_chars.
Qed.

(** Paths: [str] of a path is never the empty string. *)
Lemma path_str_nonempty root parts :
  Forall (fun part => part <> []) parts -> path_str root parts <> "".
Proof.
  intros Hparts. destruct root as [|c root]; destruct parts as [|part parts]; try discriminate.
  apply Forall_cons_1 in Hparts as [Hpart _].
  destruct part as [|c part]; [done|].
  unfold path_str. cbn [app]. destruct parts; discriminate.
Qed.

Lemma path_parts_named p : Forall (fun part => part <> []) (snd (path_parts p)).
Proof.
  unfold path_parts. cbn [snd]. apply Forall_forall. intros part Hin.
  apply list_elem_of_In, filter_In in Hin as [_ Hnamed].
  by destruct part.
Qed.

Lemma path_join_nonempty directory name : path_join directory name <> "".
Proof.
  unfold path_join.
  pose proof (path_parts_named directory) as Hd.
  pose proof (path_parts_named name) as Hn.
  destruct (path_parts directory) as [droot dparts], (path_parts name) as [nroot nparts].
  cbn [snd] in *.
  destruct nroot; apply path_str_nonempty; [by apply Forall_app|done].
Qed.

(** Paths are joined as [pathlib] joins them: a name that starts with a
    slash replaces the directory, an empty name gives the directory, and
    empty components and dots are dropped. *)
Example path_join_cases :
  path_join "screenshots" "error_step_3.png" = "screenshots/error_step_3.png" /\
  path_join "screenshots" "/tmp/page.html" = "/tmp/page.html" /\
  path_join "screenshots" "" = "screenshots" /\
  path_join "screenshots" "./a//b/" = "screenshots/a/b".
Proof. repeat split. Qed.

End PathFacts.

(** ** The browser manager, further *)

Module BrowserMore.
Import Logger World Browser BrowserFacts PathFacts.

Section Facts.
Context {W : Type} `{Handler W}.

Abbreviation state := (env W BrowserManager).

Section Keeps.
Context {X : Type} (h : list event -> BrowserManager -> X).

Lemma keeps_ret {A} (a : A) : keeps (W:=W) h (ret a).
Proof. intros st. reflexivity. Qed.

Lemma keeps_raise {A} e : keeps (W:=W) (A:=A) h (raise e).
Proof. intros st. reflexivity. Qed.

Lemma keeps_lift {A} (o : outcome A) : keeps (W:=W) h (lift o).
Proof. intros st. reflexivity. Qed.

Lemma keeps_bind {A B} (m : M state A) (k : A -> M state B) :
  keeps h m -> (forall a, keeps h (k a)) -> keeps h (bind m k).
Proof.
  intros Hm Hk st. unfold bind. specialize (Hm st).
  destruct (m st) as [[a|e] st1]; cbn [snd] in *; [|exact Hm].
  rewrite <- Hm. apply Hk.
Qed.

Lemma keeps_try_except {A} (body : M state A) handler :
  keeps h body -> (forall e, keeps h (handler e)) -> keeps h (try_except body handler).
Proof.
  intros Hm Hk st. unfold try_except. specialize (Hm st).
  destruct (body st) as [[a|e] st1]; cbn [snd] in *; [exact Hm|].
  rewrite <- Hm. apply Hk.
Qed.

Lemma keeps_emit lv msg : keeps (W:=W) h (emit lv msg).
Proof. intros st. reflexivity. Qed.

Lemma keeps_clock : keeps (W:=W) h clock.
Proof. intros st. unfold clock. by destruct (now (world st)). Qed.

Lemma keeps_time : keeps (W:=W) h time.
Proof. intros st. unfold time. by destruct (time_time (world st)). Qed.

Lemma keeps_get_self : keeps (W:=W) h get_self.
Proof. intros st. reflexivity. Qed.

Lemma keeps_log_step step description : keeps (W:=W) h (log_step step description).
Proof. apply keeps_emit. Qed.

Lemma keeps_log_error message exception : keeps (W:=W) h (log_error message exception).
Proof. apply keeps_emit. Qed.

Lemma keeps_log_success message : keeps (W:=W) h (log_success message).
Proof. apply keeps_emit. Qed.

Lemma keeps_log_action act ok det : keeps (W:=W) h (log_action act ok det).
Proof. intros st. rewrite log_action_run. reflexivity. Qed.

Lemma keeps_ext c :
  (forall tr e s, h (tr ++ [Call c e]) s = h tr s) -> keeps (W:=W) h (ext c).
Proof.
  intros Hc st. unfold ext. destruct (respond c (world st)) as [r w].
  cbn [snd trace self]. apply Hc.
Qed.

End Keeps.

Section KeepsPage.
Context {X : Type} (h : list event -> BrowserManager -> X).
Hypothesis Hpage : forall c, is_capture c = false ->
  forall tr e s, h (tr ++ [Call c e]) s = h tr s.

Lemma keeps_navigate url : keeps (W:=W) h (navigate url).
Proof using Type*.
  unfold navigate. apply keeps_try_except.
  - apply keeps_bind; [apply keeps_log_step|intros _].
    apply keeps_bind; [by apply keeps_ext, Hpage|intros _].
    apply keeps_bind; [apply keeps_log_action|intros _]. apply keeps_ret.
  - intros e. apply keeps_bind; [apply keeps_log_action|intros _]. apply keeps_ret.
Qed.

Lemma keeps_click_loop n : forall sels i, keeps (W:=W) h (click_loop n i sels).
Proof using Type*.
  induction sels as [|sel rest IH]; intros i; cbn [click_loop]; [apply keeps_ret|].
  apply keeps_bind.
  - apply keeps_try_except.
    + apply keeps_bind; [apply keeps_log_step|intros _].
      apply keeps_bind; [by apply keeps_ext, Hpage|intros _].
      apply keeps_bind; [by apply keeps_ext, Hpage|intros _].
      apply keeps_bind; [apply keeps_log_action|intros _]. apply keeps_ret.
    + intros e. destruct (i =? n - 1)%nat.
      * apply keeps_bind; [apply keeps_log_action|intros _]. apply keeps_ret.
      * apply keeps_bind; [apply keeps_emit|intros _]. apply keeps_ret.
  - intros [b|]; [apply keeps_ret|apply IH].
Qed.

Lemma keeps_type_loop text n : forall sels i, keeps (W:=W) h (type_loop text n i sels).
Proof using Type*.
  induction sels as [|sel rest IH]; intros i; cbn [type_loop]; [apply keeps_ret|].
  apply keeps_bind.
  - apply keeps_try_except.
    + apply keeps_bind; [apply keeps_log_step|intros _].
      apply keeps_bind; [by apply keeps_ext, Hpage|intros _].
      apply keeps_bind; [by apply keeps_ext, Hpage|intros _].
      apply keeps_bind; [apply keeps_log_action|intros _]. apply keeps_ret.
    + intros e. destruct (i =? n - 1)%nat.
      * apply keeps_bind; [apply keeps_log_action|intros _]. apply keeps_ret.
      * apply keeps_bind; [apply keeps_emit|intros _]. apply keeps_ret.
  - intros [b|]; [apply keeps_ret|apply IH].
Qed.

Lemma keeps_wait_for_element selector timeout :
  keeps (W:=W) h (wait_for_element selector timeout).
Proof using Type*.
  unfold wait_for_element. apply keeps_try_except.
  - apply keeps_bind; [apply keeps_get_self|intros me].
    apply keeps_bind; [by apply keeps_ext, Hpage|intros _].
    apply keeps_bind; [apply keeps_log_action|intros _]. apply keeps_ret.
  - intros e. apply keeps_bind; [apply keeps_log_action|intros _]. apply keeps_ret.
Qed.

Lemma keeps_dispatch action_type target value fallback_actions :
  keeps (W:=W) h (dispatch action_type target value fallback_actions).
Proof using Type*.
  unfold dispatch, click_element, type_text.
  repeat match goal with |- context [if ?b then _ else _] => destruct b end;
    auto using keeps_navigate, keeps_click_loop, keeps_type_loop,
               keeps_wait_for_element, keeps_ret.
Qed.

End KeepsPage.

Section KeepsCalls.
Context {X : Type} (h : list event -> BrowserManager -> X).
Hypothesis Hcalls : forall c tr e s, h (tr ++ [Call c e]) s = h tr s.

Lemma keeps_take_screenshot filename : keeps (W:=W) h (take_screenshot filename).
Proof using Type*.
  unfold take_screenshot. apply keeps_try_except.
  - apply keeps_bind.
    { destruct filename; [apply keeps_ret|].
      apply keeps_bind; [apply keeps_time|intros t]. apply keeps_ret. }
    intros f. apply keeps_bind; [apply keeps_get_self|intros me].
    apply keeps_bind; [by apply keeps_ext|intros _].
    apply keeps_bind; [apply keeps_log_action|intros _]. apply keeps_ret.
  - intros e. apply keeps_bind; [apply keeps_log_action|intros _]. apply keeps_ret.
Qed.

Lemma keeps_save_page_html filename : keeps (W:=W) h (save_page_html filename).
Proof using Type*.
  unfold save_page_html. apply keeps_try_except.
  - apply keeps_bind.
    { destruct filename; [apply keeps_ret|].
      apply keeps_bind; [apply keeps_time|intros t]. apply keeps_ret. }
    intros f. apply keeps_bind; [apply keeps_get_self|intros me].
    apply keeps_bind; [by apply keeps_ext|intros content].
    apply keeps_bind; [by apply keeps_ext|intros _].
    apply keeps_bind; [apply keeps_log_action|intros _]. apply keeps_ret.
  - intros e. apply keeps_bind; [apply keeps_log_action|intros _]. apply keeps_ret.
Qed.

End KeepsCalls.

(** The two views of a run: the pauses with [self], and with them the
    captures. *)
Lemma tempo_blind (c : call) (tr : list event) (e : option string) (s : BrowserManager) :
  (pace (tr ++ [Call c e]), s) = (pace tr, s).
Proof. unfold pace. rewrite omap_app. cbn. by rewrite app_nil_r. Qed.

Lemma frame_blind (c : call) : is_capture c = false ->
  forall (tr : list event) (e : option string) (s : BrowserManager),
    (pace (tr ++ [Call c e]), captures (tr ++ [Call c e]), s) = (pace tr, captures tr, s).
Proof.
  intros Hc tr e s. unfold pace, captures, calls. rewrite !omap_app, List.filter_app. cbn.
  rewrite Hc. by rewrite !app_nil_r.
Qed.

(** One iteration of the loop of [type_text]. *)
Lemma type_loop_step text n i sel rest (st : state) :
  type_loop text n i (sel :: rest) st =
  let st0 := logged INFO (step_message ("Attempting to type in element: " +:+ sel) None) st in
  match type_attempt sel text st0 with
  | (Returned _, st1) =>
      (Returned true, acted ("Typed text in element: " +:+ sel) true None st1)
  | (Raised e, st1) =>
      if (i =? n - 1)%nat
      then (Returned false, acted ("Type text in element: " +:+ sel) false (Some e) st1)
      else type_loop text n (S i) rest
             (logged WARNING ("Failed to type in " +:+ sel +:+ ", trying fallback: " +:+ e) st1)
  end.
Proof.
  cbn [type_loop]. unfold try_except, bind.
  unfold log_step, emit, modify, type_attempt, bind, ext, logged, ret.
  cbn [world trace sink actions self].
  destruct (respond (PageWaitForSelector sel 5000) (world st)) as [[[]|e] w1];
    cbn [world trace sink actions self error_of].
  - destruct (respond (PageFill sel text) w1) as [[[]|e] w2];
      cbn [world trace sink actions self error_of].
    + rewrite log_action_run. reflexivity.
    + destruct (i =? n - 1)%nat; [rewrite log_action_run|]; reflexivity.
  - destruct (i =? n - 1)%nat; [rewrite log_action_run|]; reflexivity.
Qed.

(** What one candidate leaves behind: one wait for its selector, and a
    fill that went through exactly when the attempt returned. *)
Lemma type_attempt_run sel text (st : state) :
  exists o st1 evs,
    type_attempt sel text st = (o, st1) /\
    trace st1 = trace st ++ evs /\
    actions st1 = actions st /\
    self st1 = self st /\
    attempted evs = [sel] /\
    Forall (fun ev => exists c e, ev = Call c e /\
                      (c = PageWaitForSelector sel 5000 \/ c = PageFill sel text)) evs /\
    match o with
    | Returned _ => succeeded evs = [sel]
    | Raised e => succeeded evs = [] /\ exists c, last evs = Some (Call c (Some e))
    end.
Proof.
  unfold type_attempt, bind, ext.
  destruct (respond (PageWaitForSelector sel 5000) (world st)) as [[[]|e] w1] eqn:Hw;
    cbn [world trace sink actions self error_of].
  - destruct (respond (PageFill sel text) w1) as [[[]|e] w2] eqn:Hc;
      cbn [world trace sink actions self error_of].
    + eexists _, _, [_; _]. split; [reflexivity|].
      rewrite <- app_assoc. repeat split; try reflexivity.
      repeat constructor; eauto.
    + eexists _, _, [_; _]. split; [reflexivity|].
      rewrite <- app_assoc. repeat split; try reflexivity; [|by eexists].
      repeat constructor; eauto.
  - eexists _, _, [_]. split; [reflexivity|].
    repeat split; try reflexivity; [|by eexists].
    repeat constructor; eauto.
Qed.

(** The loop of [type_text], from any index on. *)
Lemma type_loop_spec text : forall sels n i (st : state),
  sels <> [] ->
  (i + length sels = n)%nat ->
  exists b st' new k ar,
    type_loop text n i sels st = (Returned b, st') /\
    trace st' = trace st ++ new /\
    self st' = self st /\
    (1 <= k <= length sels)%nat /\
    attempted new = take k sels /\
    Forall (fun ev => exists c e, ev = Call c e /\
              exists sel, c = PageWaitForSelector sel 5000 \/ c = PageFill sel text) new /\
    actions st' = actions st ++ [ar] /\
    success ar = b /\
    (b = true ->
       exists sel, last (take k sels) = Some sel /\ succeeded new = [sel] /\
                   action ar = "Typed text in element: " +:+ sel /\ details ar = None) /\
    (b = false ->
       k = length sels /\ succeeded new = [] /\
       exists sel e c, last sels = Some sel /\
                       action ar = "Type text in element: " +:+ sel /\ details ar = Some e /\
                       last new = Some (Call c (Some e))).
Proof.
  induction sels as [|sel rest IH]; intros n i st Hne Hlen; [done|].
  rewrite type_loop_step. cbn zeta.
  set (st0 := logged INFO _ st).
  destruct (type_attempt_run sel text st0)
    as (o & st1 & evs & Hrun & Htr & Hact & Hself & Hatt & Hev & Hsucc).
  assert (Hev' : Forall (fun ev => exists c e, ev = Call c e /\
              exists sel, c = PageWaitForSelector sel 5000 \/ c = PageFill sel text) evs).
  { eapply Forall_impl; [exact Hev|]. intros ev (c & e & -> & Hc). eauto. }
  rewrite Hrun. destruct o as [[]|e].
  - eexists true, _, evs, 1%nat, _. split; [reflexivity|].
    cbn [acted trace actions self]. rewrite Htr, Hact, Hself.
    split; [reflexivity|]. split; [reflexivity|]. split; [simpl; lia|].
    split; [by rewrite Hatt|]. split; [exact Hev'|].
    split; [reflexivity|]. split; [reflexivity|].
    split; [|discriminate].
    intros _. exists sel. by repeat split.
  - destruct Hsucc as (Hsucc & c & Hlast).
    destruct rest as [|sel' rest'].
    + assert ((i =? n - 1)%nat = true) as -> by (apply Nat.eqb_eq; simpl in Hlen; lia).
      eexists false, _, evs, 1%nat, _. split; [reflexivity|].
      cbn [acted trace actions self]. rewrite Htr, Hact, Hself.
      split; [reflexivity|]. split; [reflexivity|]. split; [simpl; lia|].
      split; [by rewrite Hatt|]. split; [exact Hev'|].
      split; [reflexivity|]. split; [reflexivity|].
      split; [discriminate|].
      intros _. split; [reflexivity|]. split; [exact Hsucc|].
      exists sel, e, c. by repeat split.
    + assert ((i =? n - 1)%nat = false) as -> by (apply Nat.eqb_neq; simpl in Hlen; lia).
      set (st2 := logged WARNING _ st1).
      destruct (IH n (S i) st2)
        as (b & st' & new & k & ar & Hloop & Htr' & Hself' & Hk & Hatt' & Hnew & Hact'
            & Hok & Htrue & Hfalse);
        [done | simpl in *; lia |].
      exists b, st', (evs ++ new), (S k), ar. split; [exact Hloop|].
      rewrite Htr', Hact', Hself'. cbn [st2 logged trace actions self].
      rewrite Htr, Hact, Hself.
      rewrite attempted_app, succeeded_app, Hatt, Hsucc.
      split; [by rewrite app_assoc|]. split; [reflexivity|]. split; [simpl in *; lia|].
      split; [simpl; by rewrite Hatt'|]. split; [by apply Forall_app|].
      split; [reflexivity|]. split; [exact Hok|].
      assert (Hstep : forall s, last (sel' :: rest') = Some s ->
                                 last (sel :: sel' :: rest') = Some s).
      { intros s Hs. rewrite last_cons, Hs. reflexivity. }
      split.
      * intros Hb. destruct (Htrue Hb) as (s & Hs & Hrest). exists s. split; [|exact Hrest].
        change (take (S k) (sel :: sel' :: rest')) with (sel :: take k (sel' :: rest')).
        rewrite last_cons, Hs. reflexivity.
      * intros Hb. destruct (Hfalse Hb) as (-> & Hs0 & s & e' & c' & Hs & Ha & Hd & Hl).
        split; [reflexivity|]. split; [exact Hs0|].
        exists s, e', c'. split; [by apply Hstep|]. split; [exact Ha|]. split; [exact Hd|].
        rewrite last_app, Hl. reflexivity.
Qed.

(** X11. [type_text] puts the primary selector and then the fallbacks to
    the page in the order of the list, every time with the same text, and
    stops at the first candidate on which the fill goes through.  It
    returns false only when every candidate was attempted and none took
    the text.  Either way one record is appended to the action log, for
    the last attempt, with the text of the exception when it failed. *)
Theorem type_text_tries_in_order selector text fallback_selectors (st : state) :
  let sels := selector :: default [] fallback_selectors in
  exists b st' new k ar,
    type_text selector text fallback_selectors st = (Returned b, st') /\
    trace st' = trace st ++ new /\
    (1 <= k <= length sels)%nat /\
    attempted new = take k sels /\
    Forall (fun ev => exists c e, ev = Call c e /\
              exists sel, c = PageWaitForSelector sel 5000 \/ c = PageFill sel text) new /\
    actions st' = actions st ++ [ar] /\
    success ar = b /\
    (b = true ->
       exists sel, last (take k sels) = Some sel /\ succeeded new = [sel] /\
                   action ar = "Typed text in element: " +:+ sel /\ details ar = None) /\
    (b = false ->
       k = length sels /\ succeeded new = [] /\
       exists sel e c, last sels = Some sel /\
                       action ar = "Type text in element: " +:+ sel /\ details ar = Some e /\
                       last new = Some (Call c (Some e))).
Proof.
  intros sels. unfold type_text.
  change ([selector] ++ default [] fallback_selectors) with sels.
  destruct (type_loop_spec text sels (length sels) 0 st)
    as (b & st' & new & k & ar & H1 & H2 & _ & H3); [done|reflexivity|].
  by exists b, st', new, k, ar.
Qed.

Lemma reports_navigate url : reports (W:=W) id (navigate url).
Proof.
  intros st. unfold navigate, try_except, bind, log_step, emit, modify, ext, ret.
  cbn [world trace sink actions self].
  destruct (respond (PageGoto url) (world st)) as [[[]|e] w1];
    cbn [world trace sink actions self]; rewrite log_action_run;
    eexists _, _, _; (split; [reflexivity|]); cbn [acted actions success details id];
    repeat split; try reflexivity; discriminate.
Qed.

Lemma reports_click_element selector fallback :
  reports (W:=W) id (click_element selector fallback).
Proof.
  intros st. unfold click_element.
  destruct (click_loop_spec ([selector] ++ default [] fallback)
              (length ([selector] ++ default [] fallback)) 0 st)
    as (b & st' & new & k & ar & Hrun & _ & _ & _ & Hact & Hs & Ht & Hf & _);
    [done|reflexivity|].
  exists b, st', ar. split; [exact Hrun|]. split; [exact Hact|]. split; [exact Hs|].
  unfold id. destruct b.
  - destruct (Ht eq_refl) as (? & _ & _ & _ & ->). tauto.
  - destruct (Hf eq_refl) as (_ & _ & ? & ? & ? & _ & _ & -> & _). split; discriminate.
Qed.

Lemma reports_type_text selector text fallback :
  reports (W:=W) id (type_text selector text fallback).
Proof.
  intros st. unfold type_text.
  destruct (type_loop_spec text ([selector] ++ default [] fallback)
              (length ([selector] ++ default [] fallback)) 0 st)
    as (b & st' & new & k & ar & Hrun & _ & _ & _ & _ & _ & Hact & Hs & Ht & Hf);
    [done|reflexivity|].
  exists b, st', ar. split; [exact Hrun|]. split; [exact Hact|]. split; [exact Hs|].
  unfold id. destruct b.
  - destruct (Ht eq_refl) as (? & _ & _ & _ & ->). tauto.
  - destruct (Hf eq_refl) as (_ & _ & ? & ? & ? & _ & _ & -> & _). split; discriminate.
Qed.

Lemma reports_wait_for_element selector timeout :
  reports (W:=W) id (wait_for_element selector timeout).
Proof.
  intros st. unfold wait_for_element, try_except, bind, get_self, ext, ret.
  cbn [world trace sink actions self].
  destruct (respond (PageWaitForSelector selector _) (world st)) as [[[]|e] w1];
    cbn [world trace sink actions self]; rewrite log_action_run;
    eexists _, _, _; (split; [reflexivity|]); cbn [acted actions success details id];
    repeat split; try reflexivity; discriminate.
Qed.

Lemma reports_take_screenshot filename :
  reports (W:=W) has_path (take_screenshot filename).
Proof.
  intros st. unfold take_screenshot, try_except, bind at 1.
  destruct filename as [f|].
  - unfold bind, get_self, ext, ret. cbn [world trace sink actions self].
    destruct (respond (PageScreenshot _) (world st)) as [[[]|e] w1];
      cbn [world trace sink actions self]; rewrite log_action_run;
      eexists _, _, _; (split; [reflexivity|]); cbn [acted actions success details has_path];
      repeat split; try reflexivity; discriminate.
  - unfold bind, time, get_self, ext, ret.
    destruct (time_time (world st)) as [t w0]. cbn [world trace sink actions self].
    destruct (respond (PageScreenshot _) w0) as [[[]|e] w1];
      cbn [world trace sink actions self]; rewrite log_action_run;
      eexists _, _, _; (split; [reflexivity|]); cbn [acted actions success details has_path];
      repeat split; try reflexivity; discriminate.
Qed.

Lemma reports_save_page_html filename :
  reports (W:=W) has_path (save_page_html filename).
Proof.
  intros st. unfold save_page_html, try_except, bind at 1.
  destruct filename as [f|].
  - unfold bind, get_self, ext, ret. cbn [world trace sink actions self].
    destruct (respond PageContent (world st)) as [[content|e] w1];
      cbn [world trace sink actions self].
    + destruct (respond (WriteFile _ content) w1) as [[[]|e] w2];
        cbn [world trace sink actions self]; rewrite log_action_run;
        eexists _, _, _; (split; [reflexivity|]);
        cbn [acted actions success details has_path];
        repeat split; try reflexivity; discriminate.
    + rewrite log_action_run. eexists _, _, _. split; [reflexivity|].
      cbn [acted actions success details has_path]. repeat split; discriminate.
  - unfold bind, time, get_self, ext, ret.
    destruct (time_time (world st)) as [t w0]. cbn [world trace sink actions self].
    destruct (respond PageContent w0) as [[content|e] w1];
      cbn [world trace sink actions self].
    + destruct (respond (WriteFile _ content) w1) as [[[]|e] w2];
        cbn [world trace sink actions self]; rewrite log_action_run;
        eexists _, _, _; (split; [reflexivity|]);
        cbn [acted actions success details has_path];
        repeat split; try reflexivity; discriminate.
    + rewrite log_action_run. eexists _, _, _. split; [reflexivity|].
      cbn [acted actions success details has_path]. repeat split; discriminate.
Qed.

(** X12. The primitives of the browser manager never raise, and each call
    appends exactly one record to the action log: a success exactly when
    the call returned a truthy value, with the text of the exception
    exactly when it did not.  [get_page_content] alone reports nothing:
    it returns the content, or the empty string, and leaves the action
    log as it was. *)
Theorem primitives_report_once :
  (forall url, reports (W:=W) id (navigate url)) /\
  (forall selector fallback, reports (W:=W) id (click_element selector fallback)) /\
  (forall selector text fallback, reports (W:=W) id (type_text selector text fallback)) /\
  (forall selector timeout, reports (W:=W) id (wait_for_element selector timeout)) /\
  (forall filename, reports (W:=W) has_path (take_screenshot filename)) /\
  (forall filename, reports (W:=W) has_path (save_page_html filename)) /\
  (forall st : state, exists content st',
     get_page_content st = (Returned content, st') /\
     actions st' = actions st /\
     (content = "" \/ respond PageContent (world st) = (Returned content, world st'))).
Proof.
  split; [exact reports_navigate|]. split; [exact reports_click_element|].
  split; [exact reports_type_text|]. split; [exact reports_wait_for_element|].
  split; [exact reports_take_screenshot|]. split; [exact reports_save_page_html|].
  intros st. unfold get_page_content, try_except, ext, bind, emit, modify, ret.
  destruct (respond PageContent (world st)) as [[content|e] w1] eqn:E;
    cbn [world trace sink actions self]; eexists _, _; (split; [reflexivity|]);
    cbn [actions world]; auto.
Qed.

(** [wait_for_element] with the seconds it waits. *)
Lemma wait_for_element_run selector timeout seconds (st : state) :
  seconds = match timeout with
            | Some t => if t =? 0 then Config.max_wait_time (config (self st)) else t
            | None => Config.max_wait_time (config (self st))
            end ->
  exists b st' evs,
    wait_for_element selector timeout st = (Returned b, st') /\
    trace st' = trace st ++ evs /\
    Played [PageWaitForSelector selector (seconds * 1000)] evs b.
Proof.
  intros ->. unfold wait_for_element, try_except, bind, get_self, ext, ret.
  cbn [world trace sink actions self].
  destruct (respond (PageWaitForSelector selector _) (world st)) as [[[]|e] w1];
    cbn [world trace sink actions self error_of]; rewrite log_action_run;
    eexists _, _, [_]; (split; [reflexivity|]); cbn [acted trace];
    (split; [reflexivity|]); repeat constructor.
Qed.

(** X13. [wait_for_element] makes one call, a wait for the selector, and
    returns whether it went through.  The wait is for the given seconds;
    without a timeout, and with the timeout 0 as well, it is for the
    configured [max_wait_time]. *)
Theorem wait_for_element_timeout selector (st : state) :
  wait_for_element selector (Some 0) st = wait_for_element selector None st /\
  (exists b st' evs,
     wait_for_element selector None st = (Returned b, st') /\
     trace st' = trace st ++ evs /\
     Played [PageWaitForSelector selector
               (Config.max_wait_time (config (self st)) * 1000)] evs b) /\
  (forall t, t <> 0 ->
     exists b st' evs,
       wait_for_element selector (Some t) st = (Returned b, st') /\
       trace st' = trace st ++ evs /\
       Played [PageWaitForSelector selector (t * 1000)] evs b).
Proof.
  split; [reflexivity|]. split.
  - by apply wait_for_element_run.
  - intros t Ht. apply wait_for_element_run.
    destruct (Z.eqb_spec t 0); [contradiction|reflexivity].
Qed.

Lemma pace_app tr1 tr2 : pace (tr1 ++ tr2) = pace tr1 ++ pace tr2.
Proof. apply omap_app. Qed.

Lemma captures_app tr1 tr2 : captures (tr1 ++ tr2) = captures tr1 ++ captures tr2.
Proof. unfold captures, calls. by rewrite omap_app, List.filter_app. Qed.

(** A capture of a failed step: it returns the path under
    [screenshots_dir], or [None]; it pauses nowhere. *)
Lemma take_screenshot_run f (st : state) :
  exists r st',
    take_screenshot (Some f) st = (Returned r, st') /\
    (r = None \/ r = Some (path_join (screenshots_dir (self st)) f)) /\
    pace (trace st') = pace (trace st) /\ self st' = self st.
Proof.
  pose proof (keeps_take_screenshot (fun tr s => (pace tr, s)) tempo_blind (Some f) st) as Hk.
  revert Hk. unfold take_screenshot, try_except, bind, get_self, ext, ret.
  cbn [world trace sink actions self].
  destruct (respond (PageScreenshot _) (world st)) as [[[]|e] w1];
    cbn [world trace sink actions self]; rewrite log_action_run; cbn [snd];
    intros Hk; apply (f_equal fst) in Hk; cbn [fst] in Hk;
      eexists _, _; (split; [reflexivity|]); auto.
Qed.

Lemma save_page_html_run f (st : state) :
  exists r st',
    save_page_html (Some f) st = (Returned r, st') /\
    (r = None \/ r = Some (path_join (screenshots_dir (self st)) f)) /\
    pace (trace st') = pace (trace st) /\ self st' = self st.
Proof.
  pose proof (keeps_save_page_html (fun tr s => (pace tr, s)) tempo_blind (Some f) st) as Hk.
  revert Hk. unfold save_page_html, try_except, bind, get_self, ext, ret.
  cbn [world trace sink actions self].
  destruct (respond PageContent (world st)) as [[content|e] w1];
    cbn [world trace sink actions self].
  - destruct (respond (WriteFile _ content) w1) as [[[]|e] w2];
      cbn [world trace sink actions self]; rewrite log_action_run; cbn [snd];
      intros Hk; apply (f_equal fst) in Hk; cbn [fst] in Hk;
      eexists _, _; (split; [reflexivity|]); auto.
  - rewrite log_action_run; cbn [snd].
    intros Hk; apply (f_equal fst) in Hk; cbn [fst] in Hk;
      eexists _, _; (split; [reflexivity|]); auto.
Qed.

(** What a failed step adds to the screenshots. *)
Lemma on_failure_more step description results (st : state) :
  exists results' st' new,
    on_failure step description results st = (Returned results', st') /\
    pr_actions results' = pr_actions results /\
    pr_screenshots results' = pr_screenshots results ++ new /\
    sublist new (capture_files (self st) step) /\
    pace (trace st') = pace (trace st) /\ self st' = self st /\
    (Config.screenshot_on_error (config (self st)) = false ->
     Config.save_html_on_error (config (self st)) = false ->
     st' = st).
Proof.
  unfold on_failure, capture_files, bind, get_self, ret. cbn beta iota.
  set (png := path_join (screenshots_dir (self st)) ("error_step_" +:+ pretty step +:+ ".png")).
  set (html := path_join (screenshots_dir (self st)) ("error_step_" +:+ pretty step +:+ ".html")).
  destruct (Config.screenshot_on_error (config (self st))) eqn:Hshot.
  - destruct (take_screenshot_run ("error_step_" +:+ pretty step +:+ ".png") st)
      as (path & st1 & Hrun & Hpath & Hp1 & Hs1).
    rewrite Hrun.
    destruct (Config.save_html_on_error (config (self st))) eqn:Hhtml.
    + destruct (save_page_html_run ("error_step_" +:+ pretty step +:+ ".html") st1)
        as (page & st2 & Hrun2 & Hhtml2 & Hp2 & Hs2).
      rewrite Hs1 in Hhtml2.
      destruct Hpath as [-> | ->]; cbn beta iota; rewrite Hrun2;
        destruct Hhtml2 as [-> | ->]; cbn [pr_screenshots pr_actions];
        [(eexists; exists st2, []) | (eexists; exists st2, [html]) | (eexists; exists st2, [png])
         | (eexists; exists st2, [png; html])];
        (split; [reflexivity|]); cbn [pr_screenshots pr_actions];
        rewrite <- ?app_assoc, ?app_nil_r;
        repeat split; try congruence; try discriminate; cbn [app].
      * apply sublist_nil_l.
      * apply sublist_cons. reflexivity.
      * apply sublist_skip. apply sublist_nil_l.
      * reflexivity.
    + destruct Hpath as [-> | ->]; cbn [pr_screenshots pr_actions];
        [(eexists; exists st1, []) | (eexists; exists st1, [png])];
        (split; [reflexivity|]); cbn [pr_screenshots pr_actions];
        rewrite ?app_nil_r; repeat split; try congruence; try discriminate;
        [apply sublist_nil_l|reflexivity].
  - destruct (Config.save_html_on_error (config (self st))) eqn:Hhtml.
    + destruct (save_page_html_run ("error_step_" +:+ pretty step +:+ ".html") st)
        as (page & st2 & Hrun2 & Hhtml2 & Hp2 & Hs2).
      rewrite Hrun2.
      destruct Hhtml2 as [-> | ->]; cbn [pr_screenshots pr_actions];
        [(eexists; exists st2, []) | (eexists; exists st2, [html])];
        (split; [reflexivity|]); cbn [pr_screenshots pr_actions];
        rewrite ?app_nil_r; repeat split; try congruence; try discriminate;
        [apply sublist_nil_l|reflexivity].
    + (eexists; exists st, []). split; [reflexivity|]. cbn [pr_screenshots pr_actions].
      rewrite app_nil_r. repeat split. reflexivity.
Qed.

(** One step of a plan pauses once, at its end; its captures are those
    of [on_failure]. *)
Lemma run_step_more (a : Action) (r : PlanResult) (st : state) :
  exists r' st' ar new,
    run_step a r st = (Returned r', st') /\
    pr_actions r' = pr_actions r ++ [ar] /\
    ar_step ar = default 0 (a_step a) /\
    pr_screenshots r' = pr_screenshots r ++ new /\
    sublist new (if ar_success ar then [] else capture_files (self st) (ar_step ar)) /\
    pace (trace st') = pace (trace st) ++ [500] /\
    self st' = self st /\
    (Config.screenshot_on_error (config (self st)) = false ->
     Config.save_html_on_error (config (self st)) = false ->
     captures (trace st') = captures (trace st)).
Proof.
  unfold run_step. cbn zeta.
  set (step := default 0 (a_step a)).
  set (action_type := default "" (a_action a)).
  set (target := default "" (a_target a)).
  set (value := default "" (a_value a)).
  set (description := default "" (a_description a)).
  set (fallback_actions := default [] (a_fallback_actions a)).
  unfold try_except, bind at 1, log_step, emit, modify. cbn beta iota.
  set (st0 := mkEnv _ _ _ _ _).
  destruct (total_dispatch action_type target value fallback_actions st0) as (b & st1 & Hd).
  pose proof (keeps_dispatch (fun tr s => (pace tr, captures tr, s)) frame_blind
                action_type target value fallback_actions st0) as Hk.
  rewrite Hd in Hk. cbn [snd st0 trace self] in Hk. injection Hk as Hp Hc Hs.
  rewrite (bind_returned _ _ _ _ _ Hd).
  destruct b; cbn [negb].
  - unfold bind, ret, sleep, modify.
    eexists _, _, _, []. split; [reflexivity|].
    cbn [pr_actions pr_screenshots ar_step ar_success trace self].
    rewrite pace_app, captures_app, Hp, Hc, Hs, !app_nil_r.
    repeat split; reflexivity.
  - destruct (on_failure_more step description
                (mkPlanResult (pr_success r)
                   (pr_actions r ++ [mkActionResult step action_type target description false])
                   (pr_errors r) (pr_screenshots r)) st1)
      as (r' & st' & new & Hf & Ha & Hshots & Hsub & Hp' & Hs' & Hoff).
    rewrite (bind_returned _ _ _ _ _ Hf).
    unfold bind, ret, sleep, modify.
    eexists _, _, _, new. split; [reflexivity|].
    cbn [pr_actions pr_screenshots ar_step ar_success trace self] in *.
    rewrite pace_app, captures_app, Hp', Hp, Hs', Hs, !app_nil_r in *.
    split; [exact Ha|]. split; [reflexivity|]. split; [exact Hshots|].
    split; [exact Hsub|]. split; [reflexivity|]. split; [reflexivity|].
    intros H1 H2. rewrite (Hoff H1 H2). exact Hc.
Qed.

(** The loop of [execute_action_plan]: one pause per step, and on the
    list of screenshots nothing but capture files of failed steps. *)
Lemma plan_loop_more : forall (plan : list Action) (r : PlanResult) (st : state),
  exists r' st' ars shots,
    plan_loop plan r st = (Returned r', st') /\
    pr_actions r' = pr_actions r ++ ars /\
    pr_screenshots r' = pr_screenshots r ++ shots /\
    sublist shots
      (flat_map (fun ar => capture_files (self st) (ar_step ar))
                (List.filter (fun ar => negb (ar_success ar)) ars)) /\
    pace (trace st') = pace (trace st) ++ replicate (length plan) 500 /\
    self st' = self st /\
    (Config.screenshot_on_error (config (self st)) = false ->
     Config.save_html_on_error (config (self st)) = false ->
     captures (trace st') = captures (trace st)).
Proof.
  induction plan as [|a plan IH]; intros r st; cbn [plan_loop].
  - exists r, st, [], []. split; [reflexivity|]. cbn. rewrite !app_nil_r.
    repeat split; reflexivity.
  - destruct (run_step_more a r st)
      as (r1 & st1 & ar & new & Hstep & Ha & _ & Hshots & Hsub & Hp & Hs & Hoff).
    rewrite (bind_returned _ _ _ _ _ Hstep).
    destruct (IH r1 st1)
      as (r' & st' & ars & shots & Hloop & Ha' & Hshots' & Hsub' & Hp' & Hs' & Hoff').
    exists r', st', (ar :: ars), (new ++ shots). split; [exact Hloop|].
    rewrite Ha', Hshots', Hp', Hs', Ha, Hshots, Hp, Hs in *.
    rewrite <- !app_assoc. split; [reflexivity|]. split; [reflexivity|].
    split; [|split; [reflexivity|split; [reflexivity|]]].
    + cbn [List.filter]. destruct (ar_success ar); cbn [negb flat_map].
      * apply sublist_nil_r in Hsub as ->. exact Hsub'.
      * by apply sublist_app.
    + intros H1 H2. rewrite (Hoff' H1 H2). by apply Hoff.
Qed.

(** X16. The screenshots that [execute_action_plan] lists are capture
    files of failed steps and nothing else, in the order of the steps, the
    screenshot of a step before its page: a plan that succeeds lists
    none.  With both switches of the configuration off none is listed,
    and the page is asked neither for a screenshot nor for its
    content. *)
Theorem execute_action_plan_captures (plan : list Action) (st : state) :
  exists results st',
    execute_action_plan plan st = (Returned results, st') /\
    sublist (pr_screenshots results)
      (flat_map (fun ar => capture_files (self st) (ar_step ar))
                (List.filter (fun ar => negb (ar_success ar)) (pr_actions results))) /\
    (pr_success results = true -> pr_screenshots results = []) /\
    (Config.screenshot_on_error (config (self st)) = false ->
     Config.save_html_on_error (config (self st)) = false ->
     pr_screenshots results = [] /\ captures (trace st') = captures (trace st)).
Proof.
  unfold execute_action_plan.
  destruct (plan_loop_more plan (mkPlanResult true [] [] []) st)
    as (results & st' & ars & shots & Hrun & Ha & Hshots & Hsub & _ & _ & Hoff).
  destruct (plan_loop_spec plan (mkPlanResult true [] [] []) st)
    as (results2 & st2 & new & Hrun2 & Ha2 & _ & _ & Hsucc & _).
  rewrite Hrun in Hrun2. injection Hrun2 as <- <-.
  cbn [pr_actions pr_screenshots pr_success app andb] in *. subst ars shots.
  rewrite <- Ha2 in Hsucc.
  exists results, st'. split; [exact Hrun|]. split; [exact Hsub|]. split.
  - intros Hok. rewrite Hok in Hsucc. symmetry in Hsucc.
    assert (List.filter (fun ar => negb (ar_success ar)) (pr_actions results) = []) as E.
    { clear -Hsucc. induction (pr_actions results) as [|ar l IH]; [reflexivity|].
      cbn in *. apply andb_true_iff in Hsucc as [-> Hl]. cbn. by apply IH. }
    rewrite E in Hsub. cbn in Hsub. by apply sublist_nil_r in Hsub.
  - intros H1 H2. split; [|by apply Hoff].
    assert (flat_map (fun ar => capture_files (self st) (ar_step ar))
              (List.filter (fun ar => negb (ar_success ar)) (pr_actions results)) = []) as E.
    { clear -H1 H2.
      induction (List.filter _ (pr_actions results)) as [|ar l IH]; [reflexivity|].
      cbn [flat_map]. rewrite IH. unfold capture_files. rewrite H1, H2. reflexivity. }
    rewrite E in Hsub. by apply sublist_nil_r in Hsub.
Qed.

(** Scripts played one after the other. *)
Lemma played_app s1 s2 e1 e2 ok :
  Played s1 e1 true -> Played s2 e2 ok -> Played (s1 ++ s2) (e1 ++ e2) ok.
Proof.
  intros H1 H2. remember true as t eqn:Ht. induction H1; cbn.
  - exact H2.
  - constructor. by apply IHPlayed.
  - discriminate.
Qed.

Lemma played_stop s1 s2 e1 :
  Played s1 e1 false -> Played (s1 ++ s2) e1 false.
Proof.
  intros H1. remember false as t eqn:Ht. induction H1; cbn.
  - discriminate.
  - constructor. by apply IHPlayed.
  - constructor.
Qed.

Lemma navigate_played url (st : state) :
  exists b st' evs,
    navigate url st = (Returned b, st') /\
    trace st' = trace st ++ evs /\
    Played [PageGoto url] evs b.
Proof.
  unfold navigate, try_except, bind, log_step, emit, modify, ext, ret.
  cbn [world trace sink actions self].
  destruct (respond (PageGoto url) (world st)) as [[[]|e] w1];
    cbn [world trace sink actions self error_of]; rewrite log_action_run;
    eexists _, _, [_]; (split; [reflexivity|]); cbn [acted trace];
    (split; [reflexivity|]); repeat constructor.
Qed.

Lemma type_text_played selector text (st : state) :
  exists b st' evs,
    type_text selector text None st = (Returned b, st') /\
    trace st' = trace st ++ evs /\
    Played [PageWaitForSelector selector 5000; PageFill selector text] evs b.
Proof.
  unfold type_text. cbn [default from_option app length].
  rewrite type_loop_step. cbn zeta. unfold type_attempt, bind, ext, logged.
  cbn [world trace sink actions self Nat.eqb Nat.sub].
  destruct (respond (PageWaitForSelector selector 5000) (world st)) as [[[]|e] w1];
    cbn [world trace sink actions self error_of].
  - destruct (respond (PageFill selector text) w1) as [[[]|e] w2];
      cbn [world trace sink actions self error_of];
      eexists _, _, [_; _]; (split; [reflexivity|]); cbn [acted trace];
      rewrite <- app_assoc; (split; [reflexivity|]); repeat constructor.
  - eexists _, _, [_]. split; [reflexivity|]. cbn [acted trace].
    split; [reflexivity|]. repeat constructor.
Qed.

Lemma click_element_played selector (st : state) :
  exists b st' evs,
    click_element selector None st = (Returned b, st') /\
    trace st' = trace st ++ evs /\
    Played [PageWaitForSelector selector 5000; PageClick selector] evs b.
Proof.
  unfold click_element. cbn [default from_option app length].
  rewrite click_loop_step. cbn zeta. unfold click_attempt, bind, ext, logged.
  cbn [world trace sink actions self Nat.eqb Nat.sub].
  destruct (respond (PageWaitForSelector selector 5000) (world st)) as [[[]|e] w1];
    cbn [world trace sink actions self error_of].
  - destruct (respond (PageClick selector) w1) as [[[]|e] w2];
      cbn [world trace sink actions self error_of];
      eexists _, _, [_; _]; (split; [reflexivity|]); cbn [acted trace];
      rewrite <- app_assoc; (split; [reflexivity|]); repeat constructor.
  - eexists _, _, [_]. split; [reflexivity|]. cbn [acted trace].
    split; [reflexivity|]. repeat constructor.
Qed.

Lemma present_some s : s <> "" -> present (Some s) = true.
Proof. intros Hs. cbn. by destruct (String.eqb_spec s ""). Qed.

(** X17. With the three selectors and the two credentials at hand,
    [login_to_service] plays a fixed script on the page: it goes to the
    service, fills the email, fills the password, clicks the submit
    button, each after waiting for its element, and stops at the first
    call that raises.  It never raises, and returns true exactly when the
    script was played to its end; only then does it pause, 3 seconds,
    for the login to complete. *)
Theorem login_to_service_script service_url credentials selectors
    es ps ss email password (st : state) :
  str_get "email_field" selectors = Some es -> es <> "" ->
  str_get "password_field" selectors = Some ps -> ps <> "" ->
  str_get "submit_button" selectors = Some ss -> ss <> "" ->
  str_get "email" credentials = Some email ->
  str_get "password" credentials = Some password ->
  exists b st' evs,
    login_to_service service_url credentials selectors st = (Returned b, st') /\
    trace st' = trace st ++ evs ++ (if b then [Sleep 3000] else []) /\
    Played [PageGoto service_url;
            PageWaitForSelector es 5000; PageFill es email;
            PageWaitForSelector ps 5000; PageFill ps password;
            PageWaitForSelector ss 5000; PageClick ss] evs b.
Proof.
  intros Hes Hes' Hps Hps' Hss Hss' Hemail Hpassword.
  unfold login_to_service. rewrite Hes, Hps, Hss. cbn [forallb default from_option id].
  rewrite !present_some by assumption. cbn [andb negb].
  unfold str_item. rewrite Hemail, Hpassword.
  unfold try_except, bind at 1, log_step, emit, modify. cbn beta iota.
  set (st0 := mkEnv _ _ _ _ _).
  change (trace st) with (trace st0).
  destruct (navigate_played service_url st0) as ([] & st1 & e1 & Hrun1 & Ht1 & Hp1);
    rewrite (bind_returned _ _ _ _ _ Hrun1); cbn [negb];
    [|exists false, st1, e1; rewrite app_nil_r;
      split; [reflexivity|]; split; [exact Ht1|];
      exact (played_stop [_] _ _ Hp1)].
  unfold bind at 1, lift at 1.
  destruct (type_text_played es email st1) as ([] & st2 & e2 & Hrun2 & Ht2 & Hp2);
    rewrite (bind_returned _ _ _ _ _ Hrun2); cbn [negb];
    [|exists false, st2, (e1 ++ e2); rewrite app_nil_r, Ht2, Ht1, <- app_assoc;
      split; [reflexivity|]; split; [reflexivity|];
      exact (played_app [_] _ _ _ _ Hp1 (played_stop [_; _] _ _ Hp2))].
  unfold bind at 1, lift at 1.
  destruct (type_text_played ps password st2) as ([] & st3 & e3 & Hrun3 & Ht3 & Hp3);
    rewrite (bind_returned _ _ _ _ _ Hrun3); cbn [negb];
    [|exists false, st3, (e1 ++ e2 ++ e3); rewrite app_nil_r, Ht3, Ht2, Ht1, <- !app_assoc;
      split; [reflexivity|]; split; [reflexivity|];
      exact (played_app [_] _ _ _ _ Hp1
               (played_app [_; _] _ _ _ _ Hp2 (played_stop [_; _] _ _ Hp3)))].
  destruct (click_element_played ss st3) as ([] & st4 & e4 & Hrun4 & Ht4 & Hp4);
    rewrite (bind_returned _ _ _ _ _ Hrun4); cbn [negb].
  - eexists true, _, (e1 ++ e2 ++ e3 ++ e4). split; [reflexivity|].
    cbn [trace]. rewrite Ht4, Ht3, Ht2, Ht1, <- !app_assoc.
    split; [reflexivity|].
    exact (played_app [_] _ _ _ _ Hp1
             (played_app [_; _] _ _ _ _ Hp2 (played_app [_; _] _ _ _ _ Hp3 Hp4))).
  - exists false, st4, (e1 ++ e2 ++ e3 ++ e4).
    rewrite app_nil_r, Ht4, Ht3, Ht2, Ht1, <- !app_assoc.
    split; [reflexivity|]. split; [reflexivity|].
    exact (played_app [_] _ _ _ _ Hp1
             (played_app [_; _] _ _ _ _ Hp2 (played_app [_; _] _ _ _ _ Hp3 Hp4))).
Qed.

(** X18. When one of the three selectors is missing or empty, or the
    credentials have no email, [login_to_service] returns false without
    raising, and the page has been asked for nothing but the navigation:
    no element was waited for, nothing was typed.  When the navigation
    went through, the last line of the log tells what was missing. *)
Theorem login_to_service_incomplete service_url credentials selectors (st : state) :
  forallb present [str_get "email_field" selectors; str_get "password_field" selectors;
                   str_get "submit_button" selectors] = false \/
  str_get "email" credentials = None ->
  exists st' evs ok,
    login_to_service service_url credentials selectors st = (Returned false, st') /\
    trace st' = trace st ++ evs /\
    Played [PageGoto service_url] evs ok /\
    (ok = true ->
     last (sink st')
     = Some (ERROR,
             if forallb present [str_get "email_field" selectors;
                                 str_get "password_field" selectors;
                                 str_get "submit_button" selectors]
             then error_message "Login failed" (Some "'email'")
             else error_message "Missing required login selectors" None)).
Proof.
  intros Hmiss. unfold login_to_service.
  unfold try_except, bind at 1, log_step, emit, modify. cbn beta iota.
  set (st0 := mkEnv _ _ _ _ _).
  change (trace st) with (trace st0).
  destruct (navigate_played service_url st0) as ([] & st1 & e1 & Hrun1 & Ht1 & Hp1);
    rewrite (bind_returned _ _ _ _ _ Hrun1); cbn [negb];
    [|exists st1, e1, false; split; [reflexivity|]; split; [exact Ht1|];
      split; [exact Hp1|discriminate]].
  destruct (forallb present _) eqn:Hall; cbn [negb].
  - destruct Hmiss as [|Hemail]; [discriminate|].
    unfold str_item. rewrite Hemail. unfold bind at 1, lift at 1.
    unfold bind, log_error, emit, modify, ret.
    eexists _, e1, true. split; [reflexivity|]. cbn [trace sink].
    split; [exact Ht1|]. split; [exact Hp1|]. intros _. by rewrite last_snoc.
  - unfold bind, log_error, emit, modify, ret.
    eexists _, e1, true. split; [reflexivity|]. cbn [trace sink].
    split; [exact Ht1|]. split; [exact Hp1|]. intros _. by rewrite last_snoc.
Qed.

(** X14. [save_page_html] never raises.  It asks the page for its content
    and writes what it got to the path [screenshots_dir / filename], as
    [pathlib] joins the two ([path_join]): the directory, a slash and the
    name when both are names of one component.  When the page raises,
    nothing is written.  It returns the path when both calls
    went through and [None] otherwise.  Without a file name the name is
    [page_<seconds>.html], from the clock. *)
Theorem save_page_html_writes_page filename (st : state) :
  let w0 := match filename with Some _ => world st | None => snd (time_time (world st)) end in
  let name := match filename with
              | Some f => f
              | None => "page_" +:+ pretty (fst (time_time (world st)) / 1000) +:+ ".html"
              end in
  let path := path_join (screenshots_dir (self st)) name in
  (plain_name (screenshots_dir (self st)) = true -> plain_name name = true ->
   path = screenshots_dir (self st) +:+ "/" +:+ name) /\
  exists r st' evs,
    save_page_html filename st = (Returned r, st') /\
    trace st' = trace st ++ evs /\
    (r = None \/ r = Some path) /\
    match fst (respond PageContent w0) with
    | Returned content => Played [PageContent; WriteFile path content] evs (has_path r)
    | Raised e => evs = [Call PageContent (Some e)] /\ r = None
    end.
Proof.
  cbn zeta. split; [apply path_join_plain|].
  unfold save_page_html, try_except, bind at 1.
  destruct filename as [f|].
  - unfold bind, get_self, ext, ret. cbn [world trace sink actions self].
    destruct (respond PageContent (world st)) as [[content|e] w1];
      cbn [world trace sink actions self error_of fst].
    + destruct (respond (WriteFile _ content) w1) as [[[]|e] w2];
        cbn [world trace sink actions self error_of]; rewrite log_action_run;
        eexists _, _, [_; _]; (split; [reflexivity|]); cbn [acted trace];
        rewrite <- app_assoc; (split; [reflexivity|]); (split; [auto|]);
        repeat constructor.
    + rewrite log_action_run. eexists _, _, [_]. split; [reflexivity|].
      cbn [acted trace]. repeat split; auto.
  - unfold bind, time, get_self, ext, ret.
    destruct (time_time (world st)) as [t w0]. cbn [world trace sink actions self fst snd].
    destruct (respond PageContent w0) as [[content|e] w1];
      cbn [world trace sink actions self error_of fst].
    + destruct (respond (WriteFile _ content) w1) as [[[]|e] w2];
        cbn [world trace sink actions self error_of]; rewrite log_action_run;
        eexists _, _, [_; _]; (split; [reflexivity|]); cbn [acted trace];
        rewrite <- app_assoc; (split; [reflexivity|]); (split; [auto|]);
        repeat constructor.
    + rewrite log_action_run. eexists _, _, [_]. split; [reflexivity|].
      cbn [acted trace]. repeat split; auto.
Qed.

End Facts.

Import Scenario.

Lemma wait_for_element_timeout_witness :
  exists b st' evs,
    wait_for_element "#inbox" (Some 5) (Scenario.browser_in (Scenario.page_world []))
      = (Returned b, st') /\
    trace st' = evs /\
    Played [PageWaitForSelector "#inbox" 5000] evs b.
Proof.
  destruct (wait_for_element_timeout "#inbox" (Scenario.browser_in (Scenario.page_world [])))
    as (_ & _ & Ht).
  destruct (Ht 5) as (b & st' & evs & H1 & H2 & H3); [discriminate|].
  exists b, st', evs. split; [exact H1|]. split; [exact H2|exact H3].
Defined.

(** The page of a third step that failed, in the directory
    [screenshots]. *)
Lemma save_page_html_writes_page_witness :
  plain_name "screenshots" = true /\ plain_name "error_step_3.html" = true /\
  exists st',
    save_page_html (Some "error_step_3.html") (Scenario.browser_in (Scenario.page_world []))
      = (Returned (Some "screenshots/error_step_3.html"), st') /\
    calls (trace st')
      = [PageContent; WriteFile "screenshots/error_step_3.html" "<html></html>"].
Proof.
  split; [reflexivity|]. split; [reflexivity|].
  pose proof (save_page_html_writes_page (Some "error_step_3.html")
                (Scenario.browser_in (Scenario.page_world []))) as Hw.
  cbv zeta in Hw. destruct Hw as (Hplain & r & st' & evs & Hrun & _ & Hr & _).
  specialize (Hplain eq_refl eq_refl).
  exists st'. rewrite Hplain in Hr.
  assert (Hres := Hrun). vm_compute in Hres. injection Hres as Hres Hst.
  destruct Hr as [-> | ->]; [discriminate Hres|].
  split; [exact Hrun|]. by rewrite <- Hst.
Defined.

Lemma execute_action_plan_captures_witness :
  exists results st',
    execute_action_plan Scenario.five_steps
      (Scenario.browser_in (Scenario.page_world ["#missing"])) = (Returned results, st') /\
    pr_success results = false /\
    pr_screenshots results = [] /\
    captures (trace st') = [].
Proof.
  destruct (execute_action_plan_captures Scenario.five_steps
              (Scenario.browser_in (Scenario.page_world ["#missing"])))
    as (results & st' & Hrun & _ & _ & Hoff).
  destruct (Hoff eq_refl eq_refl) as [Hshots Hcap].
  exists results, st'. split; [exact Hrun|]. split; [|split; assumption].
  revert Hrun. vm_compute. by intros [= <- _].
Defined.

Lemma login_to_service_script_witness :
  exists st' evs,
    login_to_service "https://mail.example.com" Scenario.form_credentials
      Scenario.form_selectors (Scenario.browser_in (Scenario.page_world ["#password"]))
    = (Returned false, st') /\
    trace st' = evs /\
    Played [PageGoto "https://mail.example.com";
            PageWaitForSelector "#email" 5000; PageFill "#email" "me@example.com";
            PageWaitForSelector "#password" 5000; PageFill "#password" "secret";
            PageWaitForSelector "#submit" 5000; PageClick "#submit"] evs false.
Proof.
  destruct (login_to_service_script "https://mail.example.com" Scenario.form_credentials
              Scenario.form_selectors "#email" "#password" "#submit" "me@example.com" "secret"
              (Scenario.browser_in (Scenario.page_world ["#password"])))
    as (b & st' & evs & Hrun & Htr & Hplayed);
    try reflexivity; try discriminate.
  assert (b = false) as -> by (revert Hrun; vm_compute; by intros [= <- _]).
  exists st', evs. split; [exact Hrun|]. split; [|exact Hplayed].
  rewrite Htr. cbn. by rewrite app_nil_r.
Defined.

Lemma login_to_service_incomplete_witness :
  exists st' evs ok,
    login_to_service "https://mail.example.com" Scenario.form_credentials
      [("email_field", "#email"); ("password_field", "")]
      (Scenario.browser_in (Scenario.page_world []))
    = (Returned false, st') /\
    trace st' = evs /\
    Played [PageGoto "https://mail.example.com"] evs ok.
Proof.
  destruct (login_to_service_incomplete "https://mail.example.com" Scenario.form_credentials
              [("email_field", "#email"); ("password_field", "")]
              (Scenario.browser_in (Scenario.page_world [])))
    as (st' & evs & ok & Hrun & Htr & Hplayed & _).
  - left. reflexivity.
  - exists st', evs, ok. split; [exact Hrun|]. split; [exact Htr|exact Hplayed].
Defined.

Lemma type_text_tries_in_order_witness :
  exists st',
    type_text "#to" "ann@example.com" (Some ["input[name=to]"])
      (Scenario.browser_in (Scenario.page_world ["#to"])) = (Returned true, st') /\
    attempted (trace st') = ["#to"; "input[name=to]"] /\
    succeeded (trace st') = ["input[name=to]"].
Proof.
  destruct (type_text_tries_in_order "#to" "ann@example.com" (Some ["input[name=to]"])
              (Scenario.browser_in (Scenario.page_world ["#to"])))
    as (b & st' & new & k & ar & Hrun & Htr & _ & _ & _ & _ & _ & Htrue & _).
  assert (b = true) as ->.
  { revert Hrun. vm_compute. by intros [= <- _]. }
  exists st'. split; [exact Hrun|].
  revert Hrun. vm_compute. intros [= <-]. split; reflexivity.
Defined.

End BrowserMore.

(** ** Plans as JSON *)

Module PlanFacts.
Import Logger World Browser BrowserFacts PathFacts BrowserMore Plans.

Section Facts.
Context {W : Type} `{Handler W}.

Abbreviation state := (env W BrowserManager).

Lemma bind_raised {S A B} (m : M S A) (k : A -> M S B) s e s1 :
  m s = (Raised e, s1) -> bind m k s = (Raised e, s1).
Proof. intros E. unfold bind. by rewrite E. Qed.

Lemma try_except_raised {S A} (body : M S A) handler s e s1 :
  body s = (Raised e, s1) -> try_except body handler s = handler e s1.
Proof. intros E. unfold try_except. by rewrite E. Qed.

(** *** Reading an entry *)

Lemma read_entry_dict a : is_dict a = true -> read_entry a = Returned (fields_of a).
Proof. destruct a; try discriminate. reflexivity. Qed.

Lemma read_entry_other a :
  is_dict a = false ->
  read_entry a = Raised ("'" +:+ type_name a +:+ "' object has no attribute 'get'").
Proof. destruct a; try discriminate; reflexivity. Qed.

(** *** The primitives on values return *)

Lemma value_navigate_total url : total (Plans.navigate (W:=W) url).
Proof. unfold Plans.navigate. auto 10 with total. Qed.

Lemma value_click_loop_total n : forall sels i, total (Plans.click_loop (W:=W) n i sels).
Proof.
  induction sels as [|sel rest IH]; intros i; cbn [Plans.click_loop]; [auto with total|].
  apply TotalFacts.total_bind.
  - apply TotalFacts.total_try_except. intros e.
    destruct (i =? n - 1)%nat; auto 10 with total.
  - intros [b|]; auto with total.
Qed.

Lemma value_type_loop_total text n :
  forall sels i, total (Plans.type_loop (W:=W) text n i sels).
Proof.
  induction sels as [|sel rest IH]; intros i; cbn [Plans.type_loop]; [auto with total|].
  apply TotalFacts.total_bind.
  - apply TotalFacts.total_try_except. intros e.
    destruct (i =? n - 1)%nat; auto 10 with total.
  - intros [b|]; auto with total.
Qed.

Lemma value_wait_for_element_total selector timeout :
  total (Plans.wait_for_element (W:=W) selector timeout).
Proof. unfold Plans.wait_for_element. auto 10 with total. Qed.

(** A dispatch raises nowhere but in the comprehension over
    [fallback_actions]: what it raises is what [fallback_targets]
    raises, before any call to the page. *)
Lemma value_dispatch_outcome action_type target value fallback_actions (st : state) :
  (exists b st', Plans.dispatch action_type target value fallback_actions st = (Returned b, st'))
  \/ (exists e,
        fallback_targets fallback_actions = Raised e /\
        Plans.dispatch action_type target value fallback_actions st = (Raised e, st)).
Proof.
  unfold Plans.dispatch.
  destruct (is_str action_type "navigate"); [left; apply value_navigate_total|].
  destruct (is_str action_type "click").
  { destruct (fallback_targets fallback_actions) as [sels|e].
    - left. apply value_click_loop_total.
    - right. by exists e. }
  destruct (is_str action_type "type").
  { destruct (fallback_targets fallback_actions) as [sels|e].
    - left. apply value_type_loop_total.
    - right. by exists e. }
  destruct (is_str action_type "wait"); [left; apply value_wait_for_element_total|].
  destruct (is_str action_type "verify"); [left; apply value_wait_for_element_total|].
  left. by eexists _, _.
Qed.

(** *** What the primitives on values leave as it was *)

Section KeepsPlan.
Context {X : Type} (h : list event -> BrowserManager -> X).
Hypothesis Hpage : forall c, is_capture c = false ->
  forall tr e s, h (tr ++ [Call c e]) s = h tr s.

Ltac page_call :=
  match goal with
  | |- keeps _ (ext ?c) => apply (keeps_ext _ c), Hpage; reflexivity
  end.

Lemma keeps_page_goto url : keeps (W:=W) h (page_goto url).
Proof using Type*. destruct url; cbn [page_goto]; page_call. Qed.

Lemma keeps_page_wait_for_selector selector timeout_ms :
  keeps (W:=W) h (page_wait_for_selector selector timeout_ms).
Proof using Type*.
  destruct selector; cbn [page_wait_for_selector]; page_call.
Qed.

Lemma keeps_page_click selector : keeps (W:=W) h (page_click selector).
Proof using Type*. destruct selector; cbn [page_click]; page_call. Qed.

Lemma keeps_page_fill selector text : keeps (W:=W) h (page_fill selector text).
Proof using Type*.
  destruct selector, text; cbn [page_fill]; page_call.
Qed.

Lemma keeps_value_navigate url : keeps (W:=W) h (Plans.navigate url).
Proof using Type*.
  unfold Plans.navigate. apply keeps_try_except.
  - apply keeps_bind; [apply keeps_log_step|intros _].
    apply keeps_bind; [apply keeps_page_goto|intros _].
    apply keeps_bind; [apply keeps_log_action|intros _]. apply keeps_ret.
  - intros e. apply keeps_bind; [apply keeps_log_action|intros _]. apply keeps_ret.
Qed.

Lemma keeps_value_click_loop n : forall sels i, keeps (W:=W) h (Plans.click_loop n i sels).
Proof using Type*.
  induction sels as [|sel rest IH]; intros i; cbn [Plans.click_loop]; [apply keeps_ret|].
  apply keeps_bind.
  - apply keeps_try_except.
    + apply keeps_bind; [apply keeps_log_step|intros _].
      apply keeps_bind; [apply keeps_page_wait_for_selector|intros _].
      apply keeps_bind; [apply keeps_page_click|intros _].
      apply keeps_bind; [apply keeps_log_action|intros _]. apply keeps_ret.
    + intros e. destruct (i =? n - 1)%nat.
      * apply keeps_bind; [apply keeps_log_action|intros _]. apply keeps_ret.
      * apply keeps_bind; [apply keeps_emit|intros _]. apply keeps_ret.
  - intros [b|]; [apply keeps_ret|apply IH].
Qed.

Lemma keeps_value_type_loop text n :
  forall sels i, keeps (W:=W) h (Plans.type_loop text n i sels).
Proof using Type*.
  induction sels as [|sel rest IH]; intros i; cbn [Plans.type_loop]; [apply keeps_ret|].
  apply keeps_bind.
  - apply keeps_try_except.
    + apply keeps_bind; [apply keeps_log_step|intros _].
      apply keeps_bind; [apply keeps_page_wait_for_selector|intros _].
      apply keeps_bind; [apply keeps_page_fill|intros _].
      apply keeps_bind; [apply keeps_log_action|intros _]. apply keeps_ret.
    + intros e. destruct (i =? n - 1)%nat.
      * apply keeps_bind; [apply keeps_log_action|intros _]. apply keeps_ret.
      * apply keeps_bind; [apply keeps_emit|intros _]. apply keeps_ret.
  - intros [b|]; [apply keeps_ret|apply IH].
Qed.

Lemma keeps_value_wait_for_element selector timeout :
  keeps (W:=W) h (Plans.wait_for_element selector timeout).
Proof using Type*.
  unfold Plans.wait_for_element. apply keeps_try_except.
  - apply keeps_bind; [apply keeps_get_self|intros me].
    apply keeps_bind; [apply keeps_page_wait_for_selector|intros _].
    apply keeps_bind; [apply keeps_log_action|intros _]. apply keeps_ret.
  - intros e. apply keeps_bind; [apply keeps_log_action|intros _]. apply keeps_ret.
Qed.

Lemma keeps_value_dispatch action_type target value fallback_actions :
  keeps (W:=W) h (Plans.dispatch action_type target value fallback_actions).
Proof using Type*.
  unfold Plans.dispatch, Plans.click_element, Plans.type_text.
  repeat match goal with |- context [if ?b then _ else _] => destruct b end;
    try (apply keeps_bind; [apply keeps_lift|intros sels]);
    auto using keeps_value_navigate, keeps_value_click_loop, keeps_value_type_loop,
               keeps_value_wait_for_element, keeps_ret.
Qed.

Lemma keeps_begin_step f : keeps (W:=W) h (begin_step f).
Proof using Type*.
  unfold begin_step. apply keeps_bind; [apply keeps_log_step|intros _].
  apply keeps_value_dispatch.
Qed.

End KeepsPlan.

(** *** Captures *)

Lemma captured_refl (st : state) : captured st st.
Proof. exists []. rewrite app_nil_r. by repeat split. Qed.

Lemma captured_trans (st1 st2 st3 : state) :
  captured st1 st2 -> captured st2 st3 -> captured st1 st3.
Proof.
  intros (c1 & Ht1 & Hc1 & Hs1 & Hk1 & Ha1) (c2 & Ht2 & Hc2 & Hs2 & Hk2 & Ha2).
  exists (c1 ++ c2). rewrite Ht2, Ht1, <- app_assoc, forallb_app, Hc1, Hc2, Hs2, Hs1.
  repeat split; by etrans.
Qed.

Lemma take_screenshot_captured f (st : state) :
  exists r st', take_screenshot (Some f) st = (Returned r, st') /\ captured st st'.
Proof.
  unfold take_screenshot, try_except, bind, get_self, ext, ret.
  cbn [world trace sink actions self].
  destruct (respond (PageScreenshot _) (world st)) as [[[]|e] w1];
    cbn [world trace sink actions self]; rewrite log_action_run;
    eexists _, _; (split; [reflexivity|]);
    eexists [_]; cbn [acted trace sink actions self];
    (split; [reflexivity|]); (split; [reflexivity|]); (split; [reflexivity|]);
    split; by eexists.
Qed.

Lemma save_page_html_captured f (st : state) :
  exists r st', save_page_html (Some f) st = (Returned r, st') /\ captured st st'.
Proof.
  unfold save_page_html, try_except, bind, get_self, ext, ret.
  cbn [world trace sink actions self].
  destruct (respond PageContent (world st)) as [[content|e] w1];
    cbn [world trace sink actions self].
  - destruct (respond (WriteFile _ content) w1) as [[[]|e] w2];
      cbn [world trace sink actions self]; rewrite log_action_run;
      eexists _, _; (split; [reflexivity|]);
      eexists [_; _]; cbn [acted trace sink actions self]; rewrite <- app_assoc;
      (split; [reflexivity|]); (split; [reflexivity|]); (split; [reflexivity|]);
      split; by eexists.
  - rewrite log_action_run.
    eexists _, _; (split; [reflexivity|]);
      eexists [_]; cbn [acted trace sink actions self];
      (split; [reflexivity|]); (split; [reflexivity|]); (split; [reflexivity|]);
      split; by eexists.
Qed.

Lemma add_capture_fields path results :
  pp_success (add_capture path results) = pp_success results /\
  pp_actions (add_capture path results) = pp_actions results /\
  pp_errors (add_capture path results) = pp_errors results.
Proof. destruct path as [p|]; [|done]. unfold add_capture. by destruct (String.eqb p ""). Qed.

(** A failed step marks the plan as failed and adds its message; what
    follows are captures of the page. *)
Lemma value_on_failure_spec step description results (st : state) :
  exists results' st',
    Plans.on_failure step description results st = (Returned results', st') /\
    pp_success results' = false /\
    pp_actions results' = pp_actions results /\
    pp_errors results'
      = pp_errors results ++ ["Step " +:+ str step +:+ " failed: " +:+ str description] /\
    captured st st'.
Proof.
  unfold Plans.on_failure. cbv zeta.
  set (r0 := mkPlanReport false _ _ _).
  rewrite (bind_returned get_self _ st (self st) st eq_refl).
  assert (Hshot : exists r1 st1,
    (if Config.screenshot_on_error (config (self st))
     then let* screenshot_path :=
            take_screenshot (Some ("error_step_" +:+ str step +:+ ".png")) in
          ret (add_capture screenshot_path r0)
     else ret r0) st = (Returned r1, st1) /\
    pp_success r1 = false /\ pp_actions r1 = pp_actions results /\
    pp_errors r1 = pp_errors r0 /\ captured st st1).
  { destruct (Config.screenshot_on_error (config (self st))).
    - destruct (take_screenshot_captured ("error_step_" +:+ str step +:+ ".png") st)
        as (p & st1 & Hrun & Hcap).
      rewrite (bind_returned _ _ _ _ _ Hrun).
      destruct (add_capture_fields p r0) as (Hs & Ha & He).
      eexists _, st1. split; [reflexivity|]. by rewrite Hs, Ha, He.
    - exists r0, st. split; [reflexivity|]. repeat split. apply captured_refl. }
  destruct Hshot as (r1 & st1 & Hrun1 & Hs1 & Ha1 & He1 & Hcap1).
  rewrite (bind_returned _ _ _ _ _ Hrun1).
  destruct (Config.save_html_on_error (config (self st))).
  - destruct (save_page_html_captured ("error_step_" +:+ str step +:+ ".html") st1)
      as (p & st2 & Hrun & Hcap).
    rewrite (bind_returned _ _ _ _ _ Hrun).
    destruct (add_capture_fields p r1) as (Hs & Ha & He).
    eexists _, st2. split; [reflexivity|]. rewrite Hs, Ha, He, Hs1, Ha1, He1.
    repeat split. by eapply captured_trans.
  - exists r1, st1. split; [reflexivity|]. by rewrite Hs1, Ha1, He1.
Qed.

(** *** One step *)

(** One entry of a plan, a dict: its dispatch is attempted; what follows
    is the end of the step, and the step leaves its record and its
    error, if it has them. *)
Lemma value_run_step_spec (action : value) (carried : option value) (r : PlanReport)
    (st : state) :
  is_dict action = true ->
  exists o st_d r' st1,
    begin_step (fields_of action) st = (o, st_d) /\
    Plans.run_step action carried r st
      = (Returned (Some (field action "step" (VInt 0)), r'), st1) /\
    step_end action o st_d st1 /\
    pp_success r' = pp_success r && went_through o /\
    pp_actions r' = pp_actions r ++ option_list (step_record action o) /\
    pp_errors r' = pp_errors r ++ option_list (step_error action o).
Proof.
  intros Hdict. unfold Plans.run_step. rewrite (read_entry_dict action Hdict). cbv beta iota zeta.
  change (f_step (fields_of action)) with (field action "step" (VInt 0)).
  change (f_action_type (fields_of action)) with (field action "action" (VStr "")).
  change (f_target (fields_of action)) with (field action "target" (VStr "")).
  change (f_description (fields_of action)) with (field action "description" (VStr "")).
  destruct (begin_step (fields_of action) st) as [[[|]|e] st_d] eqn:Hatt.
  - eexists _, _, _, _. split; [reflexivity|].
    split.
    { erewrite bind_returned; [reflexivity|].
      apply try_except_returned. erewrite bind_returned; [|exact Hatt]. reflexivity. }
    cbn [step_end went_through step_record step_error option_list
         pp_success pp_actions pp_errors].
    rewrite andb_true_r, app_nil_r. by repeat split.
  - destruct (value_on_failure_spec (field action "step" (VInt 0))
                (field action "description" (VStr ""))
                (mkPlanReport (pp_success r)
                   (pp_actions r ++ [mkStepRecord (field action "step" (VInt 0))
                                       (field action "action" (VStr ""))
                                       (field action "target" (VStr ""))
                                       (field action "description" (VStr "")) false])
                   (pp_errors r) (pp_screenshots r)) st_d)
      as (r' & st_c & Hfail & Hs & Ha & He & Hcap).
    eexists _, _, r', (paused st_c). split; [reflexivity|].
    split.
    { erewrite bind_returned; [reflexivity|].
      apply try_except_returned. erewrite bind_returned; [|exact Hatt].
      cbn [negb]. erewrite bind_returned; [|exact Hfail]. reflexivity. }
    cbn [step_end went_through step_record step_error option_list].
    rewrite Hs, Ha, He, andb_false_r. cbn [pp_actions pp_errors].
    split; [by exists st_c|]. by repeat split.
  - eexists _, _, _, _. split; [reflexivity|].
    split.
    { erewrite bind_returned; [reflexivity|].
      erewrite try_except_raised; [|erewrite bind_raised; [reflexivity|exact Hatt]].
      reflexivity. }
    cbn [step_end went_through step_record step_error option_list
         pp_success pp_actions pp_errors].
    rewrite andb_false_r, app_nil_r. by repeat split.
Qed.

(** *** The loop *)

Lemma omap_pair_cons {A B C} (f : A -> B -> option C) a b l :
  omap (uncurry f) ((a, b) :: l) = option_list (f a b) ++ omap (uncurry f) l.
Proof. cbn. by destruct (f a b). Qed.

Lemma value_plan_loop_spec :
  forall (plan : list value) (carried : option value) (r : PlanReport) (st : state),
  forallb is_dict plan = true ->
  exists r' st' outs,
    Plans.plan_loop plan carried r st = (Returned r', st') /\
    Visited plan st outs st' /\
    length outs = length plan /\
    pp_success r' = pp_success r && forallb went_through outs /\
    pp_actions r' = pp_actions r ++ omap (uncurry step_record) (zip plan outs) /\
    pp_errors r' = pp_errors r ++ omap (uncurry step_error) (zip plan outs).
Proof.
  induction plan as [|action plan IH]; intros carried r st Hdict; cbn [Plans.plan_loop].
  - exists r, st, []. split; [reflexivity|]. cbn. rewrite !app_nil_r, andb_true_r.
    repeat split. constructor.
  - cbn [forallb] in Hdict. apply andb_true_iff in Hdict as [Ha Hrest].
    destruct (value_run_step_spec action carried r st Ha)
      as (o & st_d & r1 & st1 & Hatt & Hstep & Hend & Hs & Hact & He).
    rewrite (bind_returned _ _ _ _ _ Hstep). cbn [fst snd].
    destruct (IH (Some (field action "step" (VInt 0))) r1 st1 Hrest)
      as (r' & st' & outs & Hloop & Hvis & Hlen & Hs' & Hact' & He').
    exists r', st', (o :: outs). split; [exact Hloop|].
    split; [by econstructor|]. split; [cbn; by rewrite Hlen|].
    cbn [zip zip_with forallb]. rewrite !omap_pair_cons.
    rewrite Hs', Hact', He', Hs, Hact, He, <- !app_assoc, andb_assoc. by repeat split.
Qed.

(** [execute_action_plan] on a plan of dicts, from the loop. *)
Lemma value_execute_action_plan_spec (plan : list value) (st : state) :
  forallb is_dict plan = true ->
  exists results st' outs,
    Plans.execute_action_plan plan st = (Returned results, st') /\
    Visited plan st outs st' /\
    length outs = length plan /\
    pp_success results = forallb went_through outs /\
    pp_actions results = omap (uncurry step_record) (zip plan outs) /\
    pp_errors results = omap (uncurry step_error) (zip plan outs).
Proof.
  intros Hdict. unfold Plans.execute_action_plan.
  destruct (value_plan_loop_spec plan None (mkPlanReport true [] [] []) st Hdict)
    as (results & st' & outs & Hrun & Hvis & Hlen & Hs & Ha & He).
  by exists results, st', outs.
Qed.

Lemma went_through_true o : went_through o = true -> o = Returned true.
Proof. by destruct o as [[|]|e]. Qed.

Lemma failed_step_has_error action o :
  went_through o = false -> exists e, step_error action o = Some e.
Proof. destruct o as [[|]|e]; [discriminate| |]; by eexists. Qed.

(** The pauses of a run of a plan: one after every step that returned
    from its dispatch. *)
Lemma pace_captures caps : forallb captures_page caps = true -> pace caps = [].
Proof.
  induction caps as [|[c e|ms] caps IH]; cbn; [done| |discriminate].
  intros [_ Hcaps]%andb_true_iff. by apply IH.
Qed.

Lemma visited_pace plan (st : state) outs st' :
  Visited plan st outs st' ->
  pace (trace st') = pace (trace st) ++ replicate (length (List.filter returned outs)) 500 /\
  self st' = self st.
Proof.
  induction 1 as [st|action plan st o st_d st1 outs st' Hatt Hend _ [IHp IHs]].
  - cbn. by rewrite app_nil_r.
  - pose proof (keeps_begin_step (fun tr s => (pace tr, s)) (fun c _ => tempo_blind c)
                  (fields_of action) st) as Hk.
    rewrite Hatt in Hk. cbn [snd] in Hk. injection Hk as Hp Hs.
    rewrite IHp, IHs. clear IHp IHs.
    destruct o as [[|]|e]; cbn [step_end] in Hend.
    + subst st1. cbn [paused trace self List.filter returned length replicate].
      rewrite pace_app, Hp, <- app_assoc. by split.
    + destruct Hend as (st_c & (caps & Ht & Hcaps & Hself & _) & ->).
      cbn [paused trace self List.filter returned length replicate].
      rewrite Ht, !pace_app, (pace_captures caps Hcaps), Hp, app_nil_r, <- app_assoc.
      split; [reflexivity|congruence].
    + subst st1. cbn [logged trace self List.filter returned].
      by rewrite Hp.
Qed.

Lemma records_count : forall (plan : list value) (outs : list (outcome bool)),
  length outs = length plan ->
  length (omap (uncurry step_record) (zip plan outs)) = length (List.filter returned outs).
Proof.
  induction plan as [|action plan IH]; intros [|o outs] Hlen; try discriminate; [done|].
  cbn [zip zip_with]. rewrite omap_pair_cons, length_app.
  injection Hlen as Hlen. rewrite (IH outs Hlen).
  by destruct o as [b|e].
Qed.

(** *** Plans in the wire format

    On a plan whose entries are of the types that the wire format
    gives them, a run is the run of [Browser.execute_action_plan]. *)

Lemma fields_of_entry (a : Action) :
  fields_of (entry_of a)
  = mkFields (VInt (default 0 (a_step a))) (VStr (default "" (a_action a)))
             (VStr (default "" (a_target a))) (VStr (default "" (a_value a)))
             (VStr (default "" (a_description a)))
             (VList (map fallback_of (default [] (a_fallback_actions a)))).
Proof. destruct a as [[?|] [?|] [?|] [?|] [?|] [?|]]; reflexivity. Qed.

Lemma targets_of_fallbacks (fas : list FallbackAction) :
  targets (map fallback_of fas) = Returned (map VStr (map fa_target fas)).
Proof.
  induction fas as [|[[k|] t] fas IH]; [reflexivity| |]; cbn [map targets];
    (change (method_get (fallback_of _) "target" VNone) with (Returned (VStr t)));
    cbn beta iota; by rewrite IH.
Qed.

Lemma click_loop_agrees n : forall sels i (st : state),
  Plans.click_loop n i (map VStr sels) st = Browser.click_loop n i sels st.
Proof.
  induction sels as [|sel rest IH]; intros i st; [reflexivity|].
  cbn [map Plans.click_loop Browser.click_loop]. unfold bind.
  match goal with
  | |- match ?x with _ => _ end = match ?y with _ => _ end =>
      change x with y; destruct y as [[[b|]|e] st1]
  end; [reflexivity|apply IH|reflexivity].
Qed.

Lemma type_loop_agrees text n : forall sels i (st : state),
  Plans.type_loop (VStr text) n i (map VStr sels) st = Browser.type_loop text n i sels st.
Proof.
  induction sels as [|sel rest IH]; intros i st; [reflexivity|].
  cbn [map Plans.type_loop Browser.type_loop]. unfold bind.
  match goal with
  | |- match ?x with _ => _ end = match ?y with _ => _ end =>
      change x with y; destruct y as [[[b|]|e] st1]
  end; [reflexivity|apply IH|reflexivity].
Qed.

Lemma dispatch_agrees action_type target value fallback_actions (st : state) :
  Plans.dispatch (VStr action_type) (VStr target) (VStr value)
                 (VList (map fallback_of fallback_actions)) st
  = Browser.dispatch action_type target value fallback_actions st.
Proof.
  unfold Plans.dispatch, Browser.dispatch. cbn [is_str fallback_targets].
  rewrite targets_of_fallbacks.
  repeat match goal with |- context [if ?b then _ else _] => destruct b end;
    try reflexivity.
  - unfold Plans.click_element, Browser.click_element, bind, lift. cbn [default app].
    change (VStr target :: map VStr (map fa_target fallback_actions))
      with (map VStr (target :: map fa_target fallback_actions)).
    rewrite length_map. apply click_loop_agrees.
  - unfold Plans.type_text, Browser.type_text, bind, lift. cbn [default app].
    change (VStr target :: map VStr (map fa_target fallback_actions))
      with (map VStr (target :: map fa_target fallback_actions)).
    rewrite length_map. apply type_loop_agrees.
Qed.

Lemma add_capture_none (r : PlanReport) : add_capture None r = r.
Proof. reflexivity. Qed.

Lemma add_capture_path (r : PlanResult) directory name :
  add_capture (Some (path_join directory name)) (report_of r)
  = report_of (mkPlanResult (pr_success r) (pr_actions r) (pr_errors r)
                            (pr_screenshots r ++ [path_join directory name])).
Proof.
  unfold add_capture.
  destruct (String.eqb_spec (path_join directory name) "") as [E|_]; [|reflexivity].
  by apply path_join_nonempty in E.
Qed.

Lemma on_failure_agrees step description (r r' : PlanResult) (st st' : state) :
  Browser.on_failure step description r st = (Returned r', st') ->
  Plans.on_failure (VInt step) (VStr description) (report_of r) st
  = (Returned (report_of r'), st').
Proof.
  unfold Browser.on_failure, Plans.on_failure, bind, get_self, ret. cbn beta iota zeta.
  change (str (VInt step)) with (pretty step). change (str (VStr description)) with description.
  set (r0 := mkPlanResult false _ _ _).
  change (mkPlanReport false (pp_actions (report_of r)) _ _) with (report_of r0).
  destruct (Config.screenshot_on_error (config (self st))).
  - destruct (take_screenshot_run ("error_step_" +:+ pretty step +:+ ".png") st)
      as (path & st1 & Hrun & Hpath & _ & _).
    rewrite Hrun.
    destruct (Config.save_html_on_error (config (self st))).
    + destruct (save_page_html_run ("error_step_" +:+ pretty step +:+ ".html") st1)
        as (page & st2 & Hrun2 & Hpage & _ & _).
      destruct Hpath as [-> | ->]; cbn beta iota; rewrite Hrun2;
        destruct Hpage as [-> | ->]; intros [= <- <-];
        repeat (rewrite add_capture_none || rewrite add_capture_path); reflexivity.
    + destruct Hpath as [-> | ->]; intros [= <- <-]; repeat (rewrite add_capture_none || rewrite add_capture_path); reflexivity.
  - destruct (Config.save_html_on_error (config (self st))).
    + destruct (save_page_html_run ("error_step_" +:+ pretty step +:+ ".html") st)
        as (page & st2 & Hrun2 & Hpage & _ & _).
      rewrite Hrun2.
      destruct Hpage as [-> | ->]; intros [= <- <-]; repeat (rewrite add_capture_none || rewrite add_capture_path); reflexivity.
    + intros [= <- <-]. reflexivity.
Qed.

Lemma report_append (r : PlanResult) (ar : ActionResult) :
  mkPlanReport (pp_success (report_of r)) (pp_actions (report_of r) ++ [record_of ar])
               (pp_errors (report_of r)) (pp_screenshots (report_of r))
  = report_of (mkPlanResult (pr_success r) (pr_actions r ++ [ar]) (pr_errors r)
                            (pr_screenshots r)).
Proof. unfold report_of. cbn. by rewrite map_app. Qed.

Lemma run_step_agrees (a : Action) carried (r r' : PlanResult) (st st' : state) :
  Browser.run_step a r st = (Returned r', st') ->
  Plans.run_step (entry_of a) carried (report_of r) st
  = (Returned (Some (VInt (default 0 (a_step a))), report_of r'), st').
Proof.
  unfold Plans.run_step, Browser.run_step.
  rewrite (read_entry_dict (entry_of a) eq_refl), fields_of_entry.
  cbv beta iota zeta.
  set (step := default 0 (a_step a)).
  set (action_type := default "" (a_action a)).
  set (target := default "" (a_target a)).
  set (value := default "" (a_value a)).
  set (description := default "" (a_description a)).
  set (fallback_actions := default [] (a_fallback_actions a)).
  unfold begin_step, try_except, bind, log_step, emit, modify, ret.
  cbn [f_step f_action_type f_target f_value f_description f_fallback_actions].
  change (str (VInt step)) with (pretty step).
  change (str (VStr description)) with description.
  cbn beta iota.
  set (st0 := mkEnv _ _ _ _ _).
  rewrite dispatch_agrees.
  destruct (total_dispatch action_type target value fallback_actions st0) as (b & st1 & Hd).
  rewrite Hd. cbn beta iota.
  destruct b; cbn [negb];
    match goal with
    | |- context [mkStepRecord (VInt step) (VStr action_type) (VStr target)
                               (VStr description) ?b] =>
        change (mkStepRecord (VInt step) (VStr action_type) (VStr target)
                             (VStr description) b)
          with (record_of (mkActionResult step action_type target description b))
    end; rewrite report_append.
  - unfold sleep, modify. intros [= <- <-]. reflexivity.
  - set (r1 := mkPlanResult _ _ _ _).
    destruct (on_failure_spec step description r1 st1) as (r2 & st2 & Hf & _).
    rewrite Hf, (on_failure_agrees _ _ _ _ _ _ Hf).
    unfold sleep, modify. intros [= <- <-]. reflexivity.
Qed.

Lemma plan_loop_agrees : forall (plan : list Action) carried (r r' : PlanResult) (st st' : state),
  Browser.plan_loop plan r st = (Returned r', st') ->
  Plans.plan_loop (map entry_of plan) carried (report_of r) st
  = (Returned (report_of r'), st').
Proof.
  induction plan as [|a plan IH]; intros carried r r' st st';
    cbn [map Browser.plan_loop Plans.plan_loop].
  - by intros [= <- <-].
  - destruct (run_step_spec a r st) as (r1 & st1 & ar & Hstep & _).
    rewrite (bind_returned _ _ _ _ _ Hstep). intros Hloop.
    rewrite (bind_returned _ _ _ _ _ (run_step_agrees a carried r r1 st st1 Hstep)).
    cbn [fst snd]. by apply IH.
Qed.

(** The run of a plan in the wire format is the run of
    [Browser.execute_action_plan], which returns. *)
Lemma wire_plans_agree (plan : list Action) (st : state) :
  exists results st',
    Browser.execute_action_plan plan st = (Returned results, st') /\
    Plans.execute_action_plan (map entry_of plan) st = (Returned (report_of results), st').
Proof.
  destruct (execute_action_plan_spec plan st) as (results & st' & Hrun & _).
  exists results, st'. split; [exact Hrun|].
  by apply (plan_loop_agrees plan None (mkPlanResult true [] [] [])).
Qed.

(** Every out of a plan in the wire format is a return: its dispatch
    raises nowhere. *)
Lemma wire_begin_step_returns (a : Action) (st : state) :
  exists b st_d, begin_step (fields_of (entry_of a)) st = (Returned b, st_d).
Proof.
  rewrite fields_of_entry. unfold begin_step.
  cbn [f_step f_action_type f_target f_value f_description f_fallback_actions].
  unfold bind, log_step, emit, modify. cbn beta iota.
  rewrite dispatch_agrees. apply total_dispatch.
Qed.

Lemma wire_visited_returns (typed : list Action) : forall (st : state) outs st',
  Visited (map entry_of typed) st outs st' -> List.filter returned outs = outs.
Proof.
  induction typed as [|a typed IH]; intros st outs st' Hvis;
    inversion Hvis as [|? ? ? o st_d st1 outs' ? Hatt Hend Hrest]; subst; [done|].
  destruct (wire_begin_step_returns a st) as (b & st_d' & Hb).
  rewrite Hb in Hatt. injection Hatt as <- <-.
  cbn [List.filter returned]. f_equal. by eapply IH.
Qed.

(** C3. [execute_action_plan] returns a result for every plan whose
    entries are dicts, whatever the values of their keys.  Every entry
    is taken up, in the order of the plan and in the state left by the
    entry before it: its line goes to the log and it is dispatched; a
    step that went through is followed by its pause, a step that failed
    by its captures and the pause, a step that raised by one line in the
    log, and then the next entry is taken up, to the end of the plan.
    The state returned is the one after the last entry.  The result is a
    success exactly when every step went through; the records are those
    of the steps that returned from their dispatch, and the errors are
    the messages of the steps that did not go through, in order.  So for
    a plan of five steps of which the third alone does not go through:
    the fourth and the fifth are dispatched after it, each in the state
    left by the step before, and go through; the result is a failure,
    and the one error is that of the third step. *)
Theorem execute_action_plan_runs_every_step (plan : list value) (st : state) :
  forallb is_dict plan = true ->
  exists results st' outs,
    Plans.execute_action_plan plan st = (Returned results, st') /\
    Visited plan st outs st' /\
    length outs = length plan /\
    pp_success results = forallb went_through outs /\
    pp_actions results = omap (uncurry step_record) (zip plan outs) /\
    pp_errors results = omap (uncurry step_error) (zip plan outs) /\
    (forall a1 a2 a3 a4 a5,
       plan = [a1; a2; a3; a4; a5] ->
       map went_through outs = [true; true; false; true; true] ->
       exists o3 e st3 st4 st5,
         outs = [Returned true; Returned true; o3; Returned true; Returned true] /\
         Visited [a1; a2; a3] st [Returned true; Returned true; o3] st3 /\
         begin_step (fields_of a4) st3 = (Returned true, st4) /\
         begin_step (fields_of a5) (paused st4) = (Returned true, st5) /\
         st' = paused st5 /\
         pp_success results = false /\
         step_error a3 o3 = Some e /\
         pp_errors results = [e]).
Proof.
  intros Hdict.
  destruct (value_execute_action_plan_spec plan st Hdict)
    as (results & st' & outs & Hrun & Hvis & Hlen & Hs & Ha & He).
  exists results, st', outs. do 6 (split; [assumption|]).
  intros a1 a2 a3 a4 a5 -> Hflags.
  destruct outs as [|o1 [|o2 [|o3 [|o4 [|o5 [|o6 outs]]]]]]; try discriminate.
  cbn [map] in Hflags. injection Hflags as H1 H2 H3 H4 H5.
  apply went_through_true in H1 as ->. apply went_through_true in H2 as ->.
  apply went_through_true in H4 as ->. apply went_through_true in H5 as ->.
  destruct (failed_step_has_error a3 o3 H3) as (e & Herr).
  inversion Hvis as [|? ? ? ? d1 s1 ? ? Hb1 He1 Hv1]; subst.
  inversion Hv1 as [|? ? ? ? d2 s2 ? ? Hb2 He2 Hv2]; subst.
  inversion Hv2 as [|? ? ? ? d3 s3 ? ? Hb3 He3 Hv3]; subst.
  inversion Hv3 as [|? ? ? ? d4 s4 ? ? Hb4 He4 Hv4]; subst.
  inversion Hv4 as [|? ? ? ? d5 s5 ? ? Hb5 He5 Hv5]; subst.
  inversion Hv5; subst.
  cbn [step_end] in He4, He5. subst s4.
  exists o3, e, s3, d4, d5. split; [reflexivity|].
  split. { repeat (econstructor; [eassumption|eassumption|]). constructor. }
  split; [exact Hb4|]. split; [exact Hb5|]. split; [exact He5|].
  rewrite Hs, He. cbn [forallb zip zip_with]. rewrite H3, !omap_pair_cons, Herr.
  split; [reflexivity|]. split; [reflexivity|]. reflexivity.
Qed.

(** X15. [execute_action_plan] pauses half a second after every step
    that returns from its dispatch, failed or not, and nowhere else: the
    pauses of a run are as many as the records of its result, and
    [self] is as it was.  A step whose dispatch raises, as the
    comprehension over [fallback_actions] does on [null], leaves no
    record and is followed by no pause.  On a plan in the wire format
    no dispatch raises: a plan of [n] steps leaves [n] records and adds
    [n] pauses. *)
Theorem execute_action_plan_pauses (plan : list value) (st : state) :
  forallb is_dict plan = true ->
  exists results st' outs,
    Plans.execute_action_plan plan st = (Returned results, st') /\
    Visited plan st outs st' /\
    length outs = length plan /\
    length (pp_actions results) = length (List.filter returned outs) /\
    pace (trace st')
      = pace (trace st) ++ replicate (length (pp_actions results)) 500 /\
    self st' = self st /\
    (forall typed, plan = map entry_of typed ->
       length (pp_actions results) = length plan).
Proof.
  intros Hdict.
  destruct (value_execute_action_plan_spec plan st Hdict)
    as (results & st' & outs & Hrun & Hvis & Hlen & _ & Ha & _).
  destruct (visited_pace plan st outs st' Hvis) as [Hpace Hself].
  assert (Hcount : length (pp_actions results) = length (List.filter returned outs))
    by (rewrite Ha; by apply records_count).
  exists results, st', outs. do 4 (split; [assumption|]).
  split; [by rewrite Hcount|]. split; [exact Hself|].
  intros typed ->. rewrite Hcount, (wire_visited_returns typed st outs st' Hvis). exact Hlen.
Qed.

End Facts.

Import Scenario.

(** The plan [json_steps] in a world where [#missing] is not on the
    page: the third step fails, the two after it reach the page, and
    the one error is that of the third step. *)
Lemma execute_action_plan_runs_every_step_witness :
  forallb is_dict json_steps = true /\
  exists results st',
    Plans.execute_action_plan json_steps (browser_in (page_world ["#missing"]))
      = (Returned results, st') /\
    pp_success results = false /\
    pp_errors results = ["Step 3 failed: click #missing"] /\
    calls (trace st')
      = [ PageGoto "https://gmail.com";
          PageWaitForSelector "#compose" 5000; PageClick "#compose";
          PageWaitForSelector "#missing" 5000;
          PageWaitForSelector "#to" 5000; PageFill "#to" "";
          PageWaitForSelector "#send" 5000; PageClick "#send" ].
Proof.
  split; [reflexivity|].
  destruct (execute_action_plan_runs_every_step json_steps
              (browser_in (page_world ["#missing"])) eq_refl)
    as (results & st' & outs & Hrun & Hvis & Hlen & Hs & Ha & He & Hfive).
  exists results, st'. split; [exact Hrun|].
  assert (Hflags : map went_through outs = [true; true; false; true; true]).
  { clear Hfive Hvis Hs He. vm_compute in Hrun. injection Hrun as <- _.
    destruct outs as [|[b1|e1] [|[b2|e2] [|[b3|e3] [|[b4|e4] [|[b5|e5] [|o6 outs]]]]]];
      try (vm_compute in Hlen; discriminate Hlen);
      vm_compute in Ha; by simplify_eq. }
  destruct (Hfive _ _ _ _ _ eq_refl Hflags)
    as (o3 & e & st3 & st4 & st5 & _ & _ & _ & _ & _ & Hfail & _ & _).
  split; [exact Hfail|].
  vm_compute in Hrun. injection Hrun as <- <-. split; reflexivity.
Defined.

(** The plan [null_fallbacks]: the third step raises in the
    comprehension over its fallbacks; it leaves no record and no pause,
    the two steps after it are run, and the one error is that of the
    third step. *)
Lemma execute_action_plan_pauses_witness :
  forallb is_dict null_fallbacks = true /\
  exists results st',
    Plans.execute_action_plan null_fallbacks (browser_in (page_world []))
      = (Returned results, st') /\
    map sr_step (pp_actions results) = [VInt 1; VInt 2; VInt 4; VInt 5] /\
    pp_errors results = ["Step 3 exception: 'NoneType' object is not iterable"] /\
    pace (trace st') = [500; 500; 500; 500].
Proof.
  split; [reflexivity|].
  destruct (execute_action_plan_pauses null_fallbacks (browser_in (page_world [])) eq_refl)
    as (results & st' & outs & Hrun & _ & _ & _ & Hpace & _).
  exists results, st'. split; [exact Hrun|].
  assert (Hres := Hrun). vm_compute in Hres. injection Hres as Hres _.
  split; [by rewrite <- Hres|]. split; [by rewrite <- Hres|].
  rewrite Hpace, <- Hres. reflexivity.
Defined.

(** An entry that is no dict has no [get]: the handler names the step of
    the entry before it, and with no entry before it the run raises. *)
Example entry_without_get :
  fst (Plans.execute_action_plan [VStr "click"] (browser_in (page_world [])))
  = Raised "cannot access local variable 'step' where it is not associated with a value" /\
  exists results,
    fst (Plans.execute_action_plan
           [entry_of (plan_step 1 "click" "#compose"); VStr "click"]
           (browser_in (page_world [])))
    = Returned results /\
    pp_errors results = ["Step 1 exception: 'str' object has no attribute 'get'"].
Proof. split; [vm_compute; reflexivity|]. eexists. split; vm_compute; reflexivity. Qed.

End PlanFacts.

(** ** The browser session: [start] and [stop] *)

Module SessionFacts.
Import Logger Session.

Section Facts.
Context {W : Type} `{Driver W}.

Lemma session_played_app s1 s2 e1 e2 ok :
  Played s1 e1 true -> Played s2 e2 ok -> Played (s1 ++ s2) (e1 ++ e2) ok.
Proof.
  intros H1 H2. remember true as t eqn:Ht. induction H1; cbn.
  - exact H2.
  - constructor. by apply IHPlayed.
  - discriminate.
Qed.

Lemma session_played_stop s1 s2 e1 :
  Played s1 e1 false -> Played (s1 ++ s2) e1 false.
Proof.
  intros H1. remember false as t eqn:Ht. induction H1; cbn.
  - discriminate.
  - constructor. by apply IHPlayed.
  - constructor.
Qed.

(** One line of [stop]: the object is closed when there is one. *)
Lemma close_if_run field close (Hunit : forall h, answer (close h) = unit) (st : state W) :
  exists r st' evs ok,
    close_if field close st = (r, st') /\
    ops st' = ops st ++ evs /\ sink st' = sink st /\ self st' = self st /\
    Played (match field with Some h => [close h] | None => [] end) evs ok /\
    match r with
    | Returned _ => ok = true
    | Raised e => ok = false /\ exists o, last evs = Some (o, Some e)
    end.
Proof.
  destruct field as [h|]; cbn [close_if].
  - unfold bind, call, ret.
    destruct (drive (close h) (world st)) as [[a|e] w1]; cbn [World.error_of].
    + eexists _, _, [_], true. split; [reflexivity|]. cbn [ops sink self].
      repeat split; repeat constructor.
    + eexists _, _, [_], false. split; [reflexivity|]. cbn [ops sink self].
      repeat split; try constructor. by eexists.
  - exists (Returned tt), st, [], true. split; [reflexivity|].
    rewrite app_nil_r. repeat split. constructor.
Qed.

(** [stop], call by call. *)
Lemma stop_run (st : state W) :
  exists st' evs ok,
    stop st = (Returned tt, st') /\
    ops st' = ops st ++ evs /\
    self st' = self st /\
    Played (closing (self st)) evs ok /\
    (ok = true -> sink st' = sink st ++ [(INFO, success_message "Browser session stopped")]) /\
    (ok = false ->
     exists o e, last evs = Some (o, Some e) /\
                 sink st' = sink st ++ [(ERROR, "Error stopping browser: " +:+ e)]).
Proof.
  unfold stop, closing, try_except.
  unfold bind at 1, get_self at 1. cbn beta iota.
  destruct (close_if_run (page (self st)) PageClose (fun _ => eq_refl) st)
    as (r1 & st1 & e1 & ok1 & Hrun1 & Ho1 & Hk1 & Hs1 & Hp1 & Hr1).
  unfold bind at 1. rewrite Hrun1. destruct r1 as [[]|e]; [subst ok1|destruct Hr1 as [-> Hl]].
  2:{ unfold emit, modify. eexists _, e1, false. split; [reflexivity|].
      cbn [ops sink self]. split; [exact Ho1|]. split; [exact Hs1|].
      split; [by apply session_played_stop|]. split; [discriminate|].
      intros _. destruct Hl as (o & Hl). exists o, e. by rewrite Hk1. }
  unfold bind at 1, get_self at 1. cbn beta iota. rewrite Hs1.
  destruct (close_if_run (context (self st)) ContextClose (fun _ => eq_refl) st1)
    as (r2 & st2 & e2 & ok2 & Hrun2 & Ho2 & Hk2 & Hs2 & Hp2 & Hr2).
  unfold bind at 1. rewrite Hrun2. destruct r2 as [[]|e]; [subst ok2|destruct Hr2 as [-> Hl]].
  2:{ unfold emit, modify. eexists _, (e1 ++ e2), false. split; [reflexivity|].
      cbn [ops sink self]. rewrite Ho2, Ho1, Hs2, Hs1, Hk2, Hk1, <- app_assoc.
      split; [reflexivity|]. split; [reflexivity|].
      split; [by apply session_played_app, session_played_stop|]. split; [discriminate|].
      intros _. destruct Hl as (o & Hl). exists o, e. split; [|reflexivity].
      rewrite last_app, Hl. reflexivity. }
  unfold bind at 1, get_self at 1. cbn beta iota. rewrite Hs2, Hs1.
  destruct (close_if_run (browser (self st)) BrowserClose (fun _ => eq_refl) st2)
    as (r3 & st3 & e3 & ok3 & Hrun3 & Ho3 & Hk3 & Hs3 & Hp3 & Hr3).
  unfold bind at 1. rewrite Hrun3. destruct r3 as [[]|e]; [subst ok3|destruct Hr3 as [-> Hl]].
  2:{ unfold emit, modify. eexists _, (e1 ++ e2 ++ e3), false. split; [reflexivity|].
      cbn [ops sink self]. rewrite Ho3, Ho2, Ho1, Hs3, Hs2, Hs1, Hk3, Hk2, Hk1, <- !app_assoc.
      split; [reflexivity|]. split; [reflexivity|].
      split; [by apply session_played_app, session_played_app, session_played_stop|].
      split; [discriminate|].
      intros _. destruct Hl as (o & Hl). exists o, e. split; [|reflexivity].
      rewrite !last_app, Hl. reflexivity. }
  unfold bind at 1, get_self at 1. cbn beta iota. rewrite Hs3, Hs2, Hs1.
  destruct (close_if_run (playwright (self st)) PlaywrightStop (fun _ => eq_refl) st3)
    as (r4 & st4 & e4 & ok4 & Hrun4 & Ho4 & Hk4 & Hs4 & Hp4 & Hr4).
  unfold bind at 1. rewrite Hrun4. destruct r4 as [[]|e]; [subst ok4|destruct Hr4 as [-> Hl]].
  2:{ unfold emit, modify. eexists _, (e1 ++ e2 ++ e3 ++ e4), false. split; [reflexivity|].
      cbn [ops sink self].
      rewrite Ho4, Ho3, Ho2, Ho1, Hs4, Hs3, Hs2, Hs1, Hk4, Hk3, Hk2, Hk1, <- !app_assoc.
      split; [reflexivity|]. split; [reflexivity|].
      split; [by apply session_played_app, session_played_app, session_played_app|].
      split; [discriminate|].
      intros _. destruct Hl as (o & Hl). exists o, e. split; [|reflexivity].
      rewrite !last_app, Hl. reflexivity. }
  unfold emit, modify. eexists _, (e1 ++ e2 ++ e3 ++ e4), true. split; [reflexivity|].
  cbn [ops sink self].
  rewrite Ho4, Ho3, Ho2, Ho1, Hs4, Hs3, Hs2, Hs1, Hk4, Hk3, Hk2, Hk1, <- !app_assoc.
  split; [reflexivity|]. split; [reflexivity|].
  split; [by apply session_played_app, session_played_app, session_played_app|].
  split; [reflexivity|discriminate].
Qed.

(** X19. [stop] never raises.  It closes the page, the context, the
    browser and Playwright, in this order, each only if [start] has set
    it, and stops at the first close that raises: what comes after it is
    left open, and the error goes to the log.  The fields are not
    cleared, so that a second [stop] has the same objects to close. *)
Theorem stop_closes_in_order (st : state W) :
  exists st' evs ok,
    stop st = (Returned tt, st') /\
    ops st' = ops st ++ evs /\
    self st' = self st /\
    closing (self st') = closing (self st) /\
    Played (closing (self st)) evs ok /\
    (ok = true -> sink st' = sink st ++ [(INFO, success_message "Browser session stopped")]) /\
    (ok = false ->
     exists o e, last evs = Some (o, Some e) /\
                 sink st' = sink st ++ [(ERROR, "Error stopping browser: " +:+ e)]).
Proof.
  destruct (stop_run st) as (st' & evs & ok & Hrun & Ho & Hs & Hp & Hok & Hfail).
  exists st', evs, ok. rewrite Hs. by repeat split.
Qed.

(** [start], call by call: the objects made are adopted one by one, and
    stay adopted when a later call raises. *)
Lemma start_run (st : state W) :
  exists r st' evs hs,
    start st = (r, st') /\
    ops st' = ops st ++ evs /\
    self st' = adopt hs (self st) /\
    length hs = made evs /\ (length hs <= 4)%nat /\
    match r with
    | Returned _ =>
        exists pw br cx pg,
          hs = [pw; br; cx; pg] /\
          Played (starting (config (self st)) pw br cx pg) evs true /\
          sink st' = sink st ++
            [(INFO, step_message "Starting browser session" None);
             (INFO, success_message "Browser session started successfully")]
    | Raised e =>
        (exists o, last evs = Some (o, Some e)) /\
        sink st' = sink st ++
          [(INFO, step_message "Starting browser session" None);
           (ERROR, error_message "Failed to start browser session" (Some e))]
    end.
Proof.
  unfold start, starting, try_except, bind, call, emit, set_self, get_self, modify, raise.
  cbn [world ops sink self config playwright browser context page].
  destruct (drive PlaywrightStart (world st)) as [[pw|e] w1]; cbn [World.error_of].
  2:{ eexists _, _, [_], []. split; [reflexivity|]. cbn [ops sink self adopt].
      rewrite <- app_assoc. repeat split; try reflexivity; try (cbn; lia); by eexists. }
  cbn [world ops sink self config playwright browser context page].
  destruct (drive (ChromiumLaunch pw _) w1) as [[br|e] w2]; cbn [World.error_of].
  2:{ eexists _, _, [_; _], [pw]. split; [reflexivity|]. cbn [ops sink self adopt].
      rewrite <- !app_assoc. repeat split; try reflexivity; try (cbn; lia); by eexists. }
  cbn [world ops sink self config playwright browser context page].
  destruct (drive (NewContext br) w2) as [[cx|e] w3]; cbn [World.error_of].
  2:{ eexists _, _, [_; _; _], [pw; br]. split; [reflexivity|]. cbn [ops sink self adopt].
      rewrite <- !app_assoc. repeat split; try reflexivity; try (cbn; lia); by eexists. }
  cbn [world ops sink self config playwright browser context page].
  destruct (drive (NewPage cx) w3) as [[pg|e] w4]; cbn [World.error_of].
  2:{ eexists _, _, [_; _; _; _], [pw; br; cx]. split; [reflexivity|].
      cbn [ops sink self adopt].
      rewrite <- !app_assoc. repeat split; try reflexivity; try (cbn; lia); by eexists. }
  cbn [world ops sink self config playwright browser context page].
  destruct (drive (SetDefaultTimeout pg _) w4) as [[[]|e] w5]; cbn [World.error_of].
  2:{ eexists _, _, [_; _; _; _; _], [pw; br; cx; pg]. split; [reflexivity|].
      cbn [ops sink self adopt].
      rewrite <- !app_assoc. repeat split; try reflexivity; try (cbn; lia); by eexists. }
  cbn [world ops sink self config playwright browser context page].
  destruct (drive (SetDefaultNavigationTimeout pg _) w5) as [[[]|e] w6]; cbn [World.error_of].
  2:{ eexists _, _, [_; _; _; _; _; _], [pw; br; cx; pg]. split; [reflexivity|].
      cbn [ops sink self adopt].
      rewrite <- !app_assoc. repeat split; try reflexivity; try (cbn; lia); by eexists. }
  eexists _, _, [_; _; _; _; _; _], [pw; br; cx; pg]. split; [reflexivity|].
  cbn [ops sink self adopt]. rewrite <- !app_assoc.
  repeat split; try reflexivity; try (cbn; lia).
  exists pw, br, cx, pg. repeat split; try reflexivity. repeat constructor.
Qed.

(** X20. [start] makes Playwright, the browser, the context and the page,
    each from the one before, and sets both timeouts of the page to the
    configured seconds.  When a call raises, [start] logs the error and
    raises it again; the objects made before stay in their fields. *)
Theorem start_makes_or_reraises (st : state W) :
  exists r st' evs hs,
    start st = (r, st') /\
    ops st' = ops st ++ evs /\
    self st' = adopt hs (self st) /\
    length hs = made evs /\
    match r with
    | Returned _ =>
        exists pw br cx pg,
          hs = [pw; br; cx; pg] /\
          Played (starting (config (self st)) pw br cx pg) evs true /\
          sink st' = sink st ++
            [(INFO, step_message "Starting browser session" None);
             (INFO, success_message "Browser session started successfully")]
    | Raised e =>
        (exists o, last evs = Some (o, Some e)) /\
        sink st' = sink st ++
          [(INFO, step_message "Starting browser session" None);
           (ERROR, error_message "Failed to start browser session" (Some e))]
    end.
Proof.
  destruct (start_run st) as (r & st' & evs & hs & H1 & H2 & H3 & H4 & _ & H5).
  by exists r, st', evs, hs.
Qed.

Lemma closing_adopt cfg hs : closing (adopt hs (init cfg)) = closes_for hs.
Proof. destruct hs as [|pw [|br [|cx [|pg [|]]]]]; reflexivity. Qed.

(** X21. On a new manager, [stop] after [start] has one close to make for
    every object that [start] has made and put in its field, whether
    [start] went through or raised on the way, and makes them in the
    reverse order of the making, up to the first close that raises. *)
Theorem stop_after_start cfg (st : state W) :
  self st = init cfg ->
  exists r st1 evs hs st2 evs2 ok,
    start st = (r, st1) /\
    ops st1 = ops st ++ evs /\
    self st1 = adopt hs (init cfg) /\
    length hs = made evs /\
    stop st1 = (Returned tt, st2) /\
    ops st2 = ops st1 ++ evs2 /\
    Played (closes_for hs) evs2 ok.
Proof.
  intros Hnew.
  destruct (start_run st) as (r & st1 & evs & hs & Hstart & Ho & Hs & Hmade & Hlen & _).
  destruct (stop_run st1) as (st2 & evs2 & ok & Hstop & Ho2 & _ & Hp & _).
  exists r, st1, evs, hs, st2, evs2, ok.
  rewrite Hs, Hnew, closing_adopt in Hp. rewrite Hnew in Hs.
  by repeat split.
Qed.

End Facts.

Lemma stop_closes_in_order_witness :
  exists st',
    stop (H := Scenario.flaky Scenario.no_context) Scenario.new_session = (Returned tt, st') /\
    sink st' = [(INFO, success_message "Browser session stopped")].
Proof.
  destruct (stop_closes_in_order (H := Scenario.flaky Scenario.no_context)
              Scenario.new_session)
    as (st' & evs & ok & Hrun & _ & _ & _ & Hp & Hok & _).
  exists st'. split; [exact Hrun|]. apply Hok.
  cbn in Hp. by inversion Hp.
Defined.

(** When no context can be made, [start] raises with Playwright and the
    browser made, and [stop] closes the browser and then Playwright. *)
Lemma stop_after_start_witness :
  exists st1 st2,
    start (H := Scenario.flaky Scenario.no_context) Scenario.new_session
      = (Raised "Target closed", st1) /\
    stop (H := Scenario.flaky Scenario.no_context) st1 = (Returned tt, st2) /\
    ops st2 = ops st1 ++ [(BrowserClose 1%nat, None); (PlaywrightStop 0%nat, None)].
Proof.
  destruct (stop_after_start (H := Scenario.flaky Scenario.no_context)
              Scenario.plain_config Scenario.new_session eq_refl)
    as (r & st1 & evs & hs & st2 & evs2 & ok & Hstart & _ & _ & _ & Hstop & Hops & _).
  exists st1, st2.
  assert (r = Raised "Target closed") as ->.
  { revert Hstart. vm_compute. by intros [= <- _]. }
  split; [exact Hstart|]. split; [exact Hstop|].
  revert Hstart Hstop. vm_compute. intros [= <-]. vm_compute. by intros [= <-].
Defined.

End SessionFacts.

(** ** The orchestrator, further *)

Module AgentMore.
Import Logger World Agent AgentFacts.

Section Grows.
Context {W : Type} `{Handler W} {S : Type}.

Lemma grows_ret {A} (a : A) : grows (W:=W) (S:=S) (ret a).
Proof. by intros st r st' [= <- <-]. Qed.

Lemma grows_raise {A} e : grows (W:=W) (S:=S) (A:=A) (raise e).
Proof. by intros st r st' [= <- <-]. Qed.

Lemma grows_lift {A} (o : outcome A) : grows (W:=W) (S:=S) (lift o).
Proof. by intros st r st' [= <- <-]. Qed.

Lemma grows_bind {A B} (m : M (env W S) A) (k : A -> M (env W S) B) :
  grows m -> (forall a, grows (k a)) -> grows (bind m k).
Proof.
  intros Hm Hk st r st' Hrun. unfold bind in Hrun.
  destruct (m st) as [[a|e] s1] eqn:E.
  - etrans; [exact (Hm _ _ _ E)|exact (Hk _ _ _ _ Hrun)].
  - injection Hrun as <- <-. exact (Hm _ _ _ E).
Qed.

Lemma grows_try_except {A} (body : M (env W S) A) handler :
  grows body -> (forall e, grows (handler e)) -> grows (try_except body handler).
Proof.
  intros Hb Hh st r st' Hrun. unfold try_except in Hrun.
  destruct (body st) as [[a|e] s1] eqn:E.
  - injection Hrun as <- <-. exact (Hb _ _ _ E).
  - etrans; [exact (Hb _ _ _ E)|exact (Hh _ _ _ _ Hrun)].
Qed.

Lemma grows_emit lv msg : grows (W:=W) (S:=S) (emit lv msg).
Proof. by intros st r st' [= <- <-]. Qed.

Lemma grows_clock : grows (W:=W) (S:=S) clock.
Proof. intros st r st'. unfold clock. destruct (now (world st)). by intros [= <- <-]. Qed.

Lemma grows_time : grows (W:=W) (S:=S) time.
Proof. intros st r st'. unfold time. destruct (time_time (world st)). by intros [= <- <-]. Qed.

Lemma grows_get_self : grows (W:=W) (S:=S) get_self.
Proof. by intros st r st' [= <- <-]. Qed.

Lemma grows_set_self s : grows (W:=W) (S:=S) (set_self s).
Proof. by intros st r st' [= <- <-]. Qed.

Lemma grows_get_actions : grows (W:=W) (S:=S) get_actions.
Proof. by intros st r st' [= <- <-]. Qed.

Lemma grows_with_sink {A} (m : M (list log_line) A) : grows (W:=W) (S:=S) (with_sink m).
Proof. intros st r st'. unfold with_sink. destruct (m (sink st)). by intros [= <- <-]. Qed.

Lemma grows_ext c : grows (W:=W) (S:=S) (ext c).
Proof. intros st r st'. unfold ext. destruct (respond c (world st)). by intros [= <- <-]. Qed.

Lemma grows_log_action act ok det : grows (W:=W) (S:=S) (log_action act ok det).
Proof.
  intros st r st'. rewrite TotalFacts.log_action_acted. intros [= <- <-].
  cbn [acted actions]. by apply prefix_app_r.
Qed.

Lemma grows_log_step s d : grows (W:=W) (S:=S) (log_step s d).
Proof. apply grows_emit. Qed.

Lemma grows_log_warning m : grows (W:=W) (S:=S) (log_warning m).
Proof. apply grows_emit. Qed.

Lemma grows_log_error m e : grows (W:=W) (S:=S) (log_error m e).
Proof. apply grows_emit. Qed.

Lemma grows_log_success m : grows (W:=W) (S:=S) (log_success m).
Proof. apply grows_emit. Qed.

End Grows.

End AgentMore.

Create HintDb grows.

#[export] Hint Resolve AgentMore.grows_ret AgentMore.grows_raise AgentMore.grows_lift
  AgentMore.grows_emit AgentMore.grows_clock AgentMore.grows_time AgentMore.grows_get_self
  AgentMore.grows_set_self AgentMore.grows_get_actions AgentMore.grows_with_sink
  AgentMore.grows_ext AgentMore.grows_log_action AgentMore.grows_log_step
  AgentMore.grows_log_warning AgentMore.grows_log_error AgentMore.grows_log_success : grows.

Ltac grows_tac :=
  repeat first
    [ progress auto with grows
    | apply AgentMore.grows_bind; [|intros]
    | apply AgentMore.grows_try_except; [|intros]
    | match goal with
      | |- Agent.grows (if ?b then _ else _) => destruct b
      | |- Agent.grows (match ?x with _ => _ end) => destruct x
      end ].

Module ExecuteMore.
Import Logger World Agent AgentFacts ExecuteFacts AgentMore.

Section Facts.
Context {W : Type} `{Handler W}.
Variable model : string -> outcome string.
Variable json_loads : string -> outcome value.
Variable prompt_of : string -> string.

Abbreviation state := (env W GenericUIAgent).
Abbreviation run := (execute model json_loads prompt_of).

Lemma grows_provider_execute_task adapter task_info :
  grows (W:=W) (S:=GenericUIAgent) (Provider.execute_task adapter task_info).
Proof. unfold Provider.execute_task. grows_tac. Qed.

Lemma grows_create_error_result msg : grows (W:=W) (_create_error_result msg).
Proof. unfold _create_error_result. grows_tac. Qed.

Lemma grows_interpret instruction :
  grows (W:=W) (_interpret_instruction model json_loads prompt_of instruction).
Proof. unfold _interpret_instruction. grows_tac. Qed.

Lemma grows_selected_or_none selected : grows (W:=W) (selected_or_none selected).
Proof. unfold selected_or_none. grows_tac. Qed.

Lemma grows_select_provider task_info : grows (W:=W) (_select_provider task_info).
Proof.
  unfold _select_provider.
  apply grows_try_except; [|intros; grows_tac].
  apply grows_bind; [grows_tac|]. intros _.
  apply grows_bind; [grows_tac|]. intros preference.
  apply grows_bind; [grows_tac|]. intros me.
  destruct (is_str preference "auto").
  - destruct (Config.get_available_providers (config me)); [grows_tac|].
    apply grows_selected_or_none.
  - destruct (is_str preference "gmail" || is_str preference "outlook"); [|grows_tac].
    destruct (Config.is_provider_configured (config me) (str preference)).
    + apply grows_selected_or_none.
    + apply grows_bind; [grows_tac|]. intros _. apply grows_selected_or_none.
Qed.

Lemma grows_initialize_browser : grows (W:=W) _initialize_browser.
Proof. unfold _initialize_browser, set_browser_manager. grows_tac. Qed.

Lemma grows_get_provider_adapter provider_name :
  grows (W:=W) (_get_provider_adapter provider_name).
Proof. unfold _get_provider_adapter. grows_tac. Qed.

Lemma grows_execute_task provider_name task_info :
  grows (W:=W) (_execute_task provider_name task_info).
Proof.
  unfold _execute_task.
  apply grows_try_except; [|intros; grows_tac; apply grows_create_error_result].
  apply grows_bind; [grows_tac|]. intros _.
  apply grows_bind; [apply grows_get_provider_adapter|]. intros [adapter|].
  - apply grows_bind; [apply grows_provider_execute_task|]. intros result.
    grows_tac.
  - apply grows_create_error_result.
Qed.

Lemma grows_execute_try instruction start_time :
  grows (W:=W) (execute_try model json_loads prompt_of instruction start_time).
Proof.
  unfold execute_try.
  apply grows_bind; [grows_tac|]. intros _.
  apply grows_bind; [apply grows_interpret|]. intros [task_info|].
  2:{ apply grows_create_error_result. }
  destruct (negb (truthy task_info)); [apply grows_create_error_result|].
  apply grows_bind; [apply grows_select_provider|]. intros [provider|].
  2:{ apply grows_create_error_result. }
  apply grows_bind; [apply grows_initialize_browser|]. intros _.
  apply grows_bind; [apply grows_execute_task|]. intros result.
  grows_tac.
Qed.

Lemma grows_execute_except start_time e : grows (W:=W) (execute_except start_time e).
Proof. unfold execute_except. grows_tac. Qed.

Lemma accounts_bind {A} (m : M state A) k :
  (forall a, accounts (k a)) -> accounts (bind m k).
Proof.
  intros Hk st r st' Hrun. unfold bind in Hrun.
  destruct (m st) as [[a|e] s1]; [|discriminate]. exact (Hk _ _ _ _ Hrun).
Qed.

Lemma accounts_try_except body handler :
  accounts (W:=W) body -> (forall e, accounts (handler e)) ->
  accounts (try_except body handler).
Proof.
  intros Hb Hh st r st' Hrun. unfold try_except in Hrun.
  destruct (body st) as [[a|e] s1] eqn:E.
  - injection Hrun as <- <-. exact (Hb _ _ _ E).
  - exact (Hh _ _ _ _ Hrun).
Qed.

Lemma accounts_create_error_result msg : accounts (W:=W) (_create_error_result msg).
Proof. intros st r st' [= <- <-]. split; reflexivity. Qed.

Lemma accounts_execute_except start_time e : accounts (W:=W) (execute_except start_time e).
Proof.
  intros st r st'. unfold execute_except, bind, time, log_error, emit, modify, get_actions, ret.
  destruct (time_time (world st)) as [t w]. intros [= <- <-]. split; reflexivity.
Qed.

Lemma accounts_execute_try instruction start_time :
  accounts (W:=W) (execute_try model json_loads prompt_of instruction start_time).
Proof.
  unfold execute_try.
  apply accounts_bind. intros _.
  apply accounts_bind. intros [task_info|]; [|apply accounts_create_error_result].
  destruct (negb (truthy task_info)); [apply accounts_create_error_result|].
  apply accounts_bind. intros [provider|]; [|apply accounts_create_error_result].
  apply accounts_bind. intros _.
  apply accounts_bind. intros result.
  intros st r st'. unfold bind, time, lift, get_actions, log_success, emit, modify, ret.
  destruct (time_time (world st)) as [t w].
  destruct (method_get task_info "task_type" (VStr "unknown")) as [task_type|e];
    [|discriminate].
  intros [= <- <-]. cbn [actions]. split.
  - apply LLMMore.dict_has_set, LLMMore.dict_has_set.
    unfold dict_has. by rewrite LLMFacts.dict_get_set_same.
  - apply LLMFacts.dict_get_set_same.
Qed.

(** [_cleanup_browser] adds at most its own record to the action log. *)
Lemma cleanup_browser_actions (st : state) :
  exists st',
    _cleanup_browser st = (Returned tt, st') /\
    (actions st' = actions st \/
     exists t, actions st' = actions st ++ [mkAction "Browser cleanup completed" true None t]).
Proof.
  unfold _cleanup_browser, try_except, bind, get_self.
  destruct (browser_manager (self st)).
  - unfold ext, set_browser_manager, bind, get_self, set_self, modify, emit, modify.
    cbn [world trace sink actions self].
    destruct (respond BrowserStop (world st)) as [[[]|e] w1];
      cbn [world trace sink actions self error_of].
    + rewrite TotalFacts.log_action_acted. eexists. split; [reflexivity|].
      right. eexists. reflexivity.
    + eexists. split; [reflexivity|]. by left.
  - eexists. split; [reflexivity|]. by left.
Qed.

(** X28. [_interpret_instruction] of the agent never fails: whatever the
    model and the JSON reader do, it returns a dict that has each of the
    nine keys of a task record, and logs the action as a success.  So the
    test [if not task_info] of [execute] never takes its branch. *)
Theorem interpretation_always_succeeds instruction (st : state) :
  exists d st' rec,
    _interpret_instruction model json_loads prompt_of instruction st
      = (Returned (Some (VDict d)), st') /\
    (forall k, In k (map fst LLM.defaults) -> dict_has k d = true) /\
    truthy (VDict d) = true /\
    trace st' = trace st /\
    actions st' = actions st ++ [rec] /\
    action rec = "Instruction interpreted" /\ success rec = true.
Proof.
  unfold _interpret_instruction, try_except, bind at 1 2, log_step, emit, modify, with_sink.
  cbn [world trace sink actions self].
  destruct (LLMFacts.interpret_instruction_cases model json_loads prompt_of instruction
              (sink st ++ [(INFO, step_message "Interpreting instruction" None)]))
    as (task & sink' & Hrun & Hcase).
  rewrite Hrun.
  assert (Hd : exists d, task = VDict d /\
                 forall k, In k (map fst LLM.defaults) -> dict_has k d = true).
  { destruct (LLM.interpretation_fails model json_loads prompt_of instruction).
    - subst task. eexists. split; [reflexivity|].
      intros k Hk. cbn in Hk.
      repeat (destruct Hk as [<-|Hk]; [reflexivity|]). destruct Hk.
    - destruct Hcase as (response & v & _ & _ & Hval).
      destruct (LLMFacts.validate_spec _ _ Hval) as (d0 & -> & _).
      destruct (LLMMore.validate_keys_spec _ _ Hval) as (d & -> & Hkeys & _).
      by exists d. }
  destruct Hd as (d & -> & Hkeys).
  unfold bind, lift, method_get. rewrite TotalFacts.log_action_acted.
  exists d. eexists _, _. split; [reflexivity|]. cbn [acted trace actions].
  split; [exact Hkeys|]. split; [|by repeat split].
  destruct d; [|reflexivity].
  specialize (Hkeys "task_type"). cbn in Hkeys. discriminate Hkeys. tauto.
Qed.

(** X23. [_get_provider_adapter] makes an adapter once and keeps it: the
    adapter it returns is filed under the name, a second call returns the
    same adapter and changes nothing, and the adapters of other names
    stay as they are.  A new adapter has the configuration of the agent
    and answers to the name it was asked for.  For a name other than
    "gmail" and "outlook" that has no adapter yet, it returns [None] and
    files nothing. *)
Theorem provider_adapter_is_cached provider_name (st : state) :
  exists r st',
    _get_provider_adapter provider_name st = (Returned r, st') /\
    trace st' = trace st /\
    (forall other, other <> provider_name ->
       providers (self st') !! other = providers (self st) !! other) /\
    match r with
    | Some adapter =>
        providers (self st') !! provider_name = Some adapter /\
        _get_provider_adapter provider_name st' = (Returned (Some adapter), st') /\
        (providers (self st) !! provider_name = None ->
         Provider.config adapter = config (self st) /\
         Provider.get_provider_name adapter = provider_name)
    | None =>
        providers (self st) !! provider_name = None /\
        provider_name <> "gmail" /\ provider_name <> "outlook" /\
        self st' = self st
    end.
Proof.
  unfold _get_provider_adapter at 1. unfold bind, get_self.
  destruct (providers (self st) !! provider_name) as [adapter|] eqn:Hcached.
  - exists (Some adapter), st. split; [reflexivity|]. split; [reflexivity|].
    split; [reflexivity|]. split; [exact Hcached|]. split; [|discriminate].
    unfold _get_provider_adapter, bind, get_self. by rewrite Hcached.
  - unfold try_except, bind, set_self, modify, ret, log_error, emit, modify.
    destruct (String.eqb_spec provider_name "gmail") as [->|Hg];
      [|destruct (String.eqb_spec provider_name "outlook") as [->|Ho]].
    + eexists _, _. split; [reflexivity|]. cbn [trace self providers].
      split; [reflexivity|]. split; [intros other Ho; by rewrite lookup_insert_ne|].
      split; [by rewrite lookup_insert_eq|]. split; [|by split].
      unfold _get_provider_adapter, bind, get_self. cbn [self providers].
      by rewrite lookup_insert_eq.
    + eexists _, _. split; [reflexivity|]. cbn [trace self providers].
      split; [reflexivity|]. split; [intros other Ho; by rewrite lookup_insert_ne|].
      split; [by rewrite lookup_insert_eq|]. split; [|by split].
      unfold _get_provider_adapter, bind, get_self. cbn [self providers].
      by rewrite lookup_insert_eq.
    + eexists _, _. split; [reflexivity|]. cbn [trace self providers].
      by repeat split.
Qed.

(** X22. [execute] never raises, and its result accounts for the run: it
    has a duration, and under [actions] the action log as it was when the
    result was put together.  The log is not cleared at the start of a
    run, so that the records of earlier runs are listed again; and the
    record of the cleanup, which is logged after the result was put
    together, is not listed. *)
Theorem execute_reports_the_log instruction (st : state) :
  exists result st' acts,
    run instruction st = (Returned result, st') /\
    dict_has "duration" result = true /\
    dict_get "actions" result = Some (VList (map record_value acts)) /\
    actions st `prefix_of` acts /\
    (actions st' = acts \/
     exists t, actions st' = acts ++ [mkAction "Browser cleanup completed" true None t]).
Proof.
  unfold execute, bind at 1, time.
  destruct (time_time (world st)) as [t0 w0].
  set (st1 := mkEnv w0 (trace st) (sink st) (actions st) (self st)).
  unfold try_finally.
  destruct (TotalFacts.total_try_except
              (execute_try model json_loads prompt_of instruction t0)
              (execute_except t0) (total_execute_except t0) st1)
    as (result & st2 & Hg).
  rewrite Hg.
  destruct (accounts_try_except _ _ (accounts_execute_try instruction t0)
              (accounts_execute_except t0) _ _ _ Hg) as [Hd Ha].
  pose proof (grows_try_except _ _ (grows_execute_try instruction t0)
                (grows_execute_except t0) _ _ _ Hg) as Hgrow.
  destruct (cleanup_browser_actions st2) as (st3 & Hclean & Hact).
  rewrite Hclean.
  exists result, st3, (actions st2). by repeat split.
Qed.

End Facts.

Import Scenario.

Lemma provider_adapter_is_cached_witness :
  exists adapter st',
    _get_provider_adapter "gmail" (agent_in plain_config (page_world []))
      = (Returned (Some adapter), st') /\
    Provider.get_provider_name adapter = "gmail" /\
    _get_provider_adapter "gmail" st' = (Returned (Some adapter), st').
Proof.
  destruct (provider_adapter_is_cached "gmail" (agent_in plain_config (page_world [])))
    as ([adapter|] & st' & Hrun & _ & _ & Hr).
  - destruct Hr as (_ & Hagain & Hnew). exists adapter, st'.
    split; [exact Hrun|]. split; [|exact Hagain].
    apply Hnew. apply lookup_empty.
  - destruct Hr as (_ & Hg & _). by destruct Hg.
Defined.

End ExecuteMore.

(** ** The helpers of the provider base class *)

Module ProviderMore.
Import Logger World Provider.

Section Facts.
Context {W : Type} `{Handler W} {S : Type}.

(** X24. On a dict, [_validate_task_info] of the provider base class
    returns true exactly when the recipients and the content are both
    there and truthy; when it returns false, one error line names the
    first of the two fields that is missing.  Its last test can never
    fail: "No recipients specified" is never logged. *)
Theorem provider_validate_task_info (d : list (string * value)) (st : env W S) :
  let recipients := default VNone (dict_get "recipients" d) in
  let content := default VNone (dict_get "content" d) in
  exists b st',
    _validate_task_info (VDict d) st = (Returned b, st') /\
    b = truthy recipients && truthy content /\
    trace st' = trace st /\
    sink st' = sink st ++
      (if negb (truthy recipients) then [(ERROR, "Missing required field: recipients")]
       else if negb (truthy content) then [(ERROR, "Missing required field: content")]
       else []) /\
    (ERROR, "No recipients specified") ∉ drop (length (sink st)) (sink st').
Proof.
  cbn zeta. unfold _validate_task_info. cbn [required_loop method_get].
  unfold bind, lift, emit, modify, ret. cbn beta iota.
  change (match dict_get "recipients" d with Some x => x | None => VNone end)
    with (default VNone (dict_get "recipients" d)).
  change (match dict_get "content" d with Some x => x | None => VNone end)
    with (default VNone (dict_get "content" d)).
  destruct (truthy (default VNone (dict_get "recipients" d))) eqn:Hr; cbn [negb andb].
  - destruct (truthy (default VNone (dict_get "content" d))) eqn:Hc; cbn [negb].
    + eexists _, _. split; [reflexivity|].
      rewrite app_nil_r, drop_all. repeat split. apply not_elem_of_nil.
    + eexists _, _. split; [reflexivity|]. cbn [trace sink].
      rewrite drop_app_length. repeat split.
      intros Hin. apply list_elem_of_In in Hin as [[=]|[]].
  - eexists _, _. split; [reflexivity|]. cbn [trace sink].
    rewrite drop_app_length. repeat split.
    intros Hin. apply list_elem_of_In in Hin as [[=]|[]].
Qed.

Lemma between_attempts_refl (st : env W S) : between_attempts st st.
Proof. repeat split. exists []. by rewrite app_nil_r. Qed.

(** The loop of [_retry_action], from any attempt on. *)
Lemma retry_loop_spec (action_func : M (env W S) value) (max_retries : Z) :
  forall (left i : nat) (st : env W S),
    (left = 0%nat \/ Z.of_nat i + Z.of_nat left = max_retries) ->
    exists b st' outs,
      retry_loop action_func max_retries (Z.of_nat i) left st = (Returned b, st') /\
      Tried action_func outs st st' /\
      (length outs <= left)%nat /\
      Forall (fun o => hit o = false) (removelast outs) /\
      b = existsb hit outs /\
      (b = false -> length outs = left) /\
      ((forall st0, Browser.pace (trace (snd (action_func st0))) = Browser.pace (trace st0)) ->
       Browser.pace (trace st')
       = Browser.pace (trace st)
         ++ map (fun j => 2 ^ Z.of_nat j * 1000) (seq i (length outs - 1))).
Proof.
  induction left as [|left IH]; intros i st Hlen.
  - exists false, st, []. split; [reflexivity|]. split; [constructor|].
    cbn. rewrite app_nil_r. repeat split; auto.
  - destruct Hlen as [|Hlen]; [discriminate|].
    cbn [retry_loop]. unfold bind at 1, try_except, bind at 1.
    destruct (action_func st) as [[v|e] st1] eqn:Hact.
    + unfold ret at 1. destruct (truthy v) eqn:Hv.
      * exists true, st1, [Returned v]. split; [reflexivity|].
        split; [econstructor; [exact Hact|apply between_attempts_refl|constructor]|].
        cbn [length removelast existsb hit]. rewrite Hv.
        split; [lia|]. split; [constructor|]. split; [reflexivity|].
        split; [discriminate|]. intros Hquiet. specialize (Hquiet st).
        rewrite Hact in Hquiet. cbn in *. by rewrite app_nil_r.
      * set (st2 := snd ((if Z.of_nat i <? max_retries - 1
                          then sleep (2 ^ Z.of_nat i * 1000) else ret tt) st1)).
        assert (Hglue : between_attempts st1 st2).
        { subst st2. destruct (Z.of_nat i <? max_retries - 1); cbn.
          - repeat split. by exists [2 ^ Z.of_nat i * 1000].
          - apply between_attempts_refl. }
        destruct (IH (Datatypes.S i) st2) as (b & st' & outs & Hrun & Htried & Hle & Hmiss
                                               & Hb & Hf & Hp);
          [destruct left; [by left|right; lia]|].
        replace (Z.of_nat i + 1) with (Z.of_nat (Datatypes.S i)) by lia.
        exists b, st', (Returned v :: outs). split.
        { subst st2. unfold bind at 1.
          destruct (Z.of_nat i <? max_retries - 1); cbn in *; exact Hrun. }
        split; [econstructor; eauto|]. cbn [length existsb hit]. rewrite Hv. cbn [orb].
        split; [lia|]. split.
        { destruct outs; [constructor|]. cbn [removelast]. constructor; [exact Hv|].
          exact Hmiss. }
        split; [exact Hb|]. split; [intros Hbf; rewrite (Hf Hbf); reflexivity|].
        intros Hquiet. rewrite (Hp Hquiet). pose proof (Hquiet st) as Hq.
        rewrite Hact in Hq. cbn [snd] in Hq.
        destruct outs as [|o outs].
        { cbn. rewrite !app_nil_r.
          assert (left = 0%nat) as -> by (destruct b; [discriminate|by rewrite <- (Hf eq_refl)]).
          subst st2.
          destruct (Z.ltb_spec (Z.of_nat i) (max_retries - 1)); [lia|]. cbn. exact Hq. }
        assert (Hlt : (Z.of_nat i <? max_retries - 1) = true).
        { apply Z.ltb_lt. cbn [length] in Hle. lia. }
        subst st2. rewrite Hlt. cbn [snd sleep modify trace].
        rewrite BrowserMore.pace_app, Hq. cbn [length Nat.sub seq map Browser.pace omap app].
        rewrite Nat.sub_0_r, <- app_assoc. reflexivity.
    + unfold bind at 1, emit, modify, ret at 1.
      set (st1' := mkEnv _ _ _ _ _).
      set (st2 := snd ((if Z.of_nat i <? max_retries - 1
                        then sleep (2 ^ Z.of_nat i * 1000) else ret tt) st1')).
      assert (Hglue : between_attempts st1 st2).
      { subst st2 st1'. destruct (Z.of_nat i <? max_retries - 1); cbn.
        - repeat split. by exists [2 ^ Z.of_nat i * 1000].
        - repeat split. exists []. by rewrite app_nil_r. }
      destruct (IH (Datatypes.S i) st2) as (b & st' & outs & Hrun & Htried & Hle & Hmiss
                                             & Hb & Hf & Hp);
        [destruct left; [by left|right; lia]|].
      replace (Z.of_nat i + 1) with (Z.of_nat (Datatypes.S i)) by lia.
      exists b, st', (Raised e :: outs). split.
      { subst st2. unfold bind at 1.
        destruct (Z.of_nat i <? max_retries - 1); cbn in *; exact Hrun. }
      split; [econstructor; eauto|]. cbn [length existsb hit orb].
      split; [lia|]. split.
      { destruct outs; [constructor|]. cbn [removelast]. constructor; [reflexivity|].
        exact Hmiss. }
      split; [exact Hb|]. split; [intros Hbf; rewrite (Hf Hbf); reflexivity|].
      intros Hquiet. rewrite (Hp Hquiet). pose proof (Hquiet st) as Hq.
      rewrite Hact in Hq. cbn [snd] in Hq.
      destruct outs as [|o outs].
      { cbn. rewrite !app_nil_r.
        assert (left = 0%nat) as -> by (destruct b; [discriminate|by rewrite <- (Hf eq_refl)]).
        subst st2 st1'.
        destruct (Z.ltb_spec (Z.of_nat i) (max_retries - 1)); [lia|]. cbn. exact Hq. }
      assert (Hlt : (Z.of_nat i <? max_retries - 1) = true).
      { apply Z.ltb_lt. cbn [length] in Hle. lia. }
      subst st2 st1'. rewrite Hlt. cbn [snd sleep modify trace].
      rewrite BrowserMore.pace_app, Hq. cbn [length Nat.sub seq map Browser.pace omap app].
      rewrite Nat.sub_0_r, <- app_assoc. reflexivity.
Qed.

(** X25. [_retry_action] never raises, whatever the action does.  It
    runs the action at most [max_retries] times, each time in the state
    left by the attempt before, and stops at the first attempt that
    returns a truthy value: it returns true exactly when the last
    attempt made did so, and every attempt before it returned a falsy
    value or raised.  When it returns false it has made every attempt.
    Between two attempts it pauses, 1, 2, 4, ... seconds, and not after
    the last.  Without [max_retries], and with 0 as well, the number of
    attempts is the configured [retry_attempts]; when that is not
    positive, no attempt is made. *)
Theorem retry_action_backs_off (self : ProviderAdapter) (action_func : M (env W S) value)
    (max_retries : option Z) (st : env W S) :
  let n := attempts_of self max_retries in
  _retry_action self action_func (Some 0) st = _retry_action self action_func None st /\
  exists b st' outs,
    _retry_action self action_func max_retries st = (Returned b, st') /\
    Tried action_func outs st st' /\
    (length outs <= n)%nat /\
    Forall (fun o => hit o = false) (removelast outs) /\
    b = existsb hit outs /\
    (b = false -> length outs = n) /\
    ((forall st0, Browser.pace (trace (snd (action_func st0))) = Browser.pace (trace st0)) ->
     Browser.pace (trace st') = Browser.pace (trace st) ++ backoff (length outs - 1)).
Proof.
  intros n. split; [reflexivity|].
  unfold _retry_action, backoff. subst n. unfold attempts_of.
  set (m := match max_retries with
            | Some n => if n =? 0 then Config.retry_attempts (config self) else n
            | None => Config.retry_attempts (config self)
            end).
  apply (retry_loop_spec action_func m (Z.to_nat m) 0 st).
  destruct (Z.to_nat m) eqn:E; [by left|right; lia].
Qed.

(** X26. The record that [_fallback_parsing] makes of an instruction
    without an at sign has no recipients, and the provider rejects it:
    [_validate_task_info] of the base class returns false on it. *)
Theorem fallback_without_address_is_rejected (instruction : string) (st : env W S) :
  "@"%char ∉ chars instruction ->
  exists st',
    _validate_task_info (LLM.fallback_record instruction) st = (Returned false, st') /\
    sink st' = sink st ++ [(ERROR, "Missing required field: recipients")].
Proof.
  intros Hno. unfold LLM.fallback_record. rewrite (LLMMore.findall_no_at _ Hno).
  eexists. split; reflexivity.
Qed.

End Facts.

Import Scenario.

(** An action that fails twice and then succeeds. *)
Lemma retry_action_backs_off_witness :
  exists st',
    _retry_action Scenario.gmail_adapter (ret (VBool false)) None Scenario.login_refused
      = (Returned false, st') /\
    Browser.pace (trace st') = [1000; 2000].
Proof.
  destruct (retry_action_backs_off Scenario.gmail_adapter (ret (VBool false)) None
              Scenario.login_refused)
    as (_ & b & st' & outs & Hrun & _ & _ & _ & _ & Hf & Hp).
  assert (b = false) as -> by (revert Hrun; vm_compute; by intros [= <- _]).
  exists st'. split; [exact Hrun|]. rewrite Hp, (Hf eq_refl); [reflexivity|].
  intros st0. reflexivity.
Defined.

Lemma fallback_without_address_is_rejected_witness :
  exists st',
    _validate_task_info (LLM.fallback_record "Send the report to the whole team")
      Scenario.login_refused = (Returned false, st').
Proof.
  destruct (fallback_without_address_is_rejected "Send the report to the whole team"
              Scenario.login_refused) as (st' & Hrun & _).
  - rewrite list_elem_of_In. vm_compute. intuition discriminate.
  - exists st'. exact Hrun.
Defined.

End ProviderMore.

(** ** Recipients, written out and read back *)

Module RoundTrip.
Import Regex RegexFacts LLMFacts Provider.

(** A greedy repetition for which the rest of the pattern matches
    nowhere after the characters it may take: it fails. *)
Lemma match_many_fails cls least cont : forall extra n prev s',
  Forall (fun c => cls c = true) extra ->
  (forall c s'', s' = c :: s'' -> cls c = false) ->
  (forall k, (k <= length extra)%nat ->
     cont (after prev (take k extra)) (drop k extra ++ s') = None) ->
  match_many cls least cont n prev (extra ++ s') = None.
Proof.
  induction extra as [|c e IH]; intros n prev s' Hcls Hhd Hfail.
  - cbn [app]. specialize (Hfail 0%nat (Nat.le_refl _)). cbn [take drop app] in Hfail.
    rewrite after_nil in Hfail.
    destruct s' as [|c s'']; cbn [match_many].
    + rewrite Hfail. by destruct (least <=? n)%nat.
    + rewrite (Hhd c s'' eq_refl), Hfail. by destruct (least <=? n)%nat.
  - apply Forall_cons in Hcls as [Hc He]. cbn [app match_many]. rewrite Hc.
    rewrite (IH (S n) (Some c) s' He Hhd).
    + pose proof (Hfail 0%nat (Nat.le_0_l _)) as H0. cbn [take drop app] in H0.
      rewrite after_nil in H0. rewrite H0. by destruct (least <=? n)%nat.
    + intros k Hk. specialize (Hfail (S k)). cbn [take drop length] in Hfail.
      rewrite after_cons in Hfail. apply Hfail. lia.
Qed.

(** A greedy repetition gives back what it has to: when the rest of the
    pattern matches after [taken] and nowhere later, the match is the one
    after [taken]. *)
Lemma match_many_backtrack cls least cont : forall taken n prev extra s' r,
  Forall (fun c => cls c = true) taken ->
  Forall (fun c => cls c = true) extra ->
  (forall c s'', s' = c :: s'' -> cls c = false) ->
  (forall k, (1 <= k <= length extra)%nat ->
     cont (after (after prev taken) (take k extra)) (drop k extra ++ s') = None) ->
  (least <= n + length taken)%nat ->
  cont (after prev taken) (extra ++ s') = Some r ->
  match_many cls least cont n prev (taken ++ extra ++ s') = Some r.
Proof.
  induction taken as [|c t IH]; intros n prev extra s' r Ht He Hhd Hfail Hleast Hcont.
  - cbn [app length] in *. rewrite after_nil in *.
    assert ((least <=? n)%nat = true) as Hle by (apply Nat.leb_le; lia).
    destruct extra as [|c e].
    + cbn [app] in *. destruct s' as [|c s'']; cbn [match_many].
      * by rewrite Hle.
      * by rewrite (Hhd c s'' eq_refl), Hle.
    + apply Forall_cons in He as [Hc He]. cbn [app match_many]. rewrite Hc.
      rewrite (match_many_fails cls least cont e (S n) (Some c) s' He Hhd).
      * by rewrite Hle.
      * intros k Hk. specialize (Hfail (S k)). cbn [take drop length] in Hfail.
        rewrite after_cons in Hfail. apply Hfail. lia.
  - apply Forall_cons in Ht as [Hc Ht]. cbn [app match_many]. rewrite Hc.
    rewrite after_cons in Hcont.
    rewrite (IH (S n) (Some c) extra s' r Ht He Hhd); [reflexivity| |cbn in Hleast; lia|exact Hcont].
    intros k Hk. specialize (Hfail k Hk). by rewrite after_cons in Hfail.
Qed.

Lemma letter_domain c : letter c = true -> domain_class c = true.
Proof.
  unfold letter, domain_class. intros Hc. apply orb_true_iff in Hc as [-> | ->];
    by rewrite ?orb_true_r.
Qed.

Lemma letter_tld c : letter c = true -> tld_class c = true.
Proof.
  unfold letter, tld_class. intros Hc. apply orb_true_iff in Hc as [-> | ->];
    by rewrite ?orb_true_r.
Qed.

Lemma letter_word c : letter c = true -> is_word c = true.
Proof.
  unfold letter, is_word. intros Hc. apply orb_true_iff in Hc as [-> | ->];
    by rewrite ?orb_true_r.
Qed.

Lemma letter_not_dot c : letter c = true -> Ascii.eqb "." c = false.
Proof.
  intros Hc. destruct (Ascii.eqb_spec "."%char c) as [<-|]; [|reflexivity].
  vm_compute in Hc. discriminate.
Qed.

Lemma after_letters prev tld :
  tld <> [] -> Forall (fun c => letter c = true) tld -> word_before (after prev tld) = true.
Proof.
  intros Hne Hall. destruct (exists_last Hne) as (t & c & ->).
  apply Forall_app in Hall as [_ Hc]. apply Forall_cons in Hc as [Hc _].
  unfold after. rewrite last_snoc. cbn. by apply letter_word.
Qed.

Lemma word_after_app loc s : word_after loc = true -> word_after (loc ++ s) = true.
Proof. by destruct loc. Qed.

(** At a plain address that is followed by nothing, or by a comma, the
    pattern matches the address and nothing more. *)
Lemma match_plain prev m rest :
  plain_address m ->
  word_before prev = false ->
  (rest = [] \/ exists rest', rest = ","%char :: rest') ->
  match_here EMAIL prev (m ++ rest) = Some rest.
Proof.
  intros (loc & dom & tld & -> & Hw & Hloc & Hdom & Hdoms & Htld & Htlds) Hprev Hrest.
  assert (Hnw : word_after rest = false) by (by destruct Hrest as [->|(? & ->)]).
  assert (Hhd : forall cls, cls ","%char = false ->
                  forall c s'', rest = c :: s'' -> cls c = false).
  { intros cls Hcls c s'' E. destruct Hrest as [->|(? & ->)]; [discriminate|].
    by injection E as <- _. }
  assert (Htne : tld <> []) by (intros ->; cbn in Htld; lia).
  unfold EMAIL. cbn [match_here].
  rewrite <- !app_assoc. cbn [app]. rewrite <- !app_assoc. cbn [app].
  unfold at_boundary at 1. rewrite Hprev, (word_after_app _ _ Hw). cbn [xorb].
  rewrite <- (app_nil_l ("@"%char :: _)).
  apply match_many_backtrack; try done.
  { intros c s'' [= <- _]. reflexivity. }
  { intros k Hk. cbn in Hk. lia. }
  { destruct loc; [discriminate|cbn; lia]. }
  cbn [app match_here]. rewrite Ascii.eqb_refl.
  change (dom ++ "."%char :: tld ++ rest) with (dom ++ ("."%char :: tld) ++ rest).
  apply match_many_backtrack; try done.
  { constructor; [reflexivity|]. eapply Forall_impl; [exact Htlds|]. apply letter_domain. }
  { by apply Hhd. }
  { intros k Hk. destruct k as [|k]; [lia|]. cbn [take drop length] in *.
    cbn [match_here].
    destruct (drop k tld ++ rest) as [|c s''] eqn:E; [reflexivity|].
    assert (Ascii.eqb "." c = false) as ->; [|reflexivity].
    destruct (drop k tld) as [|c' l] eqn:Ed.
    - cbn in E. destruct Hrest as [->|(? & ->)]; [discriminate|]. by injection E as <- _.
    - injection E as <- _. apply letter_not_dot.
      pose proof (Forall_drop _ k _ Htlds) as Hd. rewrite Ed in Hd.
      by apply Forall_cons in Hd as [Hd _]. }
  { destruct dom; [done|cbn; lia]. }
  cbn [app match_here]. rewrite Ascii.eqb_refl.
  rewrite <- (app_nil_l rest) at 1.
  apply match_many_backtrack; try done.
  { eapply Forall_impl; [exact Htlds|]. apply letter_tld. }
  { by apply Hhd. }
  { intros k Hk. cbn in Hk. lia. }
  cbn [app match_here]. unfold at_boundary.
  rewrite (after_letters _ _ Htne Htlds), Hnw. reflexivity.
Qed.

(** The scan at a match: the match is reported and the scan goes on
    after it. *)
Lemma findall_go_hit p prev m rest :
  m <> [] ->
  match_here p prev (m ++ rest) = Some rest ->
  findall_go p prev (m ++ rest) 0 = m :: findall_go p (after prev m) rest 0.
Proof.
  intros Hne Hm. destruct m as [|c m]; [done|].
  cbn [app findall_go]. cbn [app] in Hm. rewrite Hm.
  assert (length (c :: m ++ rest) - length rest = S (length m))%nat as ->
    by (cbn [length]; rewrite length_app; lia).
  cbn [take Nat.pred]. rewrite take_app_length, findall_go_skip, after_cons.
  reflexivity.
Qed.

Lemma findall_go_miss p prev c s :
  match_here p prev (c :: s) = None ->
  findall_go p prev (c :: s) 0 = findall_go p (Some c) s 0.
Proof. intros Hm. cbn [findall_go]. by rewrite Hm. Qed.

Lemma email_not_at_end prev : match_here EMAIL prev [] = None.
Proof. unfold EMAIL. cbn. by destruct (at_boundary prev []). Qed.

Lemma email_not_at c prev s :
  local_class c = false -> match_here EMAIL prev (c :: s) = None.
Proof.
  intros Hc. unfold EMAIL. cbn [match_here match_many]. rewrite Hc. cbn.
  by destruct (at_boundary prev (c :: s)).
Qed.

Lemma plain_nonempty m : plain_address m -> m <> [].
Proof. intros (loc & dom & tld & -> & _) E. by destruct loc. Qed.

(** The scan of a line of plain addresses, written with ", " between
    them, finds the addresses. *)
Lemma findall_go_join : forall (ms : list (list ascii)) prev,
  Forall plain_address ms ->
  word_before prev = false ->
  findall_go EMAIL prev (join (chars ", ") ms) 0 = ms.
Proof.
  induction ms as [|m ms IH]; intros prev Hall Hprev.
  - cbn [join findall_go]. by rewrite email_not_at_end.
  - apply Forall_cons in Hall as [Hm Hms].
    destruct ms as [|m2 ms].
    + cbn [join]. rewrite <- (app_nil_r m) at 1.
      rewrite findall_go_hit; [|by apply plain_nonempty|apply match_plain; auto].
      cbn [findall_go]. by rewrite email_not_at_end.
    + change (join (chars ", ") (m :: m2 :: ms))
        with (m ++ ","%char :: " "%char :: join (chars ", ") (m2 :: ms)).
      rewrite findall_go_hit; [|by apply plain_nonempty|apply match_plain; eauto].
      rewrite findall_go_miss by (by apply email_not_at).
      rewrite findall_go_miss by (by apply email_not_at).
      by rewrite IH.
Qed.

Lemma str_items_strings : forall (ss : list string) i,
  str_items i (map VStr ss) = Returned ss.
Proof.
  induction ss as [|s ss IH]; intros i; cbn [map str_items]; [reflexivity|].
  by rewrite IH.
Qed.

Lemma clean_single (line : string) :
  LLM.clean_recipients [("recipients", VStr line)]
  = [("recipients", VList (map VStr (findall EMAIL line)))].
Proof. reflexivity. Qed.

(** X27. Recipients written out by [_format_recipients] are read back by
    the cleaning of [_validate_task_info]: for a list of plain addresses,
    the line that the provider types into the recipient field holds,
    for the pattern of the interpreter, exactly the addresses of the
    list, in order. *)
Theorem format_recipients_round_trip (ss : list string) :
  Forall (fun s => plain_address (chars s)) ss ->
  exists line,
    _format_recipients (VList (map VStr ss)) = Returned line /\
    findall EMAIL line = ss /\
    LLM.clean_recipients [("recipients", VStr line)]
      = [("recipients", VList (map VStr ss))].
Proof.
  intros Hall. unfold _format_recipients. rewrite str_items_strings.
  eexists. split; [reflexivity|].
  assert (Hfind : findall EMAIL (text (join (chars ", ") (map chars ss))) = ss).
  { unfold findall. rewrite chars_text, findall_go_join.
    - rewrite map_map. rewrite <- (map_id ss) at 2. apply map_ext. apply text_chars.
    - by apply Forall_map.
    - reflexivity. }
  split; [exact Hfind|]. by rewrite clean_single, Hfind.
Qed.

Lemma format_recipients_round_trip_witness :
  exists line,
    _format_recipients (VList [VStr "ann@example.com"; VStr "bob.ray@mail.example.org"])
      = Returned line /\
    findall EMAIL line = ["ann@example.com"; "bob.ray@mail.example.org"].
Proof.
  destruct (format_recipients_round_trip ["ann@example.com"; "bob.ray@mail.example.org"])
    as (line & Hline & Hfind & _).
  - constructor; [|constructor; [|constructor]].
    + exists (chars "ann"), (chars "example"), (chars "com").
      split; [reflexivity|]. split; [reflexivity|].
      split; [repeat constructor|]. split; [discriminate|].
      split; [repeat constructor|]. split; [cbn; lia|repeat constructor].
    + exists (chars "bob.ray"), (chars "mail.example"), (chars "org").
      split; [reflexivity|]. split; [reflexivity|].
      split; [repeat constructor|]. split; [discriminate|].
      split; [repeat constructor|]. split; [cbn; lia|repeat constructor].
  - exists line. split; [exact Hline|exact Hfind].
Defined.

End RoundTrip.
